(** * Bluesky desktop shell: URL policy, error sanitizer, page enhancement
      controller and window/process lifecycle.

    A shallow embedding of [main.js] (the host process), [preload.js] (the
    bridge to the page) and of the utility copies exercised by the unit
    tests, together with the properties the specification states about them.

    Conventions.
    - A JavaScript string is its sequence of UTF-16 code units ([list N]);
      [u16] turns an ASCII literal into one.
    - Object identities (timers, closures, DOM nodes) are [positive] numbers
      drawn from a counter, so a handle is always truthy.
    - A handler that can throw returns [Exc]; console output, script
      evaluation requests and IPC messages are recorded in a trace.
*)

From Stdlib Require Import ZArith NArith QArith Qabs String Ascii List Lia.
From Stdlib Require Import DecimalString.
From stdpp Require Import gmap strings list.
Close Scope Q_scope.
Set Warnings "-register-all".

(* ===================================================================== *)
(** ** JavaScript values                                                   *)
(* ===================================================================== *)

Module Js.

Abbreviation jsstring := (list N).

(** ASCII literal to code units. *)
Definition u16 (s : string) : jsstring :=
  map N_of_ascii (list_ascii_of_string s).

(** IEEE numbers, as far as the code distinguishes them: the finite ones
    (kept exact), the two infinities and NaN. *)
Inductive JsNum :=
| NaN
| PosInf
| NegInf
| Fin (q : Q).

Inductive JsValue :=
| JsUndefined
| JsNull
| JsBool (b : bool)
| JsNumber (n : JsNum)
| JsString (s : jsstring)
| JsObj (fields : list (string * JsValue))        (* plain object literal *)
| JsErr (name message stack : JsValue).           (* instance of Error *)

(** [v instanceof Error] *)
Definition instanceof_Error (v : JsValue) : bool :=
  match v with JsErr _ _ _ => true | _ => false end.

(** Result of a call that may throw. *)
Inductive Exc (A : Type) :=
| Ok (a : A)
| Throw (what : string).
Arguments Ok {A} a.
Arguments Throw {A} what.

(** [typeof v === 'number' && isFinite(v)], with the number. *)
Definition finite_number (v : JsValue) : option Q :=
  match v with
  | JsNumber (Fin q) => Some q
  | _ => None
  end.

End Js.
Import Js.

(* ===================================================================== *)
(** ** Error sanitizer                                                     *)
(* ===================================================================== *)

Module Sanitizer.


(** *** The scrubbing variant (utility copy under test) *)

Definition in_range (lo hi c : N) : bool := (lo <=? c)%N && (c <=? hi)%N.

(** [\w] without the unicode flag: [A-Za-z0-9_]. *)
Definition re_word (c : N) : bool :=
  in_range 65 90 c || in_range 97 122 c || in_range 48 57 c || (c =? 95)%N.

(** [\s]: ECMAScript WhiteSpace and LineTerminator code units. *)
Definition re_space (c : N) : bool :=
  in_range 9 13 c || (c =? 32)%N || (c =? 160)%N || (c =? 5760)%N
  || in_range 8192 8202 c || (c =? 8232)%N || (c =? 8233)%N
  || (c =? 8239)%N || (c =? 8287)%N || (c =? 12288)%N || (c =? 65279)%N.

(** The characters listed literally in the class: [.,!?@#$%^&*()\-+=]. *)
Definition re_listed (c : N) : bool :=
  bool_decide (c ∈ u16 ".,!?@#$%^&*()-+=").

(** Complement of the negated class [[^\w\s.,!?@#$%^&*()\-+=]]. *)
Definition kept (c : N) : bool := re_word c || re_space c || re_listed c.

Definition mask : N := 42.   (* '*' *)

(** [message.replace(/[^\w\s.,!?@#$%^&*()\-+=]/g, '*')] *)
Definition scrub (message : jsstring) : jsstring :=
  (fun c => if kept c then c else mask) <$> message.

(** The utility copy of [sanitizeError]; [error.message.replace] throws
    when the message is not a string. *)
Definition sanitizeError_scrub (error : JsValue) : Exc JsValue :=
  if instanceof_Error error then
    match error with
    | JsErr name (JsString m) _ =>
        Ok (JsObj [ ("name"%string, name);
                    ("message"%string, JsString (scrub m)) ])
    | JsErr _ _ _ => Throw "TypeError"
    | _ => Ok (JsString (u16 "Unknown error"))
    end
  else Ok (JsString (u16 "Unknown error")).

(** The allow-set as the specification spells it:
    [[A-Za-z0-9 .,!?@#$%^&*()\-+=_]], with the space as only blank. *)
Definition spec_safe (c : N) : bool :=
  in_range 65 90 c || in_range 97 122 c || in_range 48 57 c
  || bool_decide (c ∈ u16 " .,!?@#$%^&*()-+=_").

(** [t] occurs in [s] as a contiguous substring. *)
Definition infix_of (t s : jsstring) : Prop :=
  exists pre post, s = pre ++ t ++ post.

End Sanitizer.

(* ===================================================================== *)
(** ** Observable effects of the host process                              *)
(* ===================================================================== *)

Module Trace.

Inductive Level := LogLevel | WarnLevel | ErrorLevel.

(** The scripts the host asks the page to evaluate. *)
Inductive Script :=
| Install          (* the scroll-refresh injection of did-finish-load *)
| Teardown         (* if(window.scrollRefreshCleanup) window.scrollRefreshCleanup() *)
| MemoryProbe
| Notify.

Inductive Effect :=
| Console (level : Level) (text : string) (args : list JsValue)
| OpenExternal (url : JsValue)
| ExecuteJavaScript (s : Script)
| Send (channel : string) (payload : JsValue)
| PreventDefault
| HideWindow
| ClearCache
| AppOff (event : string)
| TrayDestroy
| Exit (code : Z).

Inductive Action := Deny | Allow.

Definition is_PreventDefault (e : Effect) : bool :=
  match e with PreventDefault => true | _ => false end.
Definition is_OpenExternal (e : Effect) : bool :=
  match e with OpenExternal _ => true | _ => false end.
Definition is_Install (e : Effect) : bool :=
  match e with ExecuteJavaScript Install => true | _ => false end.
Definition is_Teardown (e : Effect) : bool :=
  match e with ExecuteJavaScript Teardown => true | _ => false end.
Definition is_Exit (e : Effect) : bool :=
  match e with Exit _ => true | _ => false end.


Definition count (f : Effect -> bool) (t : list Effect) : nat :=
  length (filter (fun e => f e = true) t).
#[global] Arguments count : simpl never.

End Trace.
Import Trace.

(* ===================================================================== *)
(** ** URL policy                                                          *)
(* ===================================================================== *)

Module UrlPolicy.

(** What the code reads of a parsed URL object. *)
Record URL := { protocol : jsstring; origin : jsstring }.

(** *** A fragment of the platform's URL parser

    [new URL(x)] belongs to the platform, not to this repository.  The
    policy functions below take it as a parameter.  To evaluate them on
    concrete inputs we describe the WHATWG algorithm (no base URL) on a
    fragment: scheme parsing in full; special schemes other than [file:]
    with a plain ASCII domain and an optional port; [file:] with an empty
    host; opaque paths of non-special schemes; the origin of [blob:].
    Anything else is [Unmodelled]: the fragment says nothing about it. *)
Inductive ParseResult :=
| Parsed (u : URL)
| Failure
| Unmodelled.

Definition is_alpha (c : N) : bool :=
  Sanitizer.in_range 65 90 c || Sanitizer.in_range 97 122 c.
Definition is_digit (c : N) : bool := Sanitizer.in_range 48 57 c.
Definition lower (c : N) : N :=
  if Sanitizer.in_range 65 90 c then (c + 32)%N else c.

Definition is_c0_or_space (c : N) : bool := (c <=? 32)%N.
Definition is_tab_or_newline (c : N) : bool :=
  (c =? 9)%N || (c =? 10)%N || (c =? 13)%N.

Fixpoint drop_while (f : N -> bool) (s : jsstring) : jsstring :=
  match s with
  | c :: s' => if f c then drop_while f s' else s
  | [] => []
  end.

Fixpoint take_while (f : N -> bool) (s : jsstring) : jsstring :=
  match s with
  | c :: s' => if f c then c :: take_while f s' else []
  | [] => []
  end.

(** Leading and trailing C0 controls and spaces go, then every tab and
    newline. *)
Definition preprocess (s : jsstring) : jsstring :=
  filter (fun c => is_tab_or_newline c = false)
    (rev (drop_while is_c0_or_space (rev (drop_while is_c0_or_space s)))).

(** Scheme state: alphanumerics, [+], [-], [.] up to the first [:]. *)
Fixpoint scheme_state (acc s : jsstring) : option (jsstring * jsstring) :=
  match s with
  | [] => None
  | c :: s' =>
      if (c =? 58)%N then Some (rev acc, s')
      else if is_alpha c || is_digit c
              || (c =? 43)%N || (c =? 45)%N || (c =? 46)%N
           then scheme_state (lower c :: acc) s'
           else None
  end.

(** Scheme start state: the first code point must be an ASCII letter. *)
Definition scheme_start (s : jsstring) : option (jsstring * jsstring) :=
  match s with
  | c :: s' => if is_alpha c then scheme_state [lower c] s' else None
  | [] => None
  end.

(** Special schemes with their default ports ([file] has none). *)
Definition special_schemes : list (jsstring * option N) :=
  [ (u16 "ftp", Some 21%N); (u16 "file", None); (u16 "http", Some 80%N);
    (u16 "https", Some 443%N); (u16 "ws", Some 80%N);
    (u16 "wss", Some 443%N) ].

Definition special_port (scheme : jsstring) : option (option N) :=
  snd <$> find (fun e => bool_decide (fst e = scheme)) special_schemes.

Definition is_slash (c : N) : bool := (c =? 47)%N || (c =? 92)%N.
Definition ends_authority (c : N) : bool :=
  is_slash c || (c =? 63)%N || (c =? 35)%N.

(** Forbidden domain code points that can still be present in the host
    of the fragment. *)
Definition forbidden_domain (c : N) : bool :=
  (c <=? 32)%N || (c =? 127)%N
  || bool_decide (c ∈ u16 "<>[]^|@:#/?\").

Definition plain_domain_char (c : N) : bool :=
  Sanitizer.in_range 97 122 c || is_digit c || (c =? 45)%N || (c =? 46)%N.

(** Labels of a dotted name, last label first. *)
Fixpoint labels_rev (cur : jsstring) (acc : list jsstring) (s : jsstring)
  : list jsstring :=
  match s with
  | [] => rev cur :: acc
  | c :: s' => if (c =? 46)%N then labels_rev [] (rev cur :: acc) s'
               else labels_rev (c :: cur) acc s'
  end.

Definition starts_with (p s : jsstring) : bool :=
  bool_decide (take (length p) s = p).

(** A lower-case ASCII domain that the host parser returns unchanged:
    non-empty labels, no punycode label, last label not a number. *)
Definition plain_domain (h : jsstring) : bool :=
  forallb plain_domain_char h
  && forallb (fun l => negb (bool_decide (l = []))
                       && negb (starts_with (u16 "xn--") l))
       (labels_rev [] [] h)
  && match labels_rev [] [] h with
     | (c :: _) :: _ => negb (is_digit c)
     | _ => false
     end.

Definition digits_value (s : jsstring) : N :=
  fold_left (fun a c => (10 * a + (c - 48))%N) s 0%N.

Definition decimal (n : N) : jsstring :=
  u16 (DecimalString.NilZero.string_of_uint (N.to_uint n)).

(** Authority of a special scheme other than [file]. *)
Definition special_authority (scheme : jsstring) (default : option N)
    (rest : jsstring) : ParseResult :=
  let auth := take_while (fun c => negb (ends_authority c))
                (drop_while is_slash rest) in
  if bool_decide (64%N ∈ auth) || bool_decide (37%N ∈ auth)
     || negb (forallb (fun c => (c <? 128)%N) auth)
     || starts_with [91%N] auth
  then Unmodelled
  else
    let host := map lower (take_while (fun c => negb (c =? 58)%N) auth) in
    let port := drop 1 (drop_while (fun c => negb (c =? 58)%N) auth) in
    if bool_decide (host = []) then Failure
    else if existsb forbidden_domain host then Failure
    else if negb (forallb is_digit port) then Failure
    else if (65535 <? digits_value port)%N then Failure
    else if negb (plain_domain host) then Unmodelled
    else
      let shown :=
        if bool_decide (port = []) || bool_decide (Some (digits_value port) = default)
        then [] else 58%N :: decimal (digits_value port) in
      Parsed {| protocol := scheme ++ [58%N];
                origin := scheme ++ u16 "://" ++ host ++ shown |}.

(** Everything after the scheme, for a URL that is not a [blob:]. *)
Definition after_scheme (scheme rest : jsstring) : ParseResult :=
  match special_port scheme with
  | Some None =>                                     (* file: *)
      if bool_decide (rest = []) || starts_with (u16 "///") rest
         || (starts_with (u16 "/") rest && negb (starts_with (u16 "//") rest))
      then Parsed {| protocol := scheme ++ [58%N]; origin := u16 "null" |}
      else Unmodelled
  | Some default => special_authority scheme default rest
  | None =>
      if starts_with (u16 "//") rest then Unmodelled
      else Parsed {| protocol := scheme ++ [58%N]; origin := u16 "null" |}
  end.

Definition parse_plain (input : jsstring) : ParseResult :=
  match scheme_start (preprocess input) with
  | None => Failure
  | Some (scheme, rest) => after_scheme scheme rest
  end.

(** The basic parser on the fragment.  The origin of a [blob:] URL is
    the origin of the URL in its path when that one is http(s), and
    opaque otherwise. *)
Definition whatwg (input : jsstring) : ParseResult :=
  match scheme_start (preprocess input) with
  | None => Failure
  | Some (scheme, rest) =>
      if bool_decide (scheme = u16 "blob") then
        if starts_with (u16 "//") rest then Unmodelled
        else
          let path := take_while (fun c => negb ((c =? 63)%N || (c =? 35)%N)) rest in
          match parse_plain path with
          | Parsed inner =>
              Parsed {| protocol := u16 "blob:";
                        origin := if bool_decide (protocol inner = u16 "http:")
                                     || bool_decide (protocol inner = u16 "https:")
                                  then origin inner else u16 "null" |}
          | Failure => Parsed {| protocol := u16 "blob:"; origin := u16 "null" |}
          | Unmodelled => Unmodelled
          end
      else after_scheme scheme rest
  end.

(** [String(v)] for the values that can reach [new URL]; a number is
    printed without any colon, so only that fact is recorded. *)
Inductive Coerced :=
| Text (s : jsstring)
| ColonFree
| NotModelled.

Definition ToString (v : JsValue) : Coerced :=
  match v with
  | JsUndefined => Text (u16 "undefined")
  | JsNull => Text (u16 "null")
  | JsBool true => Text (u16 "true")
  | JsBool false => Text (u16 "false")
  | JsNumber _ => ColonFree
  | JsString s => Text s
  | JsObj _ => Text (u16 "[object Object]")
  | JsErr (JsString n) (JsString m) _ =>
      Text (if bool_decide (n = []) then m
            else if bool_decide (m = []) then n
            else n ++ u16 ": " ++ m)
  | JsErr _ _ _ => NotModelled
  end.

Definition URL_whatwg (v : JsValue) : ParseResult :=
  match ToString v with
  | Text s => whatwg s
  | ColonFree => Failure
  | NotModelled => Unmodelled
  end.

(** A constructor [URL_new] ([None]: it throws) agrees with the fragment. *)
Definition agrees (URL_new : JsValue -> option URL) : Prop :=
  forall v,
    match URL_whatwg v with
    | Parsed u => URL_new v = Some u
    | Failure => URL_new v = None
    | Unmodelled => True
    end.

(** The fragment as a constructor; it throws where it says nothing. *)
Definition URL_fragment (v : JsValue) : option URL :=
  match URL_whatwg v with Parsed u => Some u | _ => None end.

(** *** main.js *)

Definition ALLOWED_PROTOCOLS : gset jsstring :=
  {[ u16 "https:"; u16 "mailto:"; u16 "tel:" ]}.

(** The allow-set of the copies in the test files. *)
Definition ALLOWED_PROTOCOLS_tests : gset jsstring :=
  {[ u16 "https:"; u16 "http:"; u16 "mailto:"; u16 "tel:" ]}.

Definition home_origin : jsstring := u16 "https://bsky.app".

(** An ASCII literal as a string value. *)
Definition sample (s : string) : JsValue := JsString (u16 s).

Section Policy.

(** [new URL(x)]: [None] when the constructor throws its TypeError. *)
Variable URL_new : JsValue -> option URL.

(** try { new URL(..); return ALLOWED_PROTOCOLS.has(..) } catch { return false } *)
Definition isSafeUrl (urlString : JsValue) : bool :=
  match URL_new urlString with
  | Some url => bool_decide (protocol url ∈ ALLOWED_PROTOCOLS)
  | None => false
  end.

(** [windowOpenHandler({ url })]: the answer and what it did. *)
Definition windowOpenHandler (url : JsValue) : Action * list Effect :=
  let done :=
    if isSafeUrl url then [OpenExternal url]
    else [Console WarnLevel "Blocked potentially unsafe URL: " [url]] in
  (Deny, done).

(** The 'will-navigate' listener.  The constructor is called outside any
    try block: when it throws, the listener ends there. *)
Definition will_navigate (navigationUrl : JsValue) : Exc (list Effect) :=
  match URL_new navigationUrl with
  | None => Throw "TypeError"
  | Some parsedUrl =>
      if bool_decide (origin parsedUrl ≠ home_origin)
      then Ok [PreventDefault] else Ok []
  end.

(** The navigation goes ahead unless the listener prevented it. *)
Definition navigation_proceeds (navigationUrl : JsValue) : bool :=
  match will_navigate navigationUrl with
  | Ok done => negb (existsb is_PreventDefault done)
  | Throw _ => true
  end.

End Policy.



End UrlPolicy.

Import UrlPolicy.

(* ===================================================================== *)
(** ** Page Enhancement Controller (the script injected into the page)     *)
(* ===================================================================== *)

Module Page.

(** *** The page context: timers, listeners, DOM *)

Inductive Target :=
| TWindow
| TDocument
| TNode (n : positive).

Record Listener := { l_target : Target; l_type : string; l_fn : positive }.

#[global] Instance Target_eq_dec : EqDecision Target.
Proof. solve_decision. Defined.
#[global] Instance Listener_eq_dec : EqDecision Listener.
Proof. solve_decision. Defined.

(** What a pending timeout does when it fires. *)
Inductive TimeoutCb :=
| CbReload                 (* window.location.reload() *)
| CbFloatAnimation
| CbMouseHide
| CbScrollShow.

#[global] Instance TimeoutCb_eq_dec : EqDecision TimeoutCb.
Proof. solve_decision. Defined.

Record DomNode := { n_ref : positive; n_id : string; n_shown : bool }.

(** Calls that release a resource, in the order they are made. *)
Inductive Release :=
| RelInterval (h : positive)
| RelTimeout (h : positive)
| RelListener (l : Listener)
| RelNode (n : positive).

Record World := {
  fresh : positive;                        (* next unused identity *)
  live_intervals : gset positive;
  live_timeouts : gmap positive (TimeoutCb * N);   (* callback, delay in ms *)
  listeners : list Listener;
  nodes : list DomNode;                    (* attached to the document *)
  released : list Release;
  unheld_reloads : nat     (* reloads armed by a click: no one holds the handle *)
}.

(** The identity counter moves on. *)
Definition bump (w : World) : World :=
  {| fresh := Pos.succ (fresh w); live_intervals := live_intervals w;
     live_timeouts := live_timeouts w; listeners := listeners w;
     nodes := nodes w; released := released w;
     unheld_reloads := unheld_reloads w |}.

Definition arm_timeout (h : positive) (cb : TimeoutCb) (delay : N) (w : World)
  : World :=
  {| fresh := fresh w; live_intervals := live_intervals w;
     live_timeouts := <[h := (cb, delay)]> (live_timeouts w);
     listeners := listeners w; nodes := nodes w; released := released w;
     unheld_reloads := unheld_reloads w |}.

Definition arm_interval (h : positive) (w : World) : World :=
  {| fresh := fresh w; live_intervals := {[h]} ∪ live_intervals w;
     live_timeouts := live_timeouts w; listeners := listeners w;
     nodes := nodes w; released := released w;
     unheld_reloads := unheld_reloads w |}.

(** [setTimeout(() => window.location.reload(), 500)] with the handle
    dropped: the timer takes an identity and nothing can clear it. *)
Definition arm_unheld_reload (w : World) : World :=
  {| fresh := Pos.succ (fresh w); live_intervals := live_intervals w;
     live_timeouts := live_timeouts w; listeners := listeners w;
     nodes := nodes w; released := released w;
     unheld_reloads := S (unheld_reloads w) |}.

(** A new closure or element: its identity and the world after. *)
Definition new_identity (w : World) : positive * World := (fresh w, bump w).

Definition setTimeout (cb : TimeoutCb) (delay : N) (w : World) : positive * World :=
  (fresh w, arm_timeout (fresh w) cb delay (bump w)).

Definition clearTimeout (h : positive) (w : World) : World :=
  {| fresh := fresh w; live_intervals := live_intervals w;
     live_timeouts := delete h (live_timeouts w);
     listeners := listeners w; nodes := nodes w;
     released := released w ++ [RelTimeout h];
     unheld_reloads := unheld_reloads w |}.

Definition setInterval (w : World) : positive * World :=
  (fresh w, arm_interval (fresh w) (bump w)).

Definition clearInterval (h : positive) (w : World) : World :=
  {| fresh := fresh w; live_intervals := live_intervals w ∖ {[h]};
     live_timeouts := live_timeouts w; listeners := listeners w;
     nodes := nodes w; released := released w ++ [RelInterval h];
     unheld_reloads := unheld_reloads w |}.

(** A listener already registered for the same target, type and function
    is not registered again. *)
Definition addEventListener (t : Target) (ty : string) (f : positive)
    (w : World) : World :=
  let l := {| l_target := t; l_type := ty; l_fn := f |} in
  {| fresh := fresh w; live_intervals := live_intervals w;
     live_timeouts := live_timeouts w;
     listeners := if bool_decide (l ∈ listeners w) then listeners w
                  else listeners w ++ [l];
     nodes := nodes w; released := released w;
     unheld_reloads := unheld_reloads w |}.

Definition removeEventListener (t : Target) (ty : string) (f : positive)
    (w : World) : World :=
  let l := {| l_target := t; l_type := ty; l_fn := f |} in
  {| fresh := fresh w; live_intervals := live_intervals w;
     live_timeouts := live_timeouts w;
     listeners := filter (fun x => x <> l) (listeners w);
     nodes := nodes w; released := released w ++ [RelListener l];
     unheld_reloads := unheld_reloads w |}.

Definition appendChild (n : positive) (id : string) (w : World) : World :=
  {| fresh := fresh w; live_intervals := live_intervals w;
     live_timeouts := live_timeouts w; listeners := listeners w;
     nodes := nodes w ++ [{| n_ref := n; n_id := id; n_shown := false |}];
     released := released w;
     unheld_reloads := unheld_reloads w |}.

(** [node.remove()] *)
Definition remove_node (n : positive) (w : World) : World :=
  {| fresh := fresh w; live_intervals := live_intervals w;
     live_timeouts := live_timeouts w; listeners := listeners w;
     nodes := filter (fun x => n_ref x <> n) (nodes w);
     released := released w ++ [RelNode n];
     unheld_reloads := unheld_reloads w |}.

Definition getElementById (id : string) (w : World) : option positive :=
  n_ref <$> find (fun x => bool_decide (n_id x = id)) (nodes w).

(** Slide the indicator in (opacity 1) or out (opacity 0). *)
Definition set_shown (n : positive) (b : bool) (w : World) : World :=
  {| fresh := fresh w; live_intervals := live_intervals w;
     live_timeouts := live_timeouts w; listeners := listeners w;
     nodes := map (fun x => if bool_decide (n_ref x = n)
                          then {| n_ref := n_ref x; n_id := n_id x; n_shown := b |}
                          else x) (nodes w);
     released := released w;
     unheld_reloads := unheld_reloads w |}.

Definition shown (n : positive) (w : World) : bool :=
  existsb (fun x => bool_decide (n_ref x = n) && n_shown x) (nodes w).

#[global] Arguments bump : simpl never.
#[global] Arguments arm_unheld_reload : simpl never.
#[global] Arguments arm_timeout : simpl never.
#[global] Arguments arm_interval : simpl never.
#[global] Arguments clearTimeout : simpl never.
#[global] Arguments clearInterval : simpl never.
#[global] Arguments addEventListener : simpl never.
#[global] Arguments removeEventListener : simpl never.
#[global] Arguments appendChild : simpl never.
#[global] Arguments remove_node : simpl never.
#[global] Arguments getElementById : simpl never.
#[global] Arguments set_shown : simpl never.
#[global] Arguments shown : simpl never.

(** *** ScrollRefreshManager *)

Record MData := {
  isAtTop : bool;
  wheelDeltaAccumulator : Q;
  threshold : Q;
  d_indicator : option positive;
  d_indicatorTimeout : option positive
}.

Record MHandlers := {
  handleScroll : option positive;
  handleWheel : option positive;
  handleMouseMove : option positive;
  handleScrollShow : option positive;
  pinMouseEnter : option positive;
  pinMouseLeave : option positive;
  pinClick : option positive
}.

(** [button._handlers] of the floating refresh button. *)
Record BtnHandlers := {
  mouseEnter : positive;
  mouseLeave : positive;
  click : positive;
  mouseDown : positive;
  mouseUp : positive
}.

Record FloatBtn := { fb_node : positive; fb_handlers : option BtnHandlers }.

Record MElements := {
  indicator : option positive;
  floatingBtn : option FloatBtn;
  spinnerStyle : option positive;
  btnStyle : option positive;
  pinButton : option positive
}.

(** [timeouts]: a fixed set of keys, in the order [Object.keys] lists
    them. *)
Record MTimeouts := {
  floatAnimation : option positive;
  indicatorTimeout : option positive;
  idleCheck : option positive;
  mouseHide : option positive;
  scrollShow : option positive
}.

Record MIntervals := { idle : option positive }.

Record Manager := {
  data : MData;
  handlers : MHandlers;
  elements : MElements;
  timeouts : MTimeouts;
  intervals : MIntervals
}.

(** The manager object of an injection: populated, or with every
    property set to null by the cleanup. *)
Inductive Registry :=
| Populated (m : Manager)
| Nulled.

Definition set_floatAnimation (v : option positive) (t : MTimeouts) : MTimeouts :=
  {| floatAnimation := v; indicatorTimeout := indicatorTimeout t;
     idleCheck := idleCheck t; mouseHide := mouseHide t;
     scrollShow := scrollShow t |}.
Definition set_indicatorTimeout (v : option positive) (t : MTimeouts) : MTimeouts :=
  {| floatAnimation := floatAnimation t; indicatorTimeout := v;
     idleCheck := idleCheck t; mouseHide := mouseHide t;
     scrollShow := scrollShow t |}.
Definition set_mouseHide (v : option positive) (t : MTimeouts) : MTimeouts :=
  {| floatAnimation := floatAnimation t; indicatorTimeout := indicatorTimeout t;
     idleCheck := idleCheck t; mouseHide := v; scrollShow := scrollShow t |}.
Definition set_scrollShow (v : option positive) (t : MTimeouts) : MTimeouts :=
  {| floatAnimation := floatAnimation t; indicatorTimeout := indicatorTimeout t;
     idleCheck := idleCheck t; mouseHide := mouseHide t; scrollShow := v |}.

Definition new_manager : Manager :=
  {| data := {| isAtTop := true; wheelDeltaAccumulator := 0%Q;
                threshold := (-150)%Q; d_indicator := None;
                d_indicatorTimeout := None |};
     handlers := {| handleScroll := None; handleWheel := None;
                    handleMouseMove := None; handleScrollShow := None;
                    pinMouseEnter := None; pinMouseLeave := None;
                    pinClick := None |};
     elements := {| indicator := None; floatingBtn := None;
                    spinnerStyle := None; btnStyle := None;
                    pinButton := None |};
     timeouts := {| floatAnimation := None; indicatorTimeout := None;
                    idleCheck := None; mouseHide := None;
                    scrollShow := None |};
     intervals := {| idle := None |} |}.

Definition with_data (d : MData) (m : Manager) : Manager :=
  {| data := d; handlers := handlers m; elements := elements m;
     timeouts := timeouts m; intervals := intervals m |}.
Definition with_handlers (h : MHandlers) (m : Manager) : Manager :=
  {| data := data m; handlers := h; elements := elements m;
     timeouts := timeouts m; intervals := intervals m |}.
Definition with_elements (e : MElements) (m : Manager) : Manager :=
  {| data := data m; handlers := handlers m; elements := e;
     timeouts := timeouts m; intervals := intervals m |}.
Definition with_timeouts (t : MTimeouts) (m : Manager) : Manager :=
  {| data := data m; handlers := handlers m; elements := elements m;
     timeouts := t; intervals := intervals m |}.
Definition with_intervals (i : MIntervals) (m : Manager) : Manager :=
  {| data := data m; handlers := handlers m; elements := elements m;
     timeouts := timeouts m; intervals := i |}.

Definition set_acc (a : Q) (d : MData) : MData :=
  {| isAtTop := isAtTop d; wheelDeltaAccumulator := a;
     threshold := threshold d; d_indicator := d_indicator d;
     d_indicatorTimeout := d_indicatorTimeout d |}.
Definition set_isAtTop (b : bool) (d : MData) : MData :=
  {| isAtTop := b; wheelDeltaAccumulator := wheelDeltaAccumulator d;
     threshold := threshold d; d_indicator := d_indicator d;
     d_indicatorTimeout := d_indicatorTimeout d |}.
Definition set_d_indicator (n : option positive) (d : MData) : MData :=
  {| isAtTop := isAtTop d; wheelDeltaAccumulator := wheelDeltaAccumulator d;
     threshold := threshold d; d_indicator := n;
     d_indicatorTimeout := d_indicatorTimeout d |}.

Definition set_indicator (n : option positive) (e : MElements) : MElements :=
  {| indicator := n; floatingBtn := floatingBtn e;
     spinnerStyle := spinnerStyle e; btnStyle := btnStyle e;
     pinButton := pinButton e |}.
Definition set_floatingBtn (b : option FloatBtn) (e : MElements) : MElements :=
  {| indicator := indicator e; floatingBtn := b;
     spinnerStyle := spinnerStyle e; btnStyle := btnStyle e;
     pinButton := pinButton e |}.
Definition set_spinnerStyle (n : option positive) (e : MElements) : MElements :=
  {| indicator := indicator e; floatingBtn := floatingBtn e;
     spinnerStyle := n; btnStyle := btnStyle e; pinButton := pinButton e |}.
Definition set_btnStyle (n : option positive) (e : MElements) : MElements :=
  {| indicator := indicator e; floatingBtn := floatingBtn e;
     spinnerStyle := spinnerStyle e; btnStyle := n; pinButton := pinButton e |}.
Definition set_pinButton (n : option positive) (e : MElements) : MElements :=
  {| indicator := indicator e; floatingBtn := floatingBtn e;
     spinnerStyle := spinnerStyle e; btnStyle := btnStyle e; pinButton := n |}.

(** The page context as the injected script sees it. *)
Record Page := {
  world : World;
  registry : option Registry;    (* the ScrollRefreshManager of the last injection *)
  cleanup_defined : bool         (* window.scrollRefreshCleanup is set *)
}.

Definition fresh_world : World :=
  {| fresh := 1%positive; live_intervals := ∅; live_timeouts := ∅;
     listeners := []; nodes := []; released := []; unheld_reloads := 0 |}.

(** A freshly loaded document, before any injection. *)
Definition fresh_page : Page :=
  {| world := fresh_world; registry := None; cleanup_defined := false |}.

(** *** The injected functions *)

Definition createRefreshIndicator (m : Manager) (w : World) : Manager * World :=
  match indicator (elements m) with
  | Some _ => (m, w)
  | None =>
      let '(ind, w) := new_identity w in
      let w := appendChild ind "scroll-refresh-indicator" w in
      let m := with_elements (set_indicator (Some ind) (elements m)) m in
      let m := with_data (set_d_indicator (Some ind) (data m)) m in
      match getElementById "refresh-spinner-style" w with
      | Some _ => (m, w)
      | None =>
          let '(style, w) := new_identity w in
          let w := appendChild style "refresh-spinner-style" w in
          (with_elements (set_spinnerStyle (Some style) (elements m)) m, w)
      end
  end.

Definition showRefreshIndicator (m : Manager) (w : World) : Manager * World :=
  let '(m, w) := createRefreshIndicator m w in
  match indicator (elements m) with
  | Some ind => (m, set_shown ind true w)
  | None => (m, w)
  end.

Definition hideRefreshIndicator (m : Manager) (w : World) : World :=
  match indicator (elements m) with
  | Some ind => set_shown ind false w
  | None => w
  end.

Definition Qltb (a b : Q) : bool := negb (Qle_bool b a).

(** [handlers.handleScroll], given [window.scrollY]. *)
Definition do_handleScroll (scrollY : Q) (m : Manager) (w : World)
  : Manager * World :=
  let m := with_data (set_isAtTop (Qle_bool scrollY 10) (data m)) m in
  if negb (isAtTop (data m)) then
    (with_data (set_acc 0%Q (data m)) m, hideRefreshIndicator m w)
  else (m, w).

Record WheelEvent := { deltaY : JsValue }.
Record MouseEvent := { clientX : JsValue }.

(** [handlers.handleWheel]; [None] is a null or undefined event. *)
Definition do_handleWheel (event : option WheelEvent) (m : Manager) (w : World)
  : Manager * World :=
  match event with
  | None => (m, w)
  | Some ev =>
      match finite_number (deltaY ev) with
      | Some dy =>
          if Qltb 1000 (Qabs dy) then (m, w)
          else if negb (isAtTop (data m)) then (m, w)
          else if Qltb dy 0 then
            let acc := (wheelDeltaAccumulator (data m) + Qabs dy)%Q in
            let m := with_data (set_acc acc (data m)) m in
            if Qle_bool (Qabs (threshold (data m))) acc then
              let '(m, w) := showRefreshIndicator m w in
              let w := match indicatorTimeout (timeouts m) with
                       | Some h => clearTimeout h w
                       | None => w
                       end in
              let '(h, w) := setTimeout CbReload 500 w in
              (with_timeouts (set_indicatorTimeout (Some h) (timeouts m)) m, w)
            else (m, w)
          else
            let m := with_data (set_acc 0%Q (data m)) m in
            let w := hideRefreshIndicator m w in
            match indicatorTimeout (timeouts m) with
            | Some h =>
                (with_timeouts (set_indicatorTimeout None (timeouts m)) m,
                 clearTimeout h w)
            | None => (m, w)
            end
      | None => (m, w)
      end
  end.

(** [handlers.handleMouseMove]; the button styling is not tracked. *)
Definition do_handleMouseMove (e : option MouseEvent) (m : Manager) (w : World)
  : Manager * World :=
  match e with
  | None => (m, w)
  | Some ev =>
      match finite_number (clientX ev) with
      | Some x =>
          if Qltb x 0 || Qltb 10000 x then (m, w)
          else
            let w := match mouseHide (timeouts m) with
                     | Some h => clearTimeout h w
                     | None => w
                     end in
            if Qltb x 100 then (m, w)
            else if Qltb 150 x then
              let '(h, w) := setTimeout CbMouseHide 1000 w in
              (with_timeouts (set_mouseHide (Some h) (timeouts m)) m, w)
            else (m, w)
      | None => (m, w)
      end
  end.

(** [handlers.handleScrollShow] *)
Definition do_handleScrollShow (m : Manager) (w : World) : Manager * World :=
  let w := match scrollShow (timeouts m) with
           | Some h => clearTimeout h w
           | None => w
           end in
  let '(h, w) := setTimeout CbScrollShow 2000 w in
  (with_timeouts (set_scrollShow (Some h) (timeouts m)) m, w).

(** The callback of the idle interval (the factor 0.9 taken exactly). *)
Definition do_idle (m : Manager) (w : World) : Manager * World :=
  if Qltb 0 (wheelDeltaAccumulator (data m))
     && negb (bool_decide (is_Some (indicatorTimeout (timeouts m))))
  then
    let acc := (wheelDeltaAccumulator (data m) * (9 # 10))%Q in
    if Qltb acc 10 then
      (with_data (set_acc 0%Q (data m)) m, hideRefreshIndicator m w)
    else (with_data (set_acc acc (data m)) m, w)
  else (m, w).

(** [clickHandler] of the floating refresh button; the styling is not
    tracked. *)
Definition do_refreshClick (m : Manager) (w : World) : Manager * World :=
  (m, arm_unheld_reload w).

Definition createFloatingPinButton (m : Manager) (w : World) : Manager * World :=
  match getElementById "floating-pin-btn" w with
  | Some _ => (m, w)
  | None =>
      let '(button, w) := new_identity w in
      let '(mouseEnterHandler, w) := new_identity w in
      let '(mouseLeaveHandler, w) := new_identity w in
      let '(clickHandler, w) := new_identity w in
      let w := addEventListener (TNode button) "mouseenter" mouseEnterHandler w in
      let w := addEventListener (TNode button) "mouseleave" mouseLeaveHandler w in
      let w := addEventListener (TNode button) "click" clickHandler w in
      let h := handlers m in
      let m := with_handlers
                 {| handleScroll := handleScroll h; handleWheel := handleWheel h;
                    handleMouseMove := handleMouseMove h;
                    handleScrollShow := handleScrollShow h;
                    pinMouseEnter := Some mouseEnterHandler;
                    pinMouseLeave := Some mouseLeaveHandler;
                    pinClick := Some clickHandler |} m in
      let w := appendChild button "floating-pin-btn" w in
      (with_elements (set_pinButton (Some button) (elements m)) m, w)
  end.

Definition createFloatingRefreshButton (m : Manager) (w : World)
  : Manager * World :=
  match getElementById "floating-refresh-btn" w with
  | Some _ => (m, w)
  | None =>
      let '(button, w) := new_identity w in
      let '(mouseEnterHandler, w) := new_identity w in
      let '(mouseLeaveHandler, w) := new_identity w in
      let '(clickHandler, w) := new_identity w in
      let '(mouseDownHandler, w) := new_identity w in
      let '(mouseUpHandler, w) := new_identity w in
      let bh := {| mouseEnter := mouseEnterHandler; mouseLeave := mouseLeaveHandler;
                   click := clickHandler; mouseDown := mouseDownHandler;
                   mouseUp := mouseUpHandler |} in
      let w := addEventListener (TNode button) "mouseenter" mouseEnterHandler w in
      let w := addEventListener (TNode button) "mouseleave" mouseLeaveHandler w in
      let w := addEventListener (TNode button) "click" clickHandler w in
      let w := addEventListener (TNode button) "mousedown" mouseDownHandler w in
      let w := addEventListener (TNode button) "mouseup" mouseUpHandler w in
      let w := appendChild button "floating-refresh-btn" w in
      let m := with_elements
                 (set_floatingBtn
                    (Some {| fb_node := button; fb_handlers := Some bh |})
                    (elements m)) m in
      let '(m, w) :=
        match getElementById "floating-btn-style" w with
        | Some _ => (m, w)
        | None =>
            let '(style, w) := new_identity w in
            let w := appendChild style "floating-btn-style" w in
            (with_elements (set_btnStyle (Some style) (elements m)) m, w)
        end in
      let '(t, w) := setTimeout CbFloatAnimation 1000 w in
      let m := with_timeouts (set_floatAnimation (Some t) (timeouts m)) m in
      let '(mouseMove, w) := new_identity w in
      let '(scrollShown, w) := new_identity w in
      let h := handlers m in
      let m := with_handlers
                 {| handleScroll := handleScroll h; handleWheel := handleWheel h;
                    handleMouseMove := Some mouseMove;
                    handleScrollShow := Some scrollShown;
                    pinMouseEnter := pinMouseEnter h;
                    pinMouseLeave := pinMouseLeave h;
                    pinClick := pinClick h |} m in
      let w := addEventListener TDocument "mousemove" mouseMove w in
      let w := addEventListener TWindow "scroll" scrollShown w in
      (m, w)
  end.

Definition clear_if (h : option positive) (w : World) : World :=
  match h with
  | Some h => clearTimeout h w
  | None => w
  end.

(** [Object.keys(manager.timeouts).forEach(...)], key by key. *)
Definition clear_timeouts (ts : MTimeouts) (w : World) : World :=
  let w := clear_if (floatAnimation ts) w in
  let w := clear_if (indicatorTimeout ts) w in
  let w := clear_if (idleCheck ts) w in
  let w := clear_if (mouseHide ts) w in
  clear_if (scrollShow ts) w.

Definition remove_if (t : Target) (ty : string) (f : option positive)
    (w : World) : World :=
  match f with
  | Some f => removeEventListener t ty f w
  | None => w
  end.

Definition remove_node_if (n : option positive) (w : World) : World :=
  match n with
  | Some n => remove_node n w
  | None => w
  end.

(** The body of [window.scrollRefreshCleanup], for the manager object its
    closure captured.  On a manager whose properties are null the first
    property read throws. *)
Definition scrollRefreshCleanup (r : Registry) (w : World)
  : Exc (Registry * World) :=
  match r with
  | Nulled => Throw "TypeError"
  | Populated manager =>
      (* Clear intervals *)
      let w := match idle (intervals manager) with
               | Some h => clearInterval h w
               | None => w
               end in
      (* Clear all timeouts *)
      let w := clear_timeouts (timeouts manager) w in
      (* Remove scroll event listeners with exact function references *)
      let hs := handlers manager in
      let w := remove_if TWindow "scroll" (handleScroll hs) w in
      let w := remove_if TWindow "wheel" (handleWheel hs) w in
      let w := remove_if TDocument "mousemove" (handleMouseMove hs) w in
      let w := remove_if TWindow "scroll" (handleScrollShow hs) w in
      (* Remove pin button and its event listeners *)
      let w := match pinButton (elements manager) with
               | Some b =>
                   let w := remove_if (TNode b) "mouseenter" (pinMouseEnter hs) w in
                   let w := remove_if (TNode b) "mouseleave" (pinMouseLeave hs) w in
                   let w := remove_if (TNode b) "click" (pinClick hs) w in
                   remove_node b w
               | None => w
               end in
      (* Remove floating button and its event listeners *)
      let w := match floatingBtn (elements manager) with
               | Some fb =>
                   let b := fb_node fb in
                   let w := match fb_handlers fb with
                            | Some bh =>
                                let w := removeEventListener (TNode b) "mouseenter" (mouseEnter bh) w in
                                let w := removeEventListener (TNode b) "mouseleave" (mouseLeave bh) w in
                                let w := removeEventListener (TNode b) "click" (click bh) w in
                                let w := removeEventListener (TNode b) "mousedown" (mouseDown bh) w in
                                removeEventListener (TNode b) "mouseup" (mouseUp bh) w
                            | None => w
                            end in
                   remove_node b w
               | None => w
               end in
      (* Remove other elements *)
      let w := remove_node_if (indicator (elements manager)) w in
      let w := remove_node_if (spinnerStyle (elements manager)) w in
      let w := remove_node_if (btnStyle (elements manager)) w in
      (* Clear global references; clear manager object *)
      Ok (Nulled, w)
  end.

(** The teardown entry point, as every caller writes it:
    [if (window.scrollRefreshCleanup) window.scrollRefreshCleanup()]. *)
Definition teardown (p : Page) : Exc Page :=
  if cleanup_defined p then
    match registry p with
    | Some r =>
        match scrollRefreshCleanup r (world p) with
        | Ok (r', w') =>
            Ok {| world := w'; registry := Some r'; cleanup_defined := false |}
        | Throw e => Throw e
        end
    | None => Throw "TypeError"
    end
  else Ok p.

(** The script injected on did-finish-load. *)
Definition install (p : Page) : Exc Page :=
  (* Clean up existing listeners and elements before creating new ones *)
  match teardown p with
  | Throw e => Throw e
  | Ok p =>
      let w := world p in
      let m := new_manager in
      let '(scroll, w) := new_identity w in
      let '(wheel, w) := new_identity w in
      let m := with_handlers
                 {| handleScroll := Some scroll; handleWheel := Some wheel;
                    handleMouseMove := None; handleScrollShow := None;
                    pinMouseEnter := None; pinMouseLeave := None;
                    pinClick := None |} m in
      let '(m, w) := createFloatingPinButton m w in
      let '(m, w) := createFloatingRefreshButton m w in
      let w := addEventListener TWindow "scroll" scroll w in
      let w := addEventListener TWindow "wheel" wheel w in
      let '(i, w) := setInterval w in
      let m := with_intervals {| idle := Some i |} m in
      Ok {| world := w; registry := Some (Populated m); cleanup_defined := true |}
  end.

(** *** Events of the page context *)

Inductive PageEvent :=
| Inject                                 (* the host evaluates the install script *)
| RunTeardown                            (* the host evaluates the teardown script *)
| Wheel (e : option WheelEvent)
| Scroll (scrollY : Q)
| MouseMove (e : option MouseEvent)
| TimeoutFires (h : positive)
| IdleTick
| ClickRefresh                           (* click on the floating refresh button *)
| UnheldReloadFires.

Definition registered (t : Target) (ty : string) (f : option positive)
    (w : World) : bool :=
  match f with
  | Some f => bool_decide ({| l_target := t; l_type := ty; l_fn := f |} ∈ listeners w)
  | None => false
  end.

(** Run a handler of the populated manager when [guard] finds it
    registered. *)
Definition dispatch (guard : Manager -> World -> bool)
    (f : Manager -> World -> Manager * World) (p : Page) : Page :=
  match registry p with
  | Some (Populated m) =>
      if guard m (world p) then
        let '(m', w') := f m (world p) in
        {| world := w'; registry := Some (Populated m');
           cleanup_defined := cleanup_defined p |}
      else p
  | _ => p
  end.

(** A fired timeout is no longer pending. *)
Definition expire (h : positive) (w : World) : World :=
  {| fresh := fresh w; live_intervals := live_intervals w;
     live_timeouts := delete h (live_timeouts w);
     listeners := listeners w; nodes := nodes w; released := released w;
     unheld_reloads := unheld_reloads w |}.

Definition page_step (p : Page) (e : PageEvent) : Exc Page :=
  match e with
  | Inject => install p
  | RunTeardown => teardown p
  | Wheel ev =>
      Ok (dispatch (fun m w => registered TWindow "wheel" (handleWheel (handlers m)) w)
            (do_handleWheel ev) p)
  | Scroll y =>
      (* listeners run in the order of their registration *)
      let p := dispatch (fun m w => registered TWindow "scroll" (handleScrollShow (handlers m)) w)
                 do_handleScrollShow p in
      Ok (dispatch (fun m w => registered TWindow "scroll" (handleScroll (handlers m)) w)
            (do_handleScroll y) p)
  | MouseMove ev =>
      Ok (dispatch (fun m w => registered TDocument "mousemove" (handleMouseMove (handlers m)) w)
            (do_handleMouseMove ev) p)
  | TimeoutFires h =>
      match live_timeouts (world p) !! h with
      | Some (CbReload, _) => Ok fresh_page          (* a new document is loaded *)
      | Some _ =>
          Ok {| world := expire h (world p); registry := registry p;
                cleanup_defined := cleanup_defined p |}
      | None => Ok p
      end
  | IdleTick =>
      Ok (dispatch (fun m w => match idle (intervals m) with
                               | Some h => bool_decide (h ∈ live_intervals w)
                               | None => false
                               end) do_idle p)
  | ClickRefresh =>
      Ok (dispatch (fun m w =>
                      match floatingBtn (elements m) with
                      | Some {| fb_node := b; fb_handlers := Some bh |} =>
                          registered (TNode b) "click" (Some (click bh)) w
                      | _ => false
                      end) do_refreshClick p)
  | UnheldReloadFires =>
      match unheld_reloads (world p) with
      | S _ => Ok fresh_page                         (* a new document is loaded *)
      | O => Ok p
      end
  end.

Fixpoint page_run (p : Page) (es : list PageEvent) : Exc Page :=
  match es with
  | [] => Ok p
  | e :: es =>
      match page_step p e with
      | Ok p' => page_run p' es
      | Throw x => Throw x
      end
  end.

(** Pages that event sequences reach from a fresh document. *)
Inductive reachable : Page -> Prop :=
| reach_fresh : reachable fresh_page
| reach_step p e p' : reachable p -> page_step p e = Ok p' -> reachable p'.

(** *** The registry as the specification reads it *)

Definition opt_list {A} (o : option A) : list A :=
  match o with Some a => [a] | None => [] end.

Definition listener_key (t : Target) (ty : string) (f : option positive)
  : list Release :=
  (fun f => RelListener {| l_target := t; l_type := ty; l_fn := f |}) <$> opt_list f.

(** Every key present in the registry with the release it is owed, by
    kind: intervals, timeouts, listeners (each with the reference that
    was stored at registration), DOM nodes.  A listener of a button is
    keyed with the button as its target, so it is a key when the button
    is one. *)
Definition interval_keys (m : Manager) : list Release :=
  RelInterval <$> opt_list (idle (intervals m)).

Definition timeout_keys (m : Manager) : list Release :=
  let ts := timeouts m in
  RelTimeout <$> (opt_list (floatAnimation ts) ++ opt_list (indicatorTimeout ts)
                  ++ opt_list (idleCheck ts) ++ opt_list (mouseHide ts)
                  ++ opt_list (scrollShow ts)).

Definition listener_keys (m : Manager) : list Release :=
  let hs := handlers m in
  listener_key TWindow "scroll" (handleScroll hs)
  ++ listener_key TWindow "wheel" (handleWheel hs)
  ++ listener_key TDocument "mousemove" (handleMouseMove hs)
  ++ listener_key TWindow "scroll" (handleScrollShow hs)
  ++ match pinButton (elements m) with
     | Some b => listener_key (TNode b) "mouseenter" (pinMouseEnter hs)
                 ++ listener_key (TNode b) "mouseleave" (pinMouseLeave hs)
                 ++ listener_key (TNode b) "click" (pinClick hs)
     | None => []
     end
  ++ match floatingBtn (elements m) with
     | Some {| fb_node := b; fb_handlers := Some bh |} =>
         listener_key (TNode b) "mouseenter" (Some (mouseEnter bh))
         ++ listener_key (TNode b) "mouseleave" (Some (mouseLeave bh))
         ++ listener_key (TNode b) "click" (Some (click bh))
         ++ listener_key (TNode b) "mousedown" (Some (mouseDown bh))
         ++ listener_key (TNode b) "mouseup" (Some (mouseUp bh))
     | _ => []
     end.

Definition node_keys (m : Manager) : list Release :=
  let es := elements m in
  RelNode <$> (opt_list (pinButton es) ++ opt_list (fb_node <$> floatingBtn es)
               ++ opt_list (indicator es) ++ opt_list (spinnerStyle es)
               ++ opt_list (btnStyle es)).

Definition registry_keys (m : Manager) : list Release :=
  interval_keys m ++ timeout_keys m ++ listener_keys m ++ node_keys m.

(** A resource is still live in the page context. *)
Definition live (w : World) (r : Release) : Prop :=
  match r with
  | RelInterval h => h ∈ live_intervals w
  | RelTimeout h => is_Some (live_timeouts w !! h)
  | RelListener l => l ∈ listeners w
  | RelNode n => n ∈ n_ref <$> nodes w
  end.

(** Everything live in the page context is held by a key of the
    registry. *)
Definition owns (m : Manager) (w : World) : Prop :=
  forall r, live w r -> r ∈ registry_keys m.

(** Every listener key names a listener that is registered, with that
    very target, type and function. *)
Definition listeners_registered (m : Manager) (w : World) : Prop :=
  forall r, r ∈ listener_keys m -> live w r.

Definition well_kept (m : Manager) (w : World) : Prop :=
  owns m w /\ listeners_registered m w
  /\ (indicator (elements m) = None -> spinnerStyle (elements m) = None).

(** Nothing is live in the page context. *)
Definition clean (w : World) : Prop := forall r, ~ live w r.

(** The invariant of the page context under injections, teardowns and
    input events. *)
Definition page_inv (p : Page) : Prop :=
  match registry p with
  | Some (Populated m) => cleanup_defined p = true /\ well_kept m (world p)
  | _ => cleanup_defined p = false /\ clean (world p)
  end.

(** [w'] is [w] after releasing [ks]: the calls are appended to the
    trace, what stays live is what was live and is not in [ks], and the
    reloads nobody holds are still pending. *)
Definition releases (ks : list Release) (w w' : World) : Prop :=
  released w' = released w ++ ks
  /\ (forall r, live w' r <-> live w r /\ r ∉ ks)
  /\ unheld_reloads w' = unheld_reloads w.

(** The releases of the cleanup in the order the code makes them. *)
Definition cleanup_order (m : Manager) : list Release :=
  let hs := handlers m in
  let es := elements m in
  interval_keys m ++ timeout_keys m
  ++ listener_key TWindow "scroll" (handleScroll hs)
  ++ listener_key TWindow "wheel" (handleWheel hs)
  ++ listener_key TDocument "mousemove" (handleMouseMove hs)
  ++ listener_key TWindow "scroll" (handleScrollShow hs)
  ++ match pinButton es with
     | Some b => listener_key (TNode b) "mouseenter" (pinMouseEnter hs)
                 ++ listener_key (TNode b) "mouseleave" (pinMouseLeave hs)
                 ++ listener_key (TNode b) "click" (pinClick hs)
                 ++ [RelNode b]
     | None => []
     end
  ++ match floatingBtn es with
     | Some fb =>
         match fb_handlers fb with
         | Some bh =>
             listener_key (TNode (fb_node fb)) "mouseenter" (Some (mouseEnter bh))
             ++ listener_key (TNode (fb_node fb)) "mouseleave" (Some (mouseLeave bh))
             ++ listener_key (TNode (fb_node fb)) "click" (Some (click bh))
             ++ listener_key (TNode (fb_node fb)) "mousedown" (Some (mouseDown bh))
             ++ listener_key (TNode (fb_node fb)) "mouseup" (Some (mouseUp bh))
         | None => []
         end ++ [RelNode (fb_node fb)]
     | None => []
     end
  ++ (RelNode <$> opt_list (indicator es))
  ++ (RelNode <$> opt_list (spinnerStyle es))
  ++ (RelNode <$> opt_list (btnStyle es)).

(** Nothing of the controller is left in the registry. *)
Definition registry_empty (p : Page) : Prop :=
  cleanup_defined p = false /\
  (registry p = None \/ registry p = Some Nulled).

(** *** Observations for the scroll-to-refresh gesture *)

Definition wheel (dy : Q) : option WheelEvent :=
  Some {| deltaY := JsNumber (Fin dy) |}.

Definition accumulator (p : Page) : option Q :=
  match registry p with
  | Some (Populated m) => Some (wheelDeltaAccumulator (data m))
  | _ => None
  end.

(** The reload timer the registry holds. *)
Definition reload_timer (p : Page) : option positive :=
  match registry p with
  | Some (Populated m) => indicatorTimeout (timeouts m)
  | _ => None
  end.

Definition indicator_visible (p : Page) : bool :=
  match registry p with
  | Some (Populated m) =>
      match indicator (elements m) with
      | Some n => shown n (world p)
      | None => false
      end
  | _ => false
  end.

(** The pending single-shot reloads. *)
Definition pending_reloads (w : World) : gset positive :=
  dom (filter (fun kv => fst (snd kv) = CbReload) (live_timeouts w)).

(** The key of the registry a timeout of the controller is stored under,
    by what the timeout does. *)
Definition timer_key (cb : TimeoutCb) (ts : MTimeouts) : option positive :=
  match cb with
  | CbReload => indicatorTimeout ts
  | CbFloatAnimation => floatAnimation ts
  | CbMouseHide => mouseHide ts
  | CbScrollShow => scrollShow ts
  end.

(** Every pending timeout is the one its key holds. *)
Definition timers_keyed (m : Manager) (w : World) : Prop :=
  forall h cb d,
    live_timeouts w !! h = Some (cb, d) -> timer_key cb (timeouts m) = Some h.

Definition timers_inv (p : Page) : Prop :=
  match registry p with
  | Some (Populated m) => timers_keyed m (world p)
  | _ => True
  end.

(** Timer handles are handed out in increasing order: every pending
    timeout has a handle below the next identity. *)
Definition handles_below (w : World) : Prop :=
  forall h, is_Some (live_timeouts w !! h) -> (h < fresh w)%positive.

(** Distinct keys of the registry hold distinct handles, all of them
    handed out already. *)
Definition keys_distinct (ts : MTimeouts) : Prop :=
  forall cb1 cb2 h,
    timer_key cb1 ts = Some h -> timer_key cb2 ts = Some h -> cb1 = cb2.

Definition keys_below (ts : MTimeouts) (w : World) : Prop :=
  forall cb h, timer_key cb ts = Some h -> (h < fresh w)%positive.

Definition keys_ok (m : Manager) (w : World) : Prop :=
  keys_distinct (timeouts m) /\ keys_below (timeouts m) w.

(** The scroll and the wheel handler of an installed controller are in
    place, and its timer keys are in order. *)
Definition gesture_ready (p : Page) : Prop :=
  handles_below (world p)
  /\ match registry p with
     | Some (Populated m) =>
         is_Some (handleScroll (handlers m)) /\ is_Some (handleWheel (handlers m))
         /\ keys_ok m (world p)
     | _ => True
     end.


(** A wheel event the handler ignores: no event, a [deltaY] that is not a
    finite number, or one of magnitude above 1000. *)
Definition rejected (ev : option WheelEvent) : Prop :=
  match ev with
  | None => True
  | Some e =>
      match finite_number (deltaY e) with
      | Some dy => (1000 < Qabs dy)%Q
      | None => True
      end
  end.

End Page.

(* ===================================================================== *)
(** ** Host process: window session, tray, fault handlers (main.js)        *)
(* ===================================================================== *)

Module Host.

Inductive IntervalTask := CacheClear | MemoryMonitor.

#[global] Instance IntervalTask_eq_dec : EqDecision IntervalTask.
Proof. solve_decision. Defined.

Inductive TimeoutTask :=
| ResetLoading             (* the finally block of did-finish-load *)
| ForcedExit.              (* setTimeout(() => process.exit(1), 5000) *)

(** The fields the code keeps on the BrowserWindow object, and the state
    of the window it queries. *)
Record BrowserWindow := {
  _isLoading : bool;
  _loadingStartTime : option N;
  _cacheInterval : option positive;
  _memoryMonitorInterval : option positive;
  alwaysOnTop : bool;
  destroyed : bool;                       (* isDestroyed() *)
  visible : bool
}.

Record HostState := {
  mainWindow : option BrowserWindow;
  tray : bool;
  willQuit : bool;
  appEventListeners : list string;
  intervals : gmap positive IntervalTask;             (* live intervals *)
  timeouts : gmap positive (TimeoutTask * N);         (* pending timeouts, delay *)
  next_handle : positive;
  gone_pending : nat;       (* render-process-gone listeners awaiting the page *)
  trace : list Effect;
  exited : option Z                                   (* process.exit status *)
}.

(** What a listener leaves behind, and whether it threw. *)
Record Outcome := { after : HostState; threw : option string }.

Definition done (h : HostState) : Outcome := {| after := h; threw := None |}.
Definition throws (what : string) (h : HostState) : Outcome :=
  {| after := h; threw := Some what |}.

Definition set_window (w : option BrowserWindow) (h : HostState) : HostState :=
  {| mainWindow := w; tray := tray h; willQuit := willQuit h;
     appEventListeners := appEventListeners h; intervals := intervals h;
     timeouts := timeouts h; next_handle := next_handle h;
     gone_pending := gone_pending h; trace := trace h; exited := exited h |}.

Definition emit (e : Effect) (h : HostState) : HostState :=
  {| mainWindow := mainWindow h; tray := tray h; willQuit := willQuit h;
     appEventListeners := appEventListeners h; intervals := intervals h;
     timeouts := timeouts h; next_handle := next_handle h;
     gone_pending := gone_pending h; trace := trace h ++ [e];
     exited := exited h |}.

Definition emit_all (es : list Effect) (h : HostState) : HostState :=
  fold_left (fun h e => emit e h) es h.

Definition duplicate_warning : Effect :=
  Console WarnLevel "Page loading in progress, skipping duplicate injection" [].

Definition setInterval (task : IntervalTask) (h : HostState) : positive * HostState :=
  (next_handle h,
   {| mainWindow := mainWindow h; tray := tray h; willQuit := willQuit h;
      appEventListeners := appEventListeners h;
      intervals := <[next_handle h := task]> (intervals h);
      timeouts := timeouts h; next_handle := Pos.succ (next_handle h);
      gone_pending := gone_pending h; trace := trace h; exited := exited h |}).

Definition clearInterval (i : positive) (h : HostState) : HostState :=
  {| mainWindow := mainWindow h; tray := tray h; willQuit := willQuit h;
     appEventListeners := appEventListeners h;
     intervals := delete i (intervals h);
     timeouts := timeouts h; next_handle := next_handle h;
     gone_pending := gone_pending h; trace := trace h; exited := exited h |}.

Definition setTimeout (task : TimeoutTask) (delay : N) (h : HostState)
  : positive * HostState :=
  (next_handle h,
   {| mainWindow := mainWindow h; tray := tray h; willQuit := willQuit h;
      appEventListeners := appEventListeners h; intervals := intervals h;
      timeouts := <[next_handle h := (task, delay)]> (timeouts h);
      next_handle := Pos.succ (next_handle h);
      gone_pending := gone_pending h; trace := trace h; exited := exited h |}).

Definition expire (t : positive) (h : HostState) : HostState :=
  {| mainWindow := mainWindow h; tray := tray h; willQuit := willQuit h;
     appEventListeners := appEventListeners h; intervals := intervals h;
     timeouts := delete t (timeouts h); next_handle := next_handle h;
     gone_pending := gone_pending h; trace := trace h; exited := exited h |}.

Definition set_gone_pending (n : nat) (h : HostState) : HostState :=
  {| mainWindow := mainWindow h; tray := tray h; willQuit := willQuit h;
     appEventListeners := appEventListeners h; intervals := intervals h;
     timeouts := timeouts h; next_handle := next_handle h;
     gone_pending := n; trace := trace h; exited := exited h |}.

Definition set_exited (c : Z) (h : HostState) : HostState :=
  {| mainWindow := mainWindow h; tray := tray h; willQuit := willQuit h;
     appEventListeners := appEventListeners h; intervals := intervals h;
     timeouts := timeouts h; next_handle := next_handle h;
     gone_pending := gone_pending h; trace := trace h;
     exited := match exited h with Some c0 => Some c0 | None => Some c end |}.

Definition set_tray_listeners (t : bool) (l : list string) (h : HostState)
  : HostState :=
  {| mainWindow := mainWindow h; tray := t; willQuit := willQuit h;
     appEventListeners := l; intervals := intervals h;
     timeouts := timeouts h; next_handle := next_handle h;
     gone_pending := gone_pending h; trace := trace h; exited := exited h |}.

(** Window field updates. *)
Definition w_loading (b : bool) (t : option N) (w : BrowserWindow) : BrowserWindow :=
  {| _isLoading := b; _loadingStartTime := t;
     _cacheInterval := _cacheInterval w;
     _memoryMonitorInterval := _memoryMonitorInterval w;
     alwaysOnTop := alwaysOnTop w; destroyed := destroyed w;
     visible := visible w |}.
Definition w_cache (i : option positive) (w : BrowserWindow) : BrowserWindow :=
  {| _isLoading := _isLoading w; _loadingStartTime := _loadingStartTime w;
     _cacheInterval := i;
     _memoryMonitorInterval := _memoryMonitorInterval w;
     alwaysOnTop := alwaysOnTop w; destroyed := destroyed w;
     visible := visible w |}.
Definition w_memory (i : option positive) (w : BrowserWindow) : BrowserWindow :=
  {| _isLoading := _isLoading w; _loadingStartTime := _loadingStartTime w;
     _cacheInterval := _cacheInterval w;
     _memoryMonitorInterval := i;
     alwaysOnTop := alwaysOnTop w; destroyed := destroyed w;
     visible := visible w |}.
Definition w_top (b : bool) (w : BrowserWindow) : BrowserWindow :=
  {| _isLoading := _isLoading w; _loadingStartTime := _loadingStartTime w;
     _cacheInterval := _cacheInterval w;
     _memoryMonitorInterval := _memoryMonitorInterval w;
     alwaysOnTop := b; destroyed := destroyed w; visible := visible w |}.
Definition w_visible (b : bool) (w : BrowserWindow) : BrowserWindow :=
  {| _isLoading := _isLoading w; _loadingStartTime := _loadingStartTime w;
     _cacheInterval := _cacheInterval w;
     _memoryMonitorInterval := _memoryMonitorInterval w;
     alwaysOnTop := alwaysOnTop w; destroyed := destroyed w; visible := b |}.

(** [new BrowserWindow(...)] as [createWindow] leaves it. *)
Definition new_window : BrowserWindow :=
  {| _isLoading := false; _loadingStartTime := None; _cacheInterval := None;
     _memoryMonitorInterval := None; alwaysOnTop := false;
     destroyed := false; visible := false |}.

(** The process after [app.whenReady().then(createWindow; createTray)]. *)
Definition ready : HostState :=
  {| mainWindow := Some new_window; tray := true; willQuit := false;
     appEventListeners := [ "window-all-closed"; "activate"; "before-quit";
                            "uncaughtException"; "unhandledRejection" ]%string;
     intervals := ∅; timeouts := ∅; next_handle := 1%positive;
     gone_pending := 0; trace := []; exited := None |}.

(** [mainWindow && !mainWindow.isDestroyed()] *)
Definition window_usable (h : HostState) : bool :=
  match mainWindow h with
  | Some w => negb (destroyed w)
  | None => false
  end.

(** [if (mainWindow && mainWindow._cacheInterval) { clearInterval; = null }]
    followed by the same for [_memoryMonitorInterval]. *)
Definition clear_all_intervals (h : HostState) : HostState :=
  let h := match mainWindow h with
           | Some w =>
               match _cacheInterval w with
               | Some i => set_window (Some (w_cache None w)) (clearInterval i h)
               | None => h
               end
           | None => h
           end in
  match mainWindow h with
  | Some w =>
      match _memoryMonitorInterval w with
      | Some i => set_window (Some (w_memory None w)) (clearInterval i h)
      | None => h
      end
  | None => h
  end.

(** The 'did-finish-load' listener.  [t0] and [t1] are what [Date.now()]
    returns on entry and in the finally block; [sync_throw] tells whether
    [executeJavaScript] throws at the call. *)
Definition did_finish_load (t0 t1 : N) (sync_throw : bool) (h : HostState)
  : Outcome :=
  match mainWindow h with
  | None => throws "TypeError" h
  | Some w =>
      if _isLoading w then
        done (emit duplicate_warning h)
      else
        let w := w_loading true (Some t0) w in
        (* Clear existing cache interval if any *)
        let '(w, h) := match _cacheInterval w with
                       | Some i => (w_cache None w, clearInterval i h)
                       | None => (w, h)
                       end in
        (* Inject scroll refresh functionality with error handling *)
        let h := emit (ExecuteJavaScript Install) h in
        let h := if sync_throw
                 then emit (Console WarnLevel "Error executing JavaScript:" []) h
                 else h in
        (* finally: reset the loading flag after an adaptive delay;
           [_loadingStartTime || Date.now()], and a negative duration
           ends at the minimum like zero does *)
        let start := if (t0 =? 0)%N then t1 else t0 in
        let loadingDuration := (t1 - start)%N in
        let resetDelay := N.max 100 (N.min 1000 loadingDuration) in
        let '(_, h) := setTimeout ResetLoading resetDelay h in
        (* Clear cache every 30 minutes *)
        let '(i, h) := setInterval CacheClear h in
        let w := w_cache (Some i) w in
        (* Add memory pressure monitoring for proactive cleanup *)
        let '(w, h) := match _memoryMonitorInterval w with
                       | Some _ => (w, h)
                       | None =>
                           let '(j, h) := setInterval MemoryMonitor h in
                           (w_memory (Some j) w, h)
                       end in
        done (set_window (Some w) h)
  end.

(** The promise of the injection is rejected: the failure is logged. *)
Definition injection_rejected (h : HostState) : Outcome :=
  done (emit (Console WarnLevel
                "Failed to inject scroll refresh functionality:" []) h).

(** A pending timeout fires. *)
Definition timeout_fires (t : positive) (h : HostState) : Outcome :=
  match timeouts h !! t with
  | Some (ResetLoading, _) =>
      let h := expire t h in
      done (match mainWindow h with
            | Some w => set_window (Some (w_loading false None w)) h
            | None => h
            end)
  | Some (ForcedExit, _) => done (set_exited 1 (emit (Exit 1) (expire t h)))
  | None => done h
  end.

(** A live interval ticks. *)
Definition interval_ticks (i : positive) (h : HostState) : Outcome :=
  match intervals h !! i with
  | Some CacheClear =>
      done (if window_usable h then emit ClearCache h else h)
  | Some MemoryMonitor =>
      done (if window_usable h then emit (ExecuteJavaScript MemoryProbe) h else h)
  | None => done h
  end.

(** The 'close' listener of the window: hide to the tray unless the
    application is quitting.  [teardown_ok] tells whether the awaited page
    call fulfils. *)
Definition close (win32 teardown_ok : bool) (h : HostState) : Outcome :=
  if willQuit h then done h
  else
    let h := emit PreventDefault h in
    let h := if window_usable h then
               let h := emit (ExecuteJavaScript Teardown) h in
               if teardown_ok then h
               else emit (Console WarnLevel "JavaScript cleanup during minimize failed:" []) h
             else h in
    match mainWindow h with
    | None => throws "TypeError" h
    | Some w =>
        let h := emit HideWindow (set_window (Some (w_visible false w)) h) in
        done (if win32 then emit (ExecuteJavaScript Notify) h else h)
    end.

(** The 'closed' and 'destroyed' listeners end the window session. *)
Definition closed (h : HostState) : Outcome :=
  let h := clear_all_intervals h in
  done (set_window None h).

Definition destroyed_listener (h : HostState) : Outcome :=
  match mainWindow h with
  | Some _ => done (set_window None (clear_all_intervals h))
  | None => done h
  end.

Inductive GoneReason :=
| CleanExit | AbnormalExit | Killed | Crashed | Oom | LaunchFailed
| IntegrityFailure.

(** The 'render-process-gone' listener up to its await, if it has one. *)
Definition render_process_gone (reason : GoneReason) (h : HostState) : Outcome :=
  let h := emit (Console WarnLevel "Renderer process gone:" []) h in
  match reason with
  | Killed | CleanExit =>
      if window_usable h then
        done (set_gone_pending (S (gone_pending h))
                (emit (ExecuteJavaScript Teardown) h))
      else done (clear_all_intervals h)
  | _ =>
      let h := emit (Console LogLevel
                 "Renderer process crashed, automatic cleanup will occur on window destruction" []) h in
      done (clear_all_intervals h)
  end.

(** ... and what it does once the awaited page call has settled. *)
Definition gone_resume (h : HostState) : Outcome :=
  match gone_pending h with
  | S n => done (clear_all_intervals (set_gone_pending n h))
  | O => done h
  end.

Definition unresponsive (h : HostState) : Outcome :=
  let h := emit (Console WarnLevel
             "Renderer process is unresponsive, attempting cleanup..." []) h in
  done (clear_all_intervals h).

Definition responsive (h : HostState) : Outcome :=
  let h := emit (Console LogLevel "Renderer process is responsive again" []) h in
  match mainWindow h with
  | None => throws "TypeError" h
  | Some w =>
      match _cacheInterval w with
      | Some _ => done h
      | None =>
          let '(i, h) := setInterval CacheClear h in
          done (set_window (Some (w_cache (Some i) w)) h)
      end
  end.

(** [ipcMain.on('toggle-always-on-top')] *)
Definition toggle_always_on_top (h : HostState) : Outcome :=
  match mainWindow h with
  | Some w =>
      if negb (destroyed w) then
        let currentState := alwaysOnTop w in
        let h := set_window (Some (w_top (negb currentState) w)) h in
        done (emit (Send "always-on-top-changed" (JsBool (negb currentState))) h)
      else done h
  | None => done h
  end.

(** *** Process-wide cleanup and fault listeners *)


(** [cleanupApp]; [tray_throws] tells whether [tray.destroy()] throws. *)
Definition cleanupApp (tray_throws : bool) (h : HostState) : Outcome :=
  let h := emit_all (AppOff <$> appEventListeners h) h in
  let h := set_tray_listeners (tray h) [] h in
  if tray h then
    if tray_throws then throws "Error" h
    else done (set_tray_listeners false [] (emit TrayDestroy h))
  else done h.







(** *** Events of a window session *)

Inductive Event :=
| DidFinishLoad (t0 t1 : N) (sync_throw : bool)
| InjectionRejected
| TimeoutFires (t : positive)
| IntervalTicks (i : positive)
| Close (win32 teardown_ok : bool)
| Closed
| Destroyed
| RenderProcessGone (reason : GoneReason)
| GoneResume
| Unresponsive
| Responsive
| ToggleAlwaysOnTop.

Definition is_load (e : Event) : Prop :=
  match e with DidFinishLoad _ _ _ => True | _ => False end.

Definition handle (e : Event) (h : HostState) : Outcome :=
  match e with
  | DidFinishLoad t0 t1 x => did_finish_load t0 t1 x h
  | InjectionRejected => injection_rejected h
  | TimeoutFires t => timeout_fires t h
  | IntervalTicks i => interval_ticks i h
  | Close win32 ok => close win32 ok h
  | Closed => closed h
  | Destroyed => destroyed_listener h
  | RenderProcessGone r => render_process_gone r h
  | GoneResume => gone_resume h
  | Unresponsive => unresponsive h
  | Responsive => responsive h
  | ToggleAlwaysOnTop => toggle_always_on_top h
  end.

Definition step (h : HostState) (e : Event) : HostState := after (handle e h).

Definition run (h : HostState) (es : list Event) : HostState :=
  fold_left step es h.

(** The live interval handles of a task. *)
Definition live_handles (task : IntervalTask) (h : HostState) : gset positive :=
  dom (filter (fun kv => snd kv = task) (intervals h)).

Definition live_count (task : IntervalTask) (h : HostState) : nat :=
  size (live_handles task h).

(** The handle a task is recorded under in the window session. *)
Definition recorded (task : IntervalTask) (h : HostState) : option positive :=
  match mainWindow h with
  | Some w => match task with
              | CacheClear => _cacheInterval w
              | MemoryMonitor => _memoryMonitorInterval w
              end
  | None => None
  end.

(** The timer-handle invariant on the interval table [m], the handles
    recorded for the two tasks and the handle counter [n]: the live
    intervals of a task are exactly its recorded handle, and no handle
    at or beyond the counter is in use. *)
Definition handles_inv (m : gmap positive IntervalTask)
    (rc rm : option positive) (n : positive) : Prop :=
  (forall i, m !! i = Some CacheClear <-> rc = Some i)
  /\ (forall i, m !! i = Some MemoryMonitor <-> rm = Some i)
  /\ (forall i, (n <= i)%positive -> m !! i = None).

Definition session_inv (h : HostState) : Prop :=
  handles_inv (intervals h) (recorded CacheClear h) (recorded MemoryMonitor h)
    (next_handle h).

(** One load-to-ready cycle: the page finishes loading, then the reset
    timeout armed by the listener fires. *)
Definition load_to_ready (t0 t1 : N) (h : HostState) : HostState :=
  let reset := next_handle h in
  step (step h (DidFinishLoad t0 t1 false)) (TimeoutFires reset).

Fixpoint cycles (n : nat) (h : HostState) : HostState :=
  match n with
  | O => h
  | S n => cycles n (load_to_ready 0 0 h)
  end.

Definition installs (h : HostState) : nat := count is_Install (trace h).

End Host.

(* ===================================================================== *)
(** ** The bridge to the page (preload.js)                                 *)
(* ===================================================================== *)

Module Preload.




End Preload.


(* ===================================================================== *)
(** ** The tray menu and the application listeners (main.js)              *)
(* ===================================================================== *)

Module App.
Import Host.

(** Calls on the application and the window that the functions below
    make and the window session does not. *)
Inductive Call :=
| AppOn (event : string)       (* app.on(event, listener) *)
| AppQuit                      (* app.quit() *)
| WindowShow                   (* mainWindow.show() *)
| WindowFocus                  (* mainWindow.focus() *)
| WebContentsReload.           (* mainWindow.webContents.reload() *)

Record AppState := { host : HostState; calls : list Call }.

Definition call (c : Call) (a : AppState) : AppState :=
  {| host := host a; calls := calls a ++ [c] |}.

Definition on_host (f : HostState -> HostState) (a : AppState) : AppState :=
  {| host := f (host a); calls := calls a |}.

Definition set_willQuit (b : bool) (h : HostState) : HostState :=
  {| mainWindow := mainWindow h; tray := tray h; willQuit := b;
     appEventListeners := appEventListeners h; intervals := intervals h;
     timeouts := timeouts h; next_handle := next_handle h;
     gone_pending := gone_pending h; trace := trace h; exited := exited h |}.

(** [addAppListener(event, listener)] *)
Definition addAppListener (event : string) (a : AppState) : AppState :=
  let a := call (AppOn event) a in
  on_host (fun h => set_tray_listeners (tray h) (appEventListeners h ++ [event]) h) a.

(** The window object a method is called on: a null reference and a
    destroyed window both make the call throw. *)
Definition receiver (a : AppState) : Exc BrowserWindow :=
  match mainWindow (host a) with
  | None => Throw "TypeError"
  | Some w => if destroyed w then Throw "TypeError" else Ok w
  end.

Definition show_and_focus (w : BrowserWindow) (a : AppState) : AppState :=
  call WindowFocus
    (call WindowShow (on_host (set_window (Some (w_visible true w))) a)).

(** Tray menu, 'Show/Hide': no guard on the window reference. *)
Definition tray_show_hide (a : AppState) : Exc AppState :=
  match receiver a with
  | Throw e => Throw e
  | Ok w =>
      if visible w then
        Ok (on_host (fun h => emit HideWindow
                                (set_window (Some (w_visible false w)) h)) a)
      else Ok (show_and_focus w a)
  end.

(** Tray menu, 'Refresh': [if (mainWindow) mainWindow.webContents.reload()] *)
Definition tray_refresh (a : AppState) : Exc AppState :=
  match mainWindow (host a) with
  | None => Ok a
  | Some _ =>
      match receiver a with
      | Throw e => Throw e
      | Ok _ => Ok (call WebContentsReload a)
      end
  end.

(** Tray menu, 'Open Bluesky in Browser' *)
Definition tray_open_in_browser (a : AppState) : AppState :=
  on_host (emit (OpenExternal (JsString (u16 "https://bsky.app")))) a.

(** Tray menu, 'Exit' *)
Definition tray_exit (a : AppState) : AppState :=
  call AppQuit (on_host (set_willQuit true) a).

(** [tray.on('double-click', ...)] *)
Definition tray_double_click (a : AppState) : Exc AppState :=
  match receiver a with
  | Throw e => Throw e
  | Ok w => Ok (show_and_focus w a)
  end.

(** The 'before-quit' listener *)
Definition before_quit (a : AppState) : AppState :=
  on_host (set_willQuit true) a.

(** The 'window-all-closed' listener; [darwin]: the platform is macOS. *)
Definition window_all_closed (darwin tray_throws : bool) (a : AppState)
  : Exc AppState :=
  if darwin then Ok a
  else
    let o := cleanupApp tray_throws (host a) in
    match threw o with
    | Some e => Throw e
    | None => Ok (call AppQuit (on_host (fun _ => after o) a))
    end.

(** The process before any listener is registered and before the
    application is ready. *)
Definition start : AppState :=
  {| host := {| mainWindow := None; tray := false; willQuit := false;
                appEventListeners := []; intervals := ∅; timeouts := ∅;
                next_handle := 1%positive; gone_pending := 0; trace := [];
                exited := None |};
     calls := [] |}.

(** The five registrations main.js makes while it is loaded. *)
Definition registrations : list string :=
  [ "window-all-closed"; "activate"; "before-quit";
    "uncaughtException"; "unhandledRejection" ]%string.

(** The session stays out of the quit path: the application is not
    quitting, the process has not exited, and every pending timeout is
    the reset of a loading flag. *)
Definition running (h : HostState) : Prop :=
  willQuit h = false /\ exited h = None
  /\ forall t task d, timeouts h !! t = Some (task, d) -> task = ResetLoading.

End App.

(* ===================================================================== *)
(** * Properties                                                           *)
(* ===================================================================== *)

(** ** Error sanitizer *)

Section SanitizerFacts.
Import Sanitizer.

Lemma kept_mask : kept mask = true.
Proof. reflexivity. Qed.

Lemma scrub_elem (m : jsstring) (c : N) : c ∈ scrub m -> kept c = true.
Proof.
  unfold scrub. intros Hc. apply list_elem_of_fmap in Hc as (c0 & -> & _).
  destruct (kept c0) eqn:E; [exact E | exact kept_mask].
Qed.

Lemma scrub_id (m : jsstring) :
  (forall c, c ∈ m -> kept c = true) -> scrub m = m.
Proof.
  unfold scrub. induction m as [|c m IH]; intros H; [reflexivity|].
  cbn. rewrite (H c) by left. f_equal. apply IH. intros c' Hc'. apply H. by right.
Qed.

Lemma spec_safe_kept (c : N) : spec_safe c = true -> kept c = true.
Proof.
  unfold spec_safe, kept, re_word. intros H.
  repeat (apply orb_prop in H as [H|H]);
    try (rewrite H; rewrite ?orb_true_r; reflexivity).
  apply bool_decide_eq_true in H.
  set (l := u16 _) in H. vm_compute in l. subst l.
  repeat (apply elem_of_cons in H as [-> | H]; [reflexivity|]).
  by apply elem_of_nil in H.
Qed.



(** C8, as stated (allow-set with the space as its only blank), fails:
    a tab is outside that set, yet the scrubber keeps it, so the
    output has no mask character. *)
Lemma scrub_keeps_tab :
  ~ (forall m : jsstring,
        (exists c, c ∈ m /\ spec_safe c = false) -> mask ∈ scrub m).
Proof.
  intros H. specialize (H [97; 9; 98]%N).
  assert (Hin : mask ∈ scrub [97; 9; 98]%N).
  { apply H. exists 9%N. split; [|reflexivity]. right. left. }
  vm_compute in Hin.
  repeat (apply elem_of_cons in Hin as [Hin | Hin]; [discriminate Hin|]).
  by apply elem_of_nil in Hin.
Qed.

(** C8 (amended): the scrubber replaces, position by position, every
    code unit outside [\w\s.,!?@#$%^&*()\-+=] by the mask and keeps the
    others; so the output has a mask whenever the input had a unit
    outside that set, equals the input when it had none, consists of
    kept units only, and contains no substring with a unit outside the
    set (a script tag, say).  The set is the one of the specification
    plus the other white-space units. *)
Theorem scrub_masks_outside_class (m : jsstring) :
  length (scrub m) = length m
  /\ (forall i c, m !! i = Some c ->
        scrub m !! i = Some (if kept c then c else mask))
  /\ ((exists c, c ∈ m /\ kept c = false) -> mask ∈ scrub m)
  /\ ((forall c, c ∈ m -> kept c = true) -> scrub m = m)
  /\ (forall c, c ∈ scrub m -> kept c = true)
  /\ (forall t, (exists c, c ∈ t /\ kept c = false) -> ~ infix_of t (scrub m))
  /\ (forall c, spec_safe c = true -> kept c = true)
  /\ (forall name stack,
        sanitizeError_scrub (JsErr name (JsString m) stack)
        = Ok (JsObj [ ("name"%string, name);
                      ("message"%string, JsString (scrub m)) ])).
Proof.
  split; [apply length_fmap|].
  split. { intros i c Hi. unfold scrub. rewrite list_lookup_fmap, Hi. reflexivity. }
  split.
  { intros (c & Hc & Hk). unfold scrub. apply list_elem_of_fmap.
    exists c. rewrite Hk. split; [reflexivity | exact Hc]. }
  split; [apply scrub_id|].
  split; [apply scrub_elem|].
  split.
  { intros t (c & Hc & Hk) (pre & post & E).
    assert (Hin : c ∈ scrub m).
    { rewrite E. apply elem_of_app. right. apply elem_of_app. by left. }
    apply scrub_elem in Hin. congruence. }
  split; [apply spec_safe_kept|].
  reflexivity.
Qed.

Lemma scrub_masks_outside_class_witness :
  (exists c, c ∈ u16 "<script>alert(1)</script>" /\ kept c = false)
  /\ mask ∈ scrub (u16 "<script>alert(1)</script>")
  /\ ~ infix_of (u16 "<script>") (scrub (u16 "<script>alert(1)</script>")).
Proof.
  assert (H : exists c, c ∈ u16 "<script>alert(1)</script>" /\ kept c = false).
  { exists 60%N. split; [left | reflexivity]. }
  split; [exact H|].
  pose proof (scrub_masks_outside_class (u16 "<script>alert(1)</script>"))
    as (_ & _ & Hmask & _ & _ & Hinfix & _).
  split; [exact (Hmask H)|].
  apply Hinfix. exists 60%N. split; [left | reflexivity].
Defined.

(** *** Further properties of the scrubbing variant *)

Lemma scrub_app (a b : jsstring) : scrub (a ++ b) = scrub a ++ scrub b.
Proof. unfold scrub. apply fmap_app. Qed.

(** X1: scrubbing is idempotent: the mask is itself a character the class
    keeps, so a scrubbed message passes a second scrubbing unchanged. *)
Theorem scrub_idempotent (m : jsstring) : scrub (scrub m) = scrub m.
Proof. apply scrub_id. intros c Hc. by apply scrub_elem in Hc. Qed.

(** X2: what the scrubbing does not hide: a substring made of characters of
    the class (letters, digits, underscore, white space and the listed
    punctuation) stands verbatim in the output, wherever it stood in the
    message. *)
Theorem scrub_keeps_class_substrings (t m : jsstring) :
  (forall c, c ∈ t -> kept c = true) -> infix_of t m -> infix_of t (scrub m).
Proof.
  intros Ht (pre & post & ->). exists (scrub pre), (scrub post).
  by rewrite !scrub_app, (scrub_id t Ht).
Qed.

Lemma scrub_keeps_class_substrings_witness :
  infix_of (u16 "secret123") (scrub (u16 "user=admin password=secret123;")).
Proof.
  apply scrub_keeps_class_substrings.
  - intros c Hc. vm_compute in Hc.
    repeat (apply elem_of_cons in Hc as [->|Hc]; [reflexivity|]).
    by apply elem_of_nil in Hc.
  - exists (u16 "user=admin password="), (u16 ";"). reflexivity.
Defined.


End SanitizerFacts.

(** ** URL policy *)

Section UrlPolicyFacts.
Import UrlPolicy.

Lemma allowed_protocols_spec (p : jsstring) :
  p ∈ ALLOWED_PROTOCOLS
  <-> p = u16 "https:" \/ p = u16 "mailto:" \/ p = u16 "tel:".
Proof. unfold ALLOWED_PROTOCOLS. set_solver. Qed.

(** The copies of the check in the test files add http: to the set; the
    set the application runs with has no http:. *)
Remark allowed_protocols_tests_http :
  u16 "http:" ∈ ALLOWED_PROTOCOLS_tests /\ (u16 "http:" ∉ ALLOWED_PROTOCOLS)
  /\ ALLOWED_PROTOCOLS ⊆ ALLOWED_PROTOCOLS_tests.
Proof.
  assert (Ht : forall p, p ∈ ALLOWED_PROTOCOLS_tests
                         <-> p = u16 "http:" \/ p ∈ ALLOWED_PROTOCOLS).
  { intros p. unfold ALLOWED_PROTOCOLS, ALLOWED_PROTOCOLS_tests. set_solver. }
  split; [apply Ht; by left|]. split.
  - rewrite allowed_protocols_spec. intros [H|[H|H]]; vm_compute in H; discriminate H.
  - intros p Hp. apply Ht. by right.
Qed.

Lemma agrees_fragment : agrees URL_fragment.
Proof.
  intros v. unfold URL_fragment. destruct (URL_whatwg v); reflexivity.
Qed.

Lemma agrees_inside (URL_new : JsValue -> option URL) (v : JsValue) :
  agrees URL_new -> URL_whatwg v <> Unmodelled -> URL_new v = URL_fragment v.
Proof.
  intros Hag Hv. specialize (Hag v). unfold URL_fragment.
  destruct (URL_whatwg v); [exact Hag | exact Hag | congruence].
Qed.

Lemma isSafeUrl_inside (URL_new : JsValue -> option URL) (v : JsValue) :
  agrees URL_new -> URL_whatwg v <> Unmodelled ->
  isSafeUrl URL_new v = isSafeUrl URL_fragment v.
Proof.
  intros Hag Hv. unfold isSafeUrl. by rewrite (agrees_inside URL_new v Hag Hv).
Qed.


Lemma isSafeUrl_spec (URL_new : JsValue -> option URL) (url : JsValue) :
  isSafeUrl URL_new url = true
  <-> exists u, URL_new url = Some u
                /\ (protocol u = u16 "https:" \/ protocol u = u16 "mailto:"
                    \/ protocol u = u16 "tel:").
Proof.
  unfold isSafeUrl. destruct (URL_new url) as [u|].
  - rewrite bool_decide_eq_true, allowed_protocols_spec. split.
    + intros H. exists u. done.
    + intros (u' & [= <-] & H). exact H.
  - split; [discriminate | intros (u & [=] & _)].
Qed.

Ltac fragment_case Hag :=
  rewrite (isSafeUrl_inside _ _ Hag) by (vm_compute; discriminate);
  vm_compute; reflexivity.

(** C4: the handler answers every request with "deny"; it opens the URL
    externally exactly when the URL parses and its protocol is https:,
    mailto: or tel:, and otherwise logs a warning and opens nothing.  In
    particular http:, file:, ftp:, javascript:, data:, blob: and vbscript:
    URLs and inputs the parser rejects (the empty string, null,
    undefined among them) are not opened. *)
Theorem windowOpenHandler_policy :
  (forall (URL_new : JsValue -> option URL) (url : JsValue),
      let r := windowOpenHandler URL_new url in
      fst r = Deny
      /\ (existsb is_OpenExternal (snd r) = true
          <-> exists u, URL_new url = Some u
                        /\ (protocol u = u16 "https:" \/ protocol u = u16 "mailto:"
                            \/ protocol u = u16 "tel:"))
      /\ (existsb is_OpenExternal (snd r) = true -> snd r = [OpenExternal url])
      /\ (existsb is_OpenExternal (snd r) = false ->
          snd r = [Console WarnLevel "Blocked potentially unsafe URL: " [url]]))
  /\ (forall (URL_new : JsValue -> option URL) (url : JsValue) (u : URL),
        URL_new url = Some u ->
        protocol u ∈ [ u16 "http:"; u16 "file:"; u16 "ftp:"; u16 "javascript:";
                       u16 "data:"; u16 "blob:"; u16 "vbscript:" ] ->
        existsb is_OpenExternal (snd (windowOpenHandler URL_new url)) = false)
  /\ (forall (URL_new : JsValue -> option URL) (url : JsValue),
        URL_new url = None ->
        existsb is_OpenExternal (snd (windowOpenHandler URL_new url)) = false)
  /\ (forall URL_new : JsValue -> option URL, agrees URL_new ->
        isSafeUrl URL_new (sample "https://bsky.app") = true
        /\ isSafeUrl URL_new (sample "mailto:test@example.com") = true
        /\ isSafeUrl URL_new (sample "tel:+1234567890") = true
        /\ isSafeUrl URL_new (sample "http://example.com") = false
        /\ isSafeUrl URL_new (sample "file:///etc/passwd") = false
        /\ isSafeUrl URL_new (sample "ftp://example.com") = false
        /\ isSafeUrl URL_new (sample "javascript:alert(1)") = false
        /\ isSafeUrl URL_new (sample "data:text/html,<script>alert(1)</script>") = false
        /\ isSafeUrl URL_new (sample "blob:https://example.com/blob") = false
        /\ isSafeUrl URL_new (sample "vbscript:msgbox(1)") = false
        /\ isSafeUrl URL_new (sample "not-a-url") = false
        /\ isSafeUrl URL_new (sample "https://") = false
        /\ isSafeUrl URL_new (sample "") = false
        /\ isSafeUrl URL_new JsNull = false
        /\ isSafeUrl URL_new JsUndefined = false).
Proof.
  split.
  { intros URL_new url r. subst r. unfold windowOpenHandler. cbn [fst snd].
    split; [reflexivity|].
    rewrite <- isSafeUrl_spec.
    destruct (isSafeUrl URL_new url); cbn; repeat split; try done. }
  split.
  { intros URL_new url u Hu Hp. unfold windowOpenHandler, isSafeUrl.
    rewrite Hu. cbn [snd].
    assert (Hn : bool_decide (protocol u ∈ ALLOWED_PROTOCOLS) = false).
    { repeat (apply elem_of_cons in Hp as [-> | Hp]; [by vm_compute|]).
      by apply elem_of_nil in Hp. }
    rewrite Hn. reflexivity. }
  split.
  { intros URL_new url Hu. unfold windowOpenHandler, isSafeUrl.
    rewrite Hu. reflexivity. }
  intros URL_new Hag. unfold sample.
  repeat split; fragment_case Hag.
Qed.

Lemma windowOpenHandler_policy_witness :
  agrees URL_fragment
  /\ URL_fragment (sample "http://example.com")
     = Some {| protocol := u16 "http:"; origin := u16 "http://example.com" |}
  /\ existsb is_OpenExternal
       (snd (windowOpenHandler URL_fragment (sample "http://example.com"))) = false
  /\ isSafeUrl URL_fragment JsNull = false.
Proof.
  pose proof windowOpenHandler_policy as (_ & Hblocked & _ & Hsamples).
  split; [exact agrees_fragment|].
  split; [by vm_compute|].
  split.
  - apply (Hblocked URL_fragment (sample "http://example.com")
             {| protocol := u16 "http:"; origin := u16 "http://example.com" |}).
    + by vm_compute.
    + cbn [protocol]. left.
  - apply (Hsamples URL_fragment agrees_fragment).
Defined.

Lemma will_navigate_parsed (URL_new : JsValue -> option URL) (url : JsValue) (u : URL) :
  URL_new url = Some u ->
  navigation_proceeds URL_new url = bool_decide (origin u = home_origin)
  /\ will_navigate URL_new url
     = Ok (if bool_decide (origin u = home_origin) then [] else [PreventDefault]).
Proof.
  intros Hu. unfold navigation_proceeds, will_navigate. rewrite Hu.
  destruct (decide (origin u = home_origin)) as [E|E].
  - rewrite (bool_decide_eq_false_2 (origin u <> home_origin)) by tauto.
    rewrite (bool_decide_eq_true_2 _ E). done.
  - rewrite (bool_decide_eq_true_2 (origin u <> home_origin)) by done.
    rewrite (bool_decide_eq_false_2 _ E). done.
Qed.



(** *** The copy of the check under test *)



End UrlPolicyFacts.

(** ** Window session: always-on-top toggle and load handling *)

Section HostFacts.
Import Host.

Lemma count_app (f : Effect -> bool) (a b : list Effect) :
  count f (a ++ b) = count f a + count f b.
Proof. unfold count. by rewrite filter_app, length_app. Qed.

Lemma count_snoc (f : Effect -> bool) (a : list Effect) (e : Effect) :
  count f (a ++ [e]) = count f a + (if f e then 1 else 0).
Proof.
  rewrite count_app. f_equal. unfold count. cbn.
  destruct (f e); reflexivity.
Qed.





Lemma load_when_idle (h : HostState) (w : BrowserWindow) (t0 t1 : N) (x : bool) :
  mainWindow h = Some w -> _isLoading w = false ->
  let h1 := step h (DidFinishLoad t0 t1 x) in
  (exists w1, mainWindow h1 = Some w1 /\ _isLoading w1 = true)
  /\ installs h1 = S (installs h)
  /\ timeouts h1
     = <[next_handle h := (ResetLoading,
                           N.max 100 (N.min 1000
                                        (t1 - (if (t0 =? 0)%N then t1 else t0))))]>
         (timeouts h).
Proof.
  intros Hw Hl. unfold step, handle, did_finish_load. rewrite Hw, Hl.
  destruct w as [l st [c|] [m|] top d v]; destruct x; cbn;
    (split; [eexists; split; [reflexivity | reflexivity]|]);
    (split; [|reflexivity]);
    unfold installs; cbn; rewrite ?count_snoc; cbn; lia.
Qed.

Lemma installs_timeout_fires (t : positive) (h : HostState) :
  installs (step h (TimeoutFires t)) = installs h.
Proof.
  unfold step, handle, timeout_fires.
  destruct (timeouts h !! t) as [[[] d]|]; cbn; try reflexivity.
  - unfold expire; cbn. destruct (mainWindow h); reflexivity.
  - unfold installs. cbn. rewrite count_snoc. cbn. lia.
Qed.




(** *** Further properties of the window listeners *)



(** X6: the loading guard is released: a load-finished signal on an idle
    window arms one reset timeout whose delay lies between 100 and 1000
    ms whatever the clock says, also when the injection call throws;
    when that timeout fires the window is idle again, and the next
    load-finished signal installs once more. *)
Theorem loading_guard_released
    (h : HostState) (w : BrowserWindow) (t0 t1 t0' t1' : N) (x x' : bool) :
  mainWindow h = Some w -> _isLoading w = false ->
  let h1 := step h (DidFinishLoad t0 t1 x) in
  let h2 := step h1 (TimeoutFires (next_handle h)) in
  let h3 := step h2 (DidFinishLoad t0' t1' x') in
  (exists d, timeouts h1 !! next_handle h = Some (ResetLoading, d)
             /\ (100 <= d <= 1000)%N)
  /\ (exists w2, mainWindow h2 = Some w2 /\ _isLoading w2 = false
                 /\ _loadingStartTime w2 = None)
  /\ timeouts h2 !! next_handle h = None
  /\ installs h2 = S (installs h)
  /\ installs h3 = S (S (installs h)).
Proof.
  intros Hw Hl h1 h2 h3.
  destruct (load_when_idle h w t0 t1 x Hw Hl) as ((w1 & Hw1 & Hl1) & Hi & Ht).
  fold h1 in Hw1, Hi, Ht.
  assert (Hd : timeouts h1 !! next_handle h
               = Some (ResetLoading,
                       N.max 100 (N.min 1000
                                    (t1 - (if (t0 =? 0)%N then t1 else t0)))))
    by (rewrite Ht; apply lookup_insert_eq).
  assert (E2 : h2 = set_window (Some (w_loading false None w1))
                      (expire (next_handle h) h1)).
  { unfold h2, step, handle, timeout_fires. rewrite Hd. cbn. by rewrite Hw1. }
  split; [eexists; split; [exact Hd | lia]|].
  split; [rewrite E2; eexists; split; [reflexivity | done]|].
  split; [rewrite E2; cbn; apply lookup_delete_eq|].
  assert (Hi2 : installs h2 = S (installs h))
    by (unfold h2; rewrite installs_timeout_fires; exact Hi).
  split; [exact Hi2|].
  destruct (load_when_idle h2 (w_loading false None w1) t0' t1' x') as (_ & Hi3 & _);
    [by rewrite E2 | reflexivity |].
  fold h3 in Hi3. lia.
Qed.

Lemma loading_guard_released_witness :
  installs (step (step (step ready (DidFinishLoad 1000 99999 true))
                    (TimeoutFires (next_handle ready)))
              (DidFinishLoad 0 0 false)) = 2.
Proof.
  exact (proj2 (proj2 (proj2 (proj2
           (loading_guard_released ready new_window 1000 99999 0 0 true false
              eq_refl eq_refl))))).
Defined.


Lemma installs_step_other (e : Event) (h : HostState) :
  ~ is_load e -> installs (step h e) = installs h.
Proof.
  intros He. unfold installs, step.
  destruct (mainWindow h) as [[l st [c|] [m|] top d v]|] eqn:Hw;
    destruct e; try (by destruct He); cbn [handle];
    unfold injection_rejected, timeout_fires, interval_ticks,
      close, closed, destroyed_listener, render_process_gone, gone_resume,
      unresponsive, responsive, toggle_always_on_top, window_usable,
      clear_all_intervals;
    repeat (cbn; rewrite ?Hw);
    repeat match goal with
           | |- context [willQuit h] => destruct (willQuit h)
           | |- context [timeouts h !! ?t] =>
               destruct (timeouts h !! t) as [[[] ?]|]
           | |- context [intervals h !! ?t] =>
               destruct (intervals h !! t) as [[]|]
           | |- context [gone_pending h] => destruct (gone_pending h)
           | |- context [if ?b then _ else _] => destruct b
           | |- context [match ?r with CleanExit => _ | _ => _ end] =>
               destruct r
           end;
    repeat (cbn; rewrite ?Hw);
    rewrite ?count_snoc; cbn; lia.
Qed.

(** X8: only a load-finished signal makes the host install the page
    controller: over any sequence of other events of the session (close
    to the tray, renderer gone, unresponsive and responsive, timers,
    toggles) the number of install requests stays what it was, although
    several of these events ask the page to tear the controller down. *)
Theorem installs_only_on_load (es : list Event) (h : HostState) :
  Forall (fun e => ~ is_load e) es -> installs (run h es) = installs h.
Proof.
  revert h. induction es as [|e es IH]; intros h Hes; [reflexivity|].
  inversion Hes as [|e' es' He Hes']; subst.
  cbn [run fold_left]. fold (run (step h e) es).
  by rewrite IH, installs_step_other.
Qed.

Lemma installs_only_on_load_witness :
  installs (run (step ready (DidFinishLoad 0 0 false))
              [Close false true; RenderProcessGone Killed; GoneResume;
               Unresponsive; Responsive; TimeoutFires 1]) = 1.
Proof.
  rewrite installs_only_on_load; [reflexivity|].
  repeat constructor; intros [].
Defined.

End HostFacts.

(** ** Process-wide fault listeners *)

Section FaultFacts.
Import Host.

Lemma emit_all_spec (es : list Effect) (h : HostState) :
  emit_all es h
  = {| mainWindow := mainWindow h; tray := tray h; willQuit := willQuit h;
       appEventListeners := appEventListeners h; intervals := intervals h;
       timeouts := timeouts h; next_handle := next_handle h;
       gone_pending := gone_pending h; trace := trace h ++ es;
       exited := exited h |}.
Proof.
  unfold emit_all. revert h. induction es as [|e es IH]; intros h; cbn [fold_left].
  - rewrite app_nil_r. by destruct h.
  - rewrite IH. unfold emit. cbn. by rewrite <- app_assoc.
Qed.















End FaultFacts.

(** ** Window session: interval handles *)

Section SessionFacts.
Import Host.


Lemma handles_inv_empty (n : positive) : handles_inv ∅ None None n.
Proof.
  repeat split; intros; try discriminate; rewrite lookup_empty in *; discriminate.
Qed.

Lemma session_inv_ready : session_inv ready.
Proof. apply handles_inv_empty. Qed.

Lemma handles_inv_delete_cache m c rm n :
  handles_inv m (Some c) rm n -> handles_inv (delete c m) None rm n.
Proof.
  intros (Hc & Hm & Hf). repeat split.
  - intros H. apply lookup_delete_Some in H as [Hne H]. apply Hc in H. congruence.
  - discriminate.
  - intros H. apply lookup_delete_Some in H as [_ H]. by apply Hm.
  - intros H. apply lookup_delete_Some. split; [|by apply Hm].
    intros ->. apply Hm in H. assert (m !! i = Some CacheClear) by by apply Hc.
    congruence.
  - intros i Hi. apply lookup_delete_None. right. by apply Hf.
Qed.

Lemma handles_inv_delete_memory m rc j n :
  handles_inv m rc (Some j) n -> handles_inv (delete j m) rc None n.
Proof.
  intros (Hc & Hm & Hf). repeat split.
  - intros H. apply lookup_delete_Some in H as [_ H]. by apply Hc.
  - intros H. apply lookup_delete_Some. split; [|by apply Hc].
    intros ->. apply Hc in H. assert (m !! i = Some MemoryMonitor) by by apply Hm.
    congruence.
  - intros H. apply lookup_delete_Some in H as [Hne H]. apply Hm in H. congruence.
  - discriminate.
  - intros i Hi. apply lookup_delete_None. right. by apply Hf.
Qed.

Lemma handles_inv_insert_cache m rm k n' :
  handles_inv m None rm k -> (k < n')%positive ->
  handles_inv (<[k := CacheClear]> m) (Some k) rm n'.
Proof.
  intros (Hc & Hm & Hf) Hn. assert (Hk : (k <= k)%positive) by lia. repeat split.
  - intros H. apply lookup_insert_Some in H as [[-> _]|[_ H]]; [done|].
    apply Hc in H. discriminate.
  - intros [= ->]. apply lookup_insert_eq.
  - intros H. apply lookup_insert_Some in H as [[_ [=]]|[_ H]]. by apply Hm.
  - intros H. apply Hm in H. rewrite lookup_insert_ne; [done|].
    intros ->. rewrite (Hf _ Hk) in H. discriminate.
  - intros i Hi. rewrite lookup_insert_ne by lia. apply Hf. lia.
Qed.

Lemma handles_inv_insert_memory m rc k n' :
  handles_inv m rc None k -> (k < n')%positive ->
  handles_inv (<[k := MemoryMonitor]> m) rc (Some k) n'.
Proof.
  intros (Hc & Hm & Hf) Hn. assert (Hk : (k <= k)%positive) by lia. repeat split.
  - intros H. apply lookup_insert_Some in H as [[_ [=]]|[_ H]]. by apply Hc.
  - intros H. apply Hc in H. rewrite lookup_insert_ne; [done|].
    intros ->. rewrite (Hf _ Hk) in H. discriminate.
  - intros H. apply lookup_insert_Some in H as [[-> _]|[_ H]]; [done|].
    apply Hm in H. discriminate.
  - intros [= ->]. apply lookup_insert_eq.
  - intros i Hi. rewrite lookup_insert_ne by lia. apply Hf. lia.
Qed.

Lemma handles_inv_advance m rc rm n n' :
  handles_inv m rc rm n -> (n <= n')%positive -> handles_inv m rc rm n'.
Proof.
  intros (Hc & Hm & Hf) Hn. repeat split; try apply Hc; try apply Hm.
  intros i Hi. apply Hf. lia.
Qed.

(** With the invariant, the live handles of a task are read off the
    window session. *)
Lemma handles_inv_live m rc rm n task :
  handles_inv m rc rm n ->
  dom (filter (fun kv => snd kv = task) m)
  = match (match task with CacheClear => rc | MemoryMonitor => rm end) with
    | Some i => {[ i ]}
    | None => ∅
    end.
Proof.
  intros (Hc & Hm & _). apply set_eq. intros i.
  rewrite elem_of_dom. unfold is_Some.
  setoid_rewrite map_lookup_filter_Some. cbn.
  destruct task.
  - destruct rc as [c|].
    + rewrite elem_of_singleton. split.
      * intros (x & Hx & ->). apply Hc in Hx. congruence.
      * intros ->. exists CacheClear. split; [by apply Hc | done].
    + split; [|set_solver]. intros (x & Hx & ->). apply Hc in Hx. discriminate.
  - destruct rm as [c|].
    + rewrite elem_of_singleton. split.
      * intros (x & Hx & ->). apply Hm in Hx. congruence.
      * intros ->. exists MemoryMonitor. split; [by apply Hm | done].
    + split; [|set_solver]. intros (x & Hx & ->). apply Hm in Hx. discriminate.
Qed.


Create HintDb session.
#[local] Hint Resolve handles_inv_delete_cache handles_inv_delete_memory
  handles_inv_insert_cache handles_inv_insert_memory : session.
#[local] Hint Extern 1 (_ <= _)%positive => lia : session.
#[local] Hint Extern 1 (_ < _)%positive => lia : session.
#[local] Hint Extern 5 (handles_inv _ _ _ _) =>
  eapply handles_inv_advance : session.

Ltac session_cases h :=
  unfold session_inv, recorded, window_usable in *;
  destruct (mainWindow h) as [[l st [c|] [m|] top d v]|] eqn:Hw; cbn in *;
  repeat (rewrite Hw; cbn).

Ltac session_done :=
  cbn;
  repeat match goal with
         | Hw : mainWindow _ = _ |- _ => rewrite Hw; cbn
         end;
  eauto 8 with session.

Lemma session_inv_clear_all (h : HostState) :
  session_inv h -> session_inv (clear_all_intervals h).
Proof.
  intros H. unfold clear_all_intervals. session_cases h; eauto with session.
Qed.

Lemma clear_all_keeps (h : HostState) :
  next_handle (clear_all_intervals h) = next_handle h
  /\ trace (clear_all_intervals h) = trace h
  /\ recorded CacheClear (clear_all_intervals h) = None
  /\ recorded MemoryMonitor (clear_all_intervals h) = None.
Proof.
  unfold clear_all_intervals, recorded.
  destruct (mainWindow h) as [[l st [c|] [m|] top d v]|] eqn:Hw; cbn;
    repeat (rewrite Hw; cbn); done.
Qed.

Lemma session_inv_step (h : HostState) (e : Event) :
  session_inv h -> session_inv (step h e).
Proof.
  intros H. unfold step, handle. destruct e.
  - (* did-finish-load *)
    unfold did_finish_load. session_cases h; try destruct l; try destruct sync_throw;
      session_done.
  - exact H.
  - unfold timeout_fires. destruct (timeouts h !! t) as [[[] dl]|]; cbn;
      session_cases h; session_done.
  - unfold interval_ticks. destruct (intervals h !! i) as [[]|] eqn:E; cbn;
      session_cases h; try destruct d; session_done.
  - unfold close. destruct (willQuit h); [exact H|].
    session_cases h; try destruct d; try destruct win32; try destruct teardown_ok;
      session_done.
  - unfold closed. cbn. pose proof (session_inv_clear_all h H) as H'.
    destruct (clear_all_keeps h) as (Hn & _ & Hc & Hm).
    unfold session_inv in *. rewrite Hc, Hm in H'. exact H'.
  - unfold destroyed_listener.
    pose proof (session_inv_clear_all h H) as H'.
    destruct (clear_all_keeps h) as (Hn & _ & Hc & Hm).
    destruct (mainWindow h) eqn:Hw; [|exact H].
    unfold session_inv in *. rewrite Hc, Hm in H'. exact H'.
  - unfold render_process_gone.
    pose proof (session_inv_clear_all (emit (Console WarnLevel "Renderer process gone:" []) h) H) as H1.
    pose proof (session_inv_clear_all
                  (emit (Console LogLevel "Renderer process crashed, automatic cleanup will occur on window destruction" [])
                     (emit (Console WarnLevel "Renderer process gone:" []) h)) H) as H2.
    destruct reason; cbn; try exact H2;
      destruct (window_usable _); cbn; try exact H1; exact H.
  - unfold gone_resume. destruct (gone_pending h); [exact H|].
    cbn. apply (session_inv_clear_all (set_gone_pending n h)). exact H.
  - unfold unresponsive. cbn.
    apply (session_inv_clear_all (emit _ h)). exact H.
  - unfold responsive. session_cases h; session_done.
  - unfold toggle_always_on_top. session_cases h; try destruct d; session_done.
Qed.

Lemma session_inv_run (es : list Event) (h : HostState) :
  session_inv h -> session_inv (run h es).
Proof.
  revert h. induction es as [|e es IH]; intros h H; [exact H|].
  cbn. apply IH. by apply session_inv_step.
Qed.

Lemma live_handles_recorded (task : IntervalTask) (h : HostState) :
  session_inv h ->
  live_handles task h
  = match recorded task h with Some i => {[ i ]} | None => ∅ end.
Proof.
  intros H. unfold live_handles.
  rewrite (handles_inv_live _ _ _ _ task H). by destruct task.
Qed.

Lemma live_count_recorded (task : IntervalTask) (h : HostState) :
  session_inv h ->
  live_count task h = match recorded task h with Some _ => 1 | None => 0 end.
Proof.
  intros H. unfold live_count. rewrite live_handles_recorded by done.
  destruct (recorded task h); [apply size_singleton | apply size_empty].
Qed.


(** A step records a handle that was recorded before or a new one. *)
Lemma recorded_step (h : HostState) (e : Event) (task : IntervalTask) (i : positive) :
  recorded task (step h e) = Some i ->
  recorded task h = Some i \/ (next_handle h <= i)%positive.
Proof.
  assert (Hclear : forall h0, recorded task (clear_all_intervals h0) = Some i -> False).
  { intros h0 H0. destruct (clear_all_keeps h0) as (_ & _ & Hc & Hm).
    destruct task; congruence. }
  unfold step, handle. destruct e; cbn.
  - unfold did_finish_load, recorded.
    destruct (mainWindow h) as [[l st [c|] [m|] top d v]|] eqn:Hw;
      try destruct l; try destruct sync_throw; destruct task; cbn;
      repeat (rewrite Hw; cbn);
      intros [= <-]; first [left; reflexivity | right; lia].
  - unfold injection_rejected. cbn. by left.
  - unfold timeout_fires, recorded.
    destruct (timeouts h !! t) as [[[] dl]|]; cbn;
      destruct (mainWindow h) as [[l st c m top d v]|] eqn:Hw; cbn;
      repeat (rewrite Hw; cbn);
      destruct task; cbn; intros H; left; exact H.
  - unfold interval_ticks, recorded, window_usable.
    destruct (intervals h !! i0) as [[]|]; cbn;
      destruct (mainWindow h) as [[l st c m top [] v]|] eqn:Hw; cbn;
      repeat (rewrite Hw; cbn); intros H; left; exact H.
  - unfold close, recorded, window_usable. destruct (willQuit h); [by left|].
    destruct (mainWindow h) as [[l st c m top [] v]|] eqn:Hw; cbn;
      destruct win32; destruct teardown_ok; cbn; repeat (rewrite Hw; cbn);
      destruct task; cbn; intros H; left; exact H.
  - unfold closed, recorded. cbn. discriminate.
  - unfold destroyed_listener. destruct (mainWindow h) eqn:Hw; cbn; [discriminate|by left].
  - unfold render_process_gone.
    destruct reason; cbn; try (intros H; by apply Hclear in H);
      unfold window_usable; cbn;
      destruct (mainWindow h) as [[l st c m top [] v]|] eqn:Hw; cbn;
      try (intros H; by apply Hclear in H);
      unfold recorded; cbn; rewrite Hw; intros H; left; exact H.
  - unfold gone_resume. destruct (gone_pending h); cbn; [by left|].
    intros H; by apply Hclear in H.
  - unfold unresponsive. cbn. intros H; by apply Hclear in H.
  - unfold responsive, recorded.
    destruct (mainWindow h) as [[l st [c|] [m|] top d v]|] eqn:Hw; destruct task; cbn;
      repeat (rewrite Hw; cbn);
      intros [= <-]; first [left; reflexivity | right; lia].
  - unfold toggle_always_on_top, recorded.
    destruct (mainWindow h) as [[l st c m top [] v]|] eqn:Hw; destruct task; cbn;
      repeat (rewrite Hw; cbn); intros H; left; exact H.
Qed.

(** A handle that a step drops from the session is cancelled by it. *)
Lemma replaced_handle_cancelled (h : HostState) (e : Event)
    (task : IntervalTask) (i : positive) :
  session_inv h ->
  recorded task h = Some i -> recorded task (step h e) <> Some i ->
  intervals (step h e) !! i = None.
Proof.
  intros H Hi Hne.
  pose proof (session_inv_step h e H) as (Hc' & Hm' & _).
  destruct H as (Hc & Hm & Hf).
  destruct (intervals (step h e) !! i) as [t'|] eqn:E; [exfalso|reflexivity].
  assert (Hlive : intervals h !! i = Some task)
    by (destruct task; [by apply Hc | by apply Hm]).
  assert (Hr : recorded t' (step h e) = Some i)
    by (destruct t'; [by apply Hc' | by apply Hm']).
  destruct (decide (t' = task)) as [->|Hd]; [contradiction|].
  apply recorded_step in Hr as [Hr|Hr].
  - assert (intervals h !! i = Some t')
      by (destruct t'; [by apply Hc | by apply Hm]).
    congruence.
  - rewrite (Hf i Hr) in Hlive. discriminate.
Qed.

Lemma load_to_ready_spec (t0 t1 : N) (h : HostState) (w : BrowserWindow) :
  mainWindow h = Some w -> _isLoading w = false ->
  exists w', mainWindow (load_to_ready t0 t1 h) = Some w'
             /\ _isLoading w' = false
             /\ is_Some (_cacheInterval w')
             /\ is_Some (_memoryMonitorInterval w')
             /\ installs (load_to_ready t0 t1 h) = S (installs h).
Proof.
  intros Hw Hl. unfold load_to_ready, step, handle, did_finish_load.
  rewrite Hw, Hl.
  destruct w as [l st [c|] [m|] top d v]; cbn;
    unfold timeout_fires; cbn; rewrite lookup_insert_eq; cbn;
    eexists; repeat split; try (eexists; reflexivity);
    unfold installs; cbn; rewrite count_snoc; cbn; lia.
Qed.

Lemma session_inv_load_to_ready (t0 t1 : N) (h : HostState) :
  session_inv h -> session_inv (load_to_ready t0 t1 h).
Proof. intros H. unfold load_to_ready. by do 2 apply session_inv_step. Qed.

Lemma cycles_spec (n : nat) (h : HostState) (w : BrowserWindow) :
  session_inv h -> mainWindow h = Some w -> _isLoading w = false ->
  session_inv (cycles n h)
  /\ installs (cycles n h) = n + installs h
  /\ exists w', mainWindow (cycles n h) = Some w' /\ _isLoading w' = false
                /\ (0 < n -> is_Some (_cacheInterval w')
                              /\ is_Some (_memoryMonitorInterval w')).
Proof.
  revert h w. induction n as [|n IH]; intros h w H Hw Hl.
  - split; [exact H|]. split; [reflexivity|]. exists w. repeat split; try done; lia.
  - cbn [cycles].
    destruct (load_to_ready_spec 0 0 h w Hw Hl) as (w1 & Hw1 & Hl1 & Hc1 & Hm1 & Hi1).
    destruct (IH _ w1 (session_inv_load_to_ready 0 0 h H) Hw1 Hl1)
      as (Hinv & Hi & w' & Hw' & Hl' & Hlive).
    split; [exact Hinv|]. split; [lia|].
    exists w'. split; [exact Hw'|]. split; [exact Hl'|]. intros _.
    destruct n as [|n]; [|apply Hlive; lia].
    cbn in Hw'. rewrite Hw1 in Hw'. injection Hw' as <-. done.
Qed.

(** C2: after every sequence of events of a window session (load-finished,
    a rejected injection, timeouts and ticks, close-to-tray, closed,
    destroyed, renderer gone in both phases, unresponsive, responsive,
    toggle) there is at most one live cache-clear interval and at most
    one live memory-probe interval, and the live handles of a task are
    exactly the handle recorded on the window; a handle that an event
    drops from the session is cancelled by that event; and after any
    positive number of load-to-ready cycles each task has exactly one
    live handle. *)
Theorem timer_handle_invariant :
  (forall es : list Event,
      let h := run ready es in
      live_count CacheClear h <= 1
      /\ live_count MemoryMonitor h <= 1
      /\ (forall task i, i ∈ live_handles task h <-> recorded task h = Some i)
      /\ (forall e task i,
            recorded task h = Some i -> recorded task (step h e) <> Some i ->
            intervals (step h e) !! i = None))
  /\ (forall n : nat,
        live_count CacheClear (cycles (S n) ready) = 1
        /\ live_count MemoryMonitor (cycles (S n) ready) = 1
        /\ installs (cycles (S n) ready) = S n)
  /\ (forall (es : list Event) (n : nat) (w : BrowserWindow),
        mainWindow (run ready es) = Some w -> _isLoading w = false ->
        live_count CacheClear (cycles (S n) (run ready es)) = 1
        /\ live_count MemoryMonitor (cycles (S n) (run ready es)) = 1).
Proof.
  assert (Hcyc : forall h w n, session_inv h -> mainWindow h = Some w ->
                               _isLoading w = false ->
                               live_count CacheClear (cycles (S n) h) = 1
                               /\ live_count MemoryMonitor (cycles (S n) h) = 1).
  { intros h w n H Hw Hl.
    destruct (cycles_spec (S n) h w H Hw Hl) as (Hinv & _ & w' & Hw' & _ & Hlive).
    destruct Hlive as [[c Hc] [m Hm]]; [lia|].
    rewrite !live_count_recorded by exact Hinv. unfold recorded.
    rewrite Hw', Hc, Hm. done. }
  split; [|split].
  - intros es h. assert (H : session_inv h) by apply session_inv_run, session_inv_ready.
    rewrite !live_count_recorded by exact H.
    split; [destruct (recorded CacheClear h); lia|].
    split; [destruct (recorded MemoryMonitor h); lia|].
    split.
    + intros task i. rewrite live_handles_recorded by exact H.
      destruct (recorded task h) as [j|]; [rewrite elem_of_singleton|]; set_solver.
    + intros e task i. by apply replaced_handle_cancelled.
  - intros n.
    destruct (Hcyc ready new_window n session_inv_ready eq_refl eq_refl) as [H1 H2].
    split; [exact H1|]. split; [exact H2|].
    destruct (cycles_spec (S n) ready new_window session_inv_ready eq_refl eq_refl)
      as (_ & Hi & _). rewrite Hi. change (installs ready) with 0. lia.
  - intros es n w Hw Hl. apply (Hcyc _ w); try assumption.
    apply session_inv_run, session_inv_ready.
Qed.

Lemma timer_handle_invariant_witness :
  live_count CacheClear
    (cycles 3 (run ready [DidFinishLoad 0 7 false; TimeoutFires 1; Unresponsive;
                          Responsive])) = 1.
Proof.
  pose proof timer_handle_invariant as (_ & _ & H).
  apply (H [DidFinishLoad 0 7 false; TimeoutFires 1; Unresponsive; Responsive]%N 2
           {| _isLoading := false; _loadingStartTime := None;
              _cacheInterval := Some 4%positive; _memoryMonitorInterval := None;
              alwaysOnTop := false; destroyed := false; visible := false |}).
  - vm_compute. reflexivity.
  - reflexivity.
Defined.

(** *** The events that stop the timers *)

Lemma intervals_empty (h : HostState) :
  session_inv h -> recorded CacheClear h = None ->
  recorded MemoryMonitor h = None -> intervals h = ∅.
Proof.
  intros (Hc & Hm & _) Ec Em. rewrite Ec in Hc. rewrite Em in Hm.
  apply map_eq. intros i. rewrite lookup_empty.
  destruct (intervals h !! i) as [[]|] eqn:E; [| |reflexivity].
  - apply Hc in E. discriminate E.
  - apply Hm in E. discriminate E.
Qed.

Lemma intervals_clear_all (h : HostState) :
  session_inv h -> intervals (clear_all_intervals h) = ∅.
Proof.
  intros H. destruct (clear_all_keeps h) as (_ & _ & Hc & Hm).
  by apply intervals_empty; [apply session_inv_clear_all| |].
Qed.

(** X9: the end of the window ends its timers: after the closed or the
    destroyed event of the window, in whatever state of the session it
    arrives, the reference to the window is null and no interval of the
    session is live any more, so that a late tick finds nothing to do; a
    reset timeout that fires afterwards finds no window and does nothing
    either. *)
Theorem window_end_cancels_timers (es : list Event) (e : Event) :
  e = Closed \/ e = Destroyed ->
  let h' := step (run ready es) e in
  mainWindow h' = None
  /\ intervals h' = ∅
  /\ trace h' = trace (run ready es)
  /\ (forall i, step h' (IntervalTicks i) = h')
  /\ (forall t, threw (handle (TimeoutFires t) h') = None
                /\ mainWindow (step h' (TimeoutFires t)) = None
                /\ intervals (step h' (TimeoutFires t)) = ∅).
Proof.
  intros He h'.
  assert (H : session_inv (run ready es)) by apply session_inv_run, session_inv_ready.
  assert (H' : session_inv h') by by apply session_inv_step.
  destruct (clear_all_keeps (run ready es)) as (_ & Ht & _).
  assert (Hw : mainWindow h' = None /\ trace h' = trace (run ready es)).
  { unfold h', step. destruct He as [-> | ->]; cbn [handle].
    - unfold closed. cbn. by rewrite Ht.
    - unfold destroyed_listener.
      destruct (mainWindow (run ready es)) eqn:E; cbn; [by rewrite Ht | done]. }
  destruct Hw as [Hw Htr].
  assert (Hi : intervals h' = ∅)
    by (apply intervals_empty; [exact H' | |]; unfold recorded; by rewrite Hw).
  split; [exact Hw|]. split; [exact Hi|]. split; [exact Htr|]. split.
  - intros i. unfold step. cbn [handle]. unfold interval_ticks.
    by rewrite Hi, lookup_empty.
  - intros t. unfold step. cbn [handle]. unfold timeout_fires.
    destruct (timeouts h' !! t) as [[[] d]|]; cbn; rewrite ?Hw; cbn; done.
Qed.

Lemma window_end_cancels_timers_witness :
  intervals (step (run ready [DidFinishLoad 0 0 false; Close false true]) Closed)
  = ∅.
Proof.
  exact (proj1 (proj2 (window_end_cancels_timers
                         [DidFinishLoad 0 0 false; Close false true] Closed
                         (or_introl eq_refl)))).
Defined.

(** X10: an unresponsive renderer stops both intervals; when it is
    responsive again the cache-clear interval is restarted, once, but
    the memory probe is not: it comes back only with the next
    load-finished signal that is not skipped as a duplicate. *)
Theorem responsive_restarts_cache_only (es : list Event) (w : BrowserWindow)
    (t0 t1 : N) (x : bool) :
  mainWindow (run ready es) = Some w ->
  let h1 := step (run ready es) Unresponsive in
  let h2 := step h1 Responsive in
  let h3 := step h2 (DidFinishLoad t0 t1 x) in
  intervals h1 = ∅
  /\ intervals h2 = {[ next_handle (run ready es) := CacheClear ]}
  /\ live_count CacheClear h2 = 1
  /\ live_count MemoryMonitor h2 = 0
  /\ live_count CacheClear h3 = 1
  /\ live_count MemoryMonitor h3 = (if _isLoading w then 0 else 1).
Proof.
  intros Hw h1 h2 h3.
  assert (H : session_inv (run ready es)) by apply session_inv_run, session_inv_ready.
  assert (H1 : session_inv h1) by by apply session_inv_step.
  assert (H2 : session_inv h2) by by apply session_inv_step.
  assert (H3 : session_inv h3) by by apply session_inv_step.
  assert (Hi1 : intervals h1 = ∅).
  { unfold h1, step. cbn [handle]. unfold unresponsive. cbn [after done].
    by apply (intervals_clear_all (emit _ _)). }
  rewrite !live_count_recorded by assumption.
  assert (E1 : mainWindow h1 = Some (w_memory None (w_cache None w))
               /\ next_handle h1 = next_handle (run ready es)).
  { unfold h1, step. cbn [handle]. unfold unresponsive, clear_all_intervals.
    destruct w as [l st [c|] [m|] top d v]; cbn; repeat (rewrite Hw; cbn); done. }
  destruct E1 as [E1 En1]. clearbody h1.
  assert (E2 : h2 = set_window
                      (Some (w_cache (Some (next_handle (run ready es)))
                               (w_memory None (w_cache None w))))
                      (snd (setInterval CacheClear
                              (emit (Console LogLevel
                                       "Renderer process is responsive again" [])
                                 h1)))).
  { unfold h2, step. cbn [handle]. unfold responsive. cbn. rewrite E1. cbn.
    by rewrite En1. }
  split; [exact Hi1|].
  split; [rewrite E2; cbn; by rewrite Hi1, En1|].
  split; [rewrite E2; reflexivity|].
  split; [rewrite E2; reflexivity|].
  unfold h3, step. cbn [handle]. unfold did_finish_load. rewrite E2.
  destruct w as [l st c m top d v]. cbn. destruct l; cbn; [done|].
  destruct x; done.
Qed.

Lemma responsive_restarts_cache_only_witness :
  live_count MemoryMonitor
    (step (step (run ready [DidFinishLoad 0 0 false]) Unresponsive) Responsive)
  = 0.
Proof.
  exact (proj1 (proj2 (proj2 (proj2
           (responsive_restarts_cache_only [DidFinishLoad 0 0 false]
              (w_memory (Some 3%positive)
                 (w_cache (Some 2%positive) (w_loading true (Some 0%N) new_window)))
              0 0 false eq_refl))))).
Defined.

Lemma clear_all_keeps_window (h : HostState) :
  is_Some (mainWindow (clear_all_intervals h)) <-> is_Some (mainWindow h).
Proof.
  unfold clear_all_intervals.
  destruct (mainWindow h) as [[l st [c|] [m|] top d v]|] eqn:Hw; cbn;
    repeat (rewrite Hw; cbn); done.
Qed.

(** X11: a renderer that is gone stops the timers of the session but not the
    session: for the reasons 'killed' and 'clean-exit' on a usable
    window the listener first asks the page for one teardown and clears
    the intervals when that call has settled; for every other reason, or
    without a usable window, it asks the page for nothing and clears the
    intervals at once. Either way no interval is live afterwards and the
    window reference is kept. *)
Theorem renderer_gone_stops_timers (es : list Event) (reason : GoneReason) :
  let h := run ready es in
  let h1 := step h (RenderProcessGone reason) in
  let h2 := step h1 GoneResume in
  let awaits := match reason with
                | Killed | CleanExit => window_usable h
                | _ => false
                end in
  intervals h2 = ∅
  /\ (is_Some (mainWindow h2) <-> is_Some (mainWindow h))
  /\ count is_Teardown (trace h1)
     = count is_Teardown (trace h) + (if awaits then 1 else 0)
  /\ (awaits = false -> intervals h1 = ∅)
  /\ (awaits = true -> intervals h1 = intervals h
                      /\ gone_pending h1 = S (gone_pending h)).
Proof.
  intros h h1 h2 awaits.
  assert (H : session_inv h) by apply session_inv_run, session_inv_ready.
  clearbody h.
  assert (H1 : session_inv h1) by by apply session_inv_step.
  assert (Hb : awaits = false -> intervals h1 = ∅
                                /\ gone_pending h1 = gone_pending h
                                /\ (is_Some (mainWindow h1) <-> is_Some (mainWindow h))
                                /\ count is_Teardown (trace h1)
                                   = count is_Teardown (trace h)).
  { intros Ha. unfold h1, step. cbn [handle]. unfold render_process_gone.
    change (window_usable (emit (Console WarnLevel "Renderer process gone:" []) h))
      with (window_usable h).
    assert (Hc : forall h0, session_inv h0 ->
                   intervals (clear_all_intervals h0) = ∅
                   /\ gone_pending (clear_all_intervals h0) = gone_pending h0
                   /\ (is_Some (mainWindow (clear_all_intervals h0))
                       <-> is_Some (mainWindow h0))
                   /\ trace (clear_all_intervals h0) = trace h0).
    { intros h0 H0. split; [by apply intervals_clear_all|].
      split; [|split; [apply clear_all_keeps_window | apply clear_all_keeps]].
      unfold clear_all_intervals.
      destruct (mainWindow h0) as [[l st [c|] [m|] top d v]|] eqn:Hw; cbn;
        repeat (rewrite Hw; cbn); done. }
    destruct reason; unfold awaits in Ha; cbv beta iota in Ha; rewrite ?Ha;
      cbn [after done];
      match goal with
      | |- context [clear_all_intervals ?h0] =>
          destruct (Hc h0 H) as (-> & -> & -> & ->)
      end;
      cbn; rewrite ?count_snoc; cbn; (split; [done|]); (split; [done|]);
      (split; [done | lia]). }
  assert (Ha : awaits = true -> intervals h1 = intervals h
                                /\ gone_pending h1 = S (gone_pending h)
                                /\ mainWindow h1 = mainWindow h
                                /\ count is_Teardown (trace h1)
                                   = S (count is_Teardown (trace h))).
  { intros Ha. unfold h1, step. cbn [handle]. unfold render_process_gone.
    change (window_usable (emit (Console WarnLevel "Renderer process gone:" []) h))
      with (window_usable h).
    destruct reason; unfold awaits in Ha; cbv beta iota in Ha;
      try discriminate Ha; rewrite Ha; cbn;
      rewrite !count_snoc; cbn; repeat split; lia. }
  assert (Hi2 : intervals h2 = ∅
                /\ (is_Some (mainWindow h2) <-> is_Some (mainWindow h1))).
  { unfold h2, step. cbn [handle]. unfold gone_resume.
    destruct (gone_pending h1) as [|n] eqn:Eg; cbn [after done].
    - split; [|done]. destruct awaits.
      + destruct (Ha eq_refl) as (_ & Eg' & _). congruence.
      + by destruct (Hb eq_refl).
    - split.
      + by apply (intervals_clear_all (set_gone_pending n h1)).
      + apply (clear_all_keeps_window (set_gone_pending n h1)). }
  destruct Hi2 as [Hi2 Hw2].
  split; [exact Hi2|]. destruct awaits.
  - destruct (Ha eq_refl) as (Hi & Hg & Hw & Hc). rewrite Hw in Hw2.
    split; [exact Hw2|]. split; [lia|]. split; [discriminate | done].
  - destruct (Hb eq_refl) as (Hi & Hg & Hw & Hc). rewrite Hw in Hw2.
    split; [exact Hw2|]. split; [lia|]. split; [done | discriminate].
Qed.

Lemma renderer_gone_stops_timers_witness :
  intervals (step (run ready [DidFinishLoad 0 0 false]) (RenderProcessGone Crashed))
  = ∅.
Proof.
  exact (proj1 (proj2 (proj2 (proj2
           (renderer_gone_stops_timers [DidFinishLoad 0 0 false] Crashed))))
           eq_refl).
Defined.

End SessionFacts.

(** ** The tray menu and the application listeners *)

Section AppFacts.
Import Host App.

Ltac listener_cases h e :=
  destruct (mainWindow h) as [[l st [c|] [m|] top d v]|] eqn:Hw;
  destruct e; cbn [handle];
  unfold did_finish_load, injection_rejected, timeout_fires, interval_ticks,
    close, closed, destroyed_listener, render_process_gone, gone_resume,
    unresponsive, responsive, toggle_always_on_top, window_usable,
    clear_all_intervals;
  repeat (cbn; rewrite ?Hw);
  repeat match goal with
         | |- context [willQuit h] => destruct (willQuit h) eqn:?
         | |- context [timeouts h !! ?t] =>
             destruct (timeouts h !! t) as [[[] ?]|] eqn:?
         | |- context [intervals h !! ?t] =>
             destruct (intervals h !! t) as [[]|] eqn:?
         | |- context [gone_pending h] => destruct (gone_pending h) eqn:?
         | |- context [if ?b then _ else _] => destruct b
         | |- context [match ?r with CleanExit => _ | _ => _ end] =>
             destruct r
         end;
  repeat (cbn; rewrite ?Hw).

Lemma willQuit_step (e : Event) (h : HostState) :
  willQuit (step h e) = willQuit h.
Proof. unfold step. listener_cases h e; congruence. Qed.

Lemma willQuit_run (es : list Event) (h : HostState) :
  willQuit (run h es) = willQuit h.
Proof.
  revert h. induction es as [|e es IH]; intros h; [reflexivity|].
  cbn [run fold_left]. fold (run (step h e) es). by rewrite IH, willQuit_step.
Qed.

Lemma running_ready : running ready.
Proof. split; [reflexivity|]. split; [reflexivity|]. intros t task d H. done. Qed.

Lemma running_step (e : Event) (h : HostState) : running h -> running (step h e).
Proof.
  intros (Hq & Hx & Ht). split; [by rewrite willQuit_step|].
  assert (Hf : forall t d, timeouts h !! t <> Some (ForcedExit, d)).
  { intros t d E. apply Ht in E. discriminate E. }
  unfold step. listener_cases h e;
    try (exfalso; eapply Hf; eassumption);
    (split; [assumption|]);
    intros t' task' d';
    rewrite ?lookup_insert, ?lookup_delete;
    repeat case_decide; try discriminate; try apply Ht;
    intros [= <- _]; reflexivity.
Qed.

Lemma running_run (es : list Event) (h : HostState) :
  running h -> running (run h es).
Proof.
  revert h. induction es as [|e es IH]; intros h H; [exact H|].
  cbn [run fold_left]. fold (run (step h e) es). by apply IH, running_step.
Qed.

(** X12: the close button never ends the application: in every state a
    window session reaches from the ready state the application is not
    quitting and the process has not exited, and a close request on the
    window is prevented; the page is asked for one teardown when the
    window is not destroyed, the window is hidden, the timers of the
    session keep running, and the process goes on. *)
Theorem close_button_never_quits (es : list Event) (win32 ok : bool)
    (w : BrowserWindow) :
  mainWindow (run ready es) = Some w ->
  let h := run ready es in
  let o := close win32 ok h in
  willQuit h = false
  /\ threw o = None
  /\ exited (after o) = None
  /\ mainWindow (after o) = Some (w_visible false w)
  /\ intervals (after o) = intervals h
  /\ timeouts (after o) = timeouts h
  /\ exists rest,
       trace (after o) = trace h ++ PreventDefault :: rest
       /\ count is_Teardown rest = (if destroyed w then 0 else 1)
       /\ HideWindow ∈ rest
       /\ count is_Exit rest = 0.
Proof.
  intros Hw h o.
  destruct (running_run es ready running_ready) as (Hq & Hx & _).
  fold h in Hq, Hx, Hw. clearbody h.
  split; [exact Hq|]. unfold o, close, window_usable. rewrite Hq. cbn.
  repeat (rewrite ?Hw; cbn).
  destruct (destroyed w), ok, win32; repeat (rewrite ?Hw; cbn);
    (split; [reflexivity|]); (split; [exact Hx|]); (split; [reflexivity|]);
    (split; [reflexivity|]); (split; [reflexivity|]);
    rewrite <- ?app_assoc; cbn; eexists; (split; [reflexivity|]);
    (split; [reflexivity|]); (split; [|reflexivity]);
    repeat first [ by left | right ].
Qed.

Lemma close_button_never_quits_witness :
  exited (after (close false true (run ready [DidFinishLoad 0 0 false]))) = None.
Proof.
  exact (proj1 (proj2 (proj2
           (close_button_never_quits [DidFinishLoad 0 0 false] false true
              (w_memory (Some 3%positive)
                 (w_cache (Some 2%positive)
                    (w_loading true (Some 0%N) new_window)))
              eq_refl)))).
Defined.

(** X13: quitting: the tray item 'Exit' and the 'before-quit' listener set
    the quit flag, 'Exit' also asks the application to quit; no event of
    the window session resets the flag, and from then on the close
    listener lets every close request through without preventing it,
    hiding the window or asking the page for a teardown. *)
Theorem quitting_lets_close_through (a a' : AppState) (es : list Event)
    (win32 ok : bool) :
  a' = tray_exit a \/ a' = before_quit a ->
  willQuit (run (host a') es) = true
  /\ close win32 ok (run (host a') es) = done (run (host a') es)
  /\ calls (tray_exit a) = calls a ++ [AppQuit]
  /\ calls (before_quit a) = calls a
  /\ trace (host a') = trace (host a).
Proof.
  intros Ha.
  assert (Hq : willQuit (host a') = true) by (destruct Ha as [-> | ->]; reflexivity).
  split; [by rewrite willQuit_run|].
  split; [unfold close; by rewrite willQuit_run, Hq|].
  split; [reflexivity|]. split; [reflexivity|].
  destruct Ha as [-> | ->]; reflexivity.
Qed.

Lemma quitting_lets_close_through_witness :
  close false true
    (run (host (tray_exit {| host := ready; calls := [] |}))
       [DidFinishLoad 0 0 false])
  = done (run (host (tray_exit {| host := ready; calls := [] |}))
            [DidFinishLoad 0 0 false]).
Proof.
  exact (proj1 (proj2
           (quitting_lets_close_through {| host := ready; calls := [] |} _
              [DidFinishLoad 0 0 false] false true (or_introl eq_refl)))).
Defined.

(** X14: the tray item 'Show/Hide' on a usable window flips the visibility
    of the window: a visible window is hidden, a hidden one is shown and
    focused, and two clicks leave the window as it was. Timers and the
    quit flag are not touched. *)
Theorem tray_show_hide_toggles (a : AppState) (w : BrowserWindow) :
  mainWindow (host a) = Some w -> destroyed w = false ->
  exists a1 a2,
    tray_show_hide a = Ok a1 /\ tray_show_hide a1 = Ok a2
    /\ mainWindow (host a1) = Some (w_visible (negb (visible w)) w)
    /\ mainWindow (host a2) = Some w
    /\ intervals (host a2) = intervals (host a)
    /\ willQuit (host a2) = willQuit (host a)
    /\ calls a1 = calls a ++ (if visible w then [] else [WindowShow; WindowFocus])
    /\ trace (host a1) = trace (host a) ++ (if visible w then [HideWindow] else []).
Proof.
  intros Hw Hd. unfold tray_show_hide, receiver. rewrite Hw, Hd.
  destruct w as [l st c m top d v]. cbn in Hd. subst d.
  destruct v; cbn; do 2 eexists; (split; [reflexivity|]); cbn;
    rewrite <- ?app_assoc, ?app_nil_r; repeat split; reflexivity.
Qed.

Lemma tray_show_hide_toggles_witness :
  exists a1, tray_show_hide {| host := ready; calls := [] |} = Ok a1
             /\ mainWindow (host a1) = Some (w_visible true new_window).
Proof.
  destruct (tray_show_hide_toggles {| host := ready; calls := [] |} new_window
              eq_refl eq_refl) as (a1 & a2 & E1 & _ & Hw & _).
  exists a1. split; [exact E1 | exact Hw].
Defined.

(** X15: without a main window the tray items differ: 'Show/Hide' and the
    double click call a method on the null reference and throw,
    'Refresh' tests the reference first and does nothing, and 'Open
    Bluesky in Browser' opens the home page whatever the state of the
    window. *)
Theorem tray_items_without_window (a : AppState) :
  mainWindow (host a) = None ->
  tray_show_hide a = Throw "TypeError"
  /\ tray_double_click a = Throw "TypeError"
  /\ tray_refresh a = Ok a
  /\ trace (host (tray_open_in_browser a))
     = trace (host a) ++ [OpenExternal (sample "https://bsky.app")]
  /\ isSafeUrl URL_fragment (sample "https://bsky.app") = true.
Proof.
  intros Hw. unfold tray_show_hide, tray_double_click, tray_refresh, receiver.
  rewrite Hw. repeat split; vm_compute; reflexivity.
Qed.

Lemma tray_items_without_window_witness :
  tray_show_hide start = Throw "TypeError" /\ tray_refresh start = Ok start.
Proof.
  destruct (tray_items_without_window start eq_refl) as (H1 & _ & H2 & _).
  split; [exact H1 | exact H2].
Defined.

(** X16: a window hidden to the tray comes back without its page controller:
    the close listener asks the page for a teardown before it hides the
    window, and 'Show/Hide' (or the double click) shows and focuses the
    window again but asks the page for nothing, so no install request
    follows the teardown. *)
Theorem restore_from_tray_without_controller
    (a : AppState) (w : BrowserWindow) (win32 ok : bool) :
  mainWindow (host a) = Some w -> destroyed w = false ->
  willQuit (host a) = false ->
  let a1 := on_host (fun h => after (close win32 ok h)) a in
  exists a2,
    tray_show_hide a1 = Ok a2
    /\ tray_double_click a1 = Ok a2
    /\ mainWindow (host a2) = Some (w_visible true w)
    /\ calls a2 = calls a ++ [WindowShow; WindowFocus]
    /\ trace (host a2) = trace (host a1)
    /\ count is_Teardown (trace (host a2)) = S (count is_Teardown (trace (host a)))
    /\ installs (host a2) = installs (host a).
Proof.
  intros Hw Hd Hq a1.
  assert (E : mainWindow (host a1) = Some (w_visible false w)
              /\ installs (host a1) = installs (host a)
              /\ count is_Teardown (trace (host a1))
                 = S (count is_Teardown (trace (host a)))
              /\ calls a1 = calls a).
  { unfold a1, on_host, close, window_usable, installs. cbn. rewrite Hq. cbn.
    repeat (rewrite ?Hw, ?Hd; cbn).
    destruct ok, win32; repeat (rewrite ?Hw, ?Hd; cbn);
      rewrite !count_snoc; cbn; repeat split; lia. }
  destruct E as (E & Hi & Ht & Hc). clearbody a1.
  unfold tray_show_hide, tray_double_click, receiver. rewrite E. cbn. rewrite Hd.
  eexists. split; [reflexivity|]. split; [reflexivity|].
  unfold installs in *. cbn. rewrite <- app_assoc, Hc.
  repeat split; assumption.
Qed.

Lemma restore_from_tray_without_controller_witness :
  installs (host (on_host (fun h => after (close false true h))
                    {| host := step ready (DidFinishLoad 0 0 false); calls := [] |}))
  = 1.
Proof.
  destruct (restore_from_tray_without_controller
              {| host := step ready (DidFinishLoad 0 0 false); calls := [] |}
              (w_memory (Some 3%positive)
                 (w_cache (Some 2%positive)
                    (w_loading true (Some 0%N) new_window)))
              false true eq_refl eq_refl eq_refl)
    as (a2 & _ & _ & _ & _ & Ht & _ & Hi).
  unfold installs in *. rewrite <- Ht. exact Hi.
Defined.

Lemma addAppListener_fold (evs : list string) (a : AppState) :
  let a' := fold_left (fun a e => addAppListener e a) evs a in
  appEventListeners (host a') = appEventListeners (host a) ++ evs
  /\ calls a' = calls a ++ (AppOn <$> evs)
  /\ trace (host a') = trace (host a)
  /\ tray (host a') = tray (host a).
Proof.
  revert a. induction evs as [|e evs IH]; intros a; cbn.
  - by rewrite !app_nil_r.
  - destruct (IH (addAppListener e a)) as (H1 & H2 & H3 & H4).
    rewrite H1, H2, H3, H4. cbn. by rewrite <- !app_assoc.
Qed.

(** X17: every listener registered through [addAppListener] is removed by
    [cleanupApp], once and in the order of registration, and the tray is
    destroyed; after that nothing is registered, and a second cleanup
    has no effect at all. When the destruction of the tray throws, the
    listeners are removed all the same and the tray reference is kept.
    The five registrations of main.js are the listeners of the ready
    state. *)
Theorem cleanupApp_removes_registrations (evs : list string) (a : AppState) :
  let a' := fold_left (fun a e => addAppListener e a) evs a in
  let o := cleanupApp false (host a') in
  appEventListeners (host a') = appEventListeners (host a) ++ evs
  /\ calls a' = calls a ++ (AppOn <$> evs)
  /\ threw o = None
  /\ trace (after o)
     = trace (host a) ++ (AppOff <$> (appEventListeners (host a) ++ evs))
       ++ (if tray (host a) then [TrayDestroy] else [])
  /\ appEventListeners (after o) = []
  /\ tray (after o) = false
  /\ (forall b, cleanupApp b (after o) = done (after o))
  /\ (tray (host a) = true ->
      threw (cleanupApp true (host a')) = Some "Error"%string
      /\ appEventListeners (after (cleanupApp true (host a'))) = []
      /\ tray (after (cleanupApp true (host a'))) = true)
  /\ appEventListeners
       (host (fold_left (fun a e => addAppListener e a) registrations start))
     = appEventListeners ready.
Proof.
  intros a' o. destruct (addAppListener_fold evs a) as (Hl & Hc & Ht & Hy).
  fold a' in Hl, Hc, Ht, Hy. unfold o. clearbody a'.
  split; [exact Hl|]. split; [exact Hc|].
  assert (Hidem : forall h, appEventListeners h = [] -> tray h = false ->
                            forall b, cleanupApp b h = done h).
  { intros h El Et b. unfold cleanupApp. rewrite El. cbn. rewrite Et.
    destruct h. cbn in *. by subst. }
  assert (Hfin : threw (cleanupApp false (host a')) = None
                 /\ trace (after (cleanupApp false (host a')))
                    = trace (host a)
                      ++ (AppOff <$> (appEventListeners (host a) ++ evs))
                      ++ (if tray (host a) then [TrayDestroy] else [])
                 /\ appEventListeners (after (cleanupApp false (host a'))) = []
                 /\ tray (after (cleanupApp false (host a'))) = false).
  { unfold cleanupApp. rewrite !emit_all_spec. cbn. rewrite Hl, Ht, Hy.
    destruct (tray (host a)); cbn; rewrite ?app_nil_r, <- ?app_assoc; done. }
  destruct Hfin as (H1 & H2 & H3 & H4).
  split; [exact H1|]. split; [exact H2|]. split; [exact H3|].
  split; [exact H4|]. split; [by apply Hidem|]. split; [|reflexivity].
  intros Hy'. unfold cleanupApp. rewrite !emit_all_spec. cbn. rewrite Hy, Hy'.
  done.
Qed.

Lemma cleanupApp_removes_registrations_witness :
  threw (cleanupApp true
           (host (fold_left (fun a e => addAppListener e a) ["activate"%string]
                    {| host := ready; calls := [] |})))
  = Some "Error"%string.
Proof.
  exact (proj1 (proj1 (proj2 (proj2 (proj2 (proj2 (proj2 (proj2 (proj2
           (cleanupApp_removes_registrations ["activate"%string]
              {| host := ready; calls := [] |}))))))))
           eq_refl)).
Defined.

(** X18: when all windows are closed the application quits, except on macOS
    where the listener does nothing: elsewhere it first removes the
    registered listeners and destroys the tray, then asks the
    application to quit. When the destruction of the tray throws, the
    listener ends there, and the quit is never requested. *)
Theorem window_all_closed_quits (a : AppState) :
  window_all_closed true false a = Ok a
  /\ window_all_closed true true a = Ok a
  /\ (exists a', window_all_closed false false a = Ok a'
                 /\ calls a' = calls a ++ [AppQuit]
                 /\ appEventListeners (host a') = []
                 /\ tray (host a') = false
                 /\ willQuit (host a') = willQuit (host a)
                 /\ trace (host a')
                    = trace (host a) ++ (AppOff <$> appEventListeners (host a))
                      ++ (if tray (host a) then [TrayDestroy] else []))
  /\ (tray (host a) = true ->
      window_all_closed false true a = Throw "Error")
  /\ (tray (host a) = false ->
      exists a', window_all_closed false true a = Ok a'
                 /\ calls a' = calls a ++ [AppQuit]).
Proof.
  split; [reflexivity|]. split; [reflexivity|].
  unfold window_all_closed, cleanupApp. rewrite !emit_all_spec. cbn.
  destruct (tray (host a)); cbn;
    (split; [eexists; split; [reflexivity|];
             cbn; rewrite ?app_nil_r, <- ?app_assoc; repeat split; reflexivity|]);
    (split; [try done|]); try done.
  intros _. eexists. split; reflexivity.
Qed.

Lemma window_all_closed_quits_witness :
  window_all_closed false true {| host := ready; calls := [] |} = Throw "Error".
Proof.
  exact (proj1 (proj2 (proj2 (proj2
           (window_all_closed_quits {| host := ready; calls := [] |}))))
           eq_refl).
Defined.

End AppFacts.

(** ** Scroll-to-refresh gesture *)

Section GestureFacts.
Import Page.

Lemma Qltb_lt (a b : Q) : Qltb a b = true <-> (a < b)%Q.
Proof.
  unfold Qltb. rewrite negb_true_iff, <- not_true_iff_false, Qle_bool_iff.
  split; [apply Qnot_le_lt | apply Qlt_not_le].
Qed.

Lemma Qltb_ge (a b : Q) : Qltb a b = false <-> (b <= a)%Q.
Proof.
  unfold Qltb. rewrite negb_false_iff. apply Qle_bool_iff.
Qed.

Lemma shown_set_shown_false (n : positive) (w : World) :
  shown n (set_shown n false w) = false.
Proof.
  unfold shown, set_shown. cbn [nodes]. induction (nodes w) as [|x l IH]; [reflexivity|].
  cbn. rewrite IH, orb_false_r.
  destruct (decide (n_ref x = n)) as [E|E].
  - rewrite (bool_decide_eq_true_2 _ E). cbn. rewrite (bool_decide_eq_true_2 _ E).
    reflexivity.
  - rewrite !(bool_decide_eq_false_2 _ E). reflexivity.
Qed.

Lemma wheel_rejected (ev : option WheelEvent) (m : Manager) (w : World) :
  rejected ev -> do_handleWheel ev m w = (m, w).
Proof.
  unfold rejected, do_handleWheel. destruct ev as [[dy]|]; [|reflexivity].
  cbn [deltaY]. destruct (finite_number dy) as [q|]; [|reflexivity].
  intros H. apply Qltb_lt in H. rewrite H. reflexivity.
Qed.

Lemma wheel_downward (dy : Q) (m : Manager) (w : World) :
  isAtTop (data m) = true -> (0 <= dy)%Q -> (dy <= 1000)%Q ->
  let r := do_handleWheel (wheel dy) m w in
  wheelDeltaAccumulator (data (fst r)) = 0%Q
  /\ indicatorTimeout (timeouts (fst r)) = None
  /\ (forall t, indicatorTimeout (timeouts m) = Some t ->
                live_timeouts (snd r) !! t = None)
  /\ (forall n, indicator (elements m) = Some n -> shown n (snd r) = false)
  /\ listeners (snd r) = listeners w
  /\ live_intervals (snd r) = live_intervals w.
Proof.
  intros Htop H0 H1. unfold do_handleWheel, wheel. cbn.
  assert (Ha : Qltb 1000 (Qabs dy) = false).
  { apply Qltb_ge. rewrite Qabs_pos; assumption. }
  assert (Hn : Qltb dy 0 = false) by by apply Qltb_ge.
  rewrite Ha, Htop, Hn. cbn.
  unfold hideRefreshIndicator. cbn.
  destruct (indicatorTimeout (timeouts m)) as [t|] eqn:Et; cbn.
  - repeat split; try done.
    + intros t' [= <-]. apply lookup_delete_eq.
    + intros n ->. cbn. apply shown_set_shown_false.
    + by destruct (indicator (elements m)).
    + by destruct (indicator (elements m)).
  - repeat split; try done.
    + intros n ->. apply shown_set_shown_false.
    + by destruct (indicator (elements m)).
    + by destruct (indicator (elements m)).
Qed.

(** C9: on a freshly injected page (at scroll-top, threshold magnitude
    150) an upward wheel delta of 60 leaves the accumulator at 60, below
    the threshold, with no indicator and no timer; a following upward
    delta of 100 brings it to 160, which crosses the threshold, shows the
    indicator and arms one single-shot reload timer of 500 ms; a
    following downward delta sets the accumulator to zero, hides the
    indicator and cancels that timer, so that its firing no longer
    reloads.  A wheel event whose delta is not a finite number, or has
    magnitude above 1000, leaves registry and page context untouched.
    At scroll-top every downward (or zero) delta of magnitude at most
    1000 resets the accumulator, cancels the pending reload and hides
    the indicator. *)
Theorem wheel_gesture_scenario :
  (exists p0 p1 p2 p3 t,
      install fresh_page = Ok p0
      /\ page_step p0 (Wheel (wheel (-60))) = Ok p1
      /\ page_step p1 (Wheel (wheel (-100))) = Ok p2
      /\ page_step p2 (Wheel (wheel 40)) = Ok p3
      /\ (accumulator p0 = Some 0%Q /\ indicator_visible p0 = false
          /\ reload_timer p0 = None)
      /\ (accumulator p1 = Some 60%Q /\ Qltb 60 150 = true
          /\ indicator_visible p1 = false /\ reload_timer p1 = None
          /\ pending_reloads (world p1) = ∅)
      /\ (accumulator p2 = Some 160%Q /\ Qle_bool 150 160 = true
          /\ indicator_visible p2 = true /\ reload_timer p2 = Some t
          /\ live_timeouts (world p2) !! t = Some (CbReload, 500%N)
          /\ pending_reloads (world p2) = {[ t ]}
          /\ page_step p2 (TimeoutFires t) = Ok fresh_page)
      /\ (accumulator p3 = Some 0%Q /\ indicator_visible p3 = false
          /\ reload_timer p3 = None
          /\ live_timeouts (world p3) !! t = None
          /\ pending_reloads (world p3) = ∅
          /\ page_step p3 (TimeoutFires t) = Ok p3))
  /\ (forall ev m w, rejected ev -> do_handleWheel ev m w = (m, w))
  /\ (forall dy m w,
        isAtTop (data m) = true -> (0 <= dy)%Q -> (dy <= 1000)%Q ->
        let r := do_handleWheel (wheel dy) m w in
        wheelDeltaAccumulator (data (fst r)) = 0%Q
        /\ indicatorTimeout (timeouts (fst r)) = None
        /\ (forall t, indicatorTimeout (timeouts m) = Some t ->
                      live_timeouts (snd r) !! t = None)
        /\ (forall n, indicator (elements m) = Some n -> shown n (snd r) = false)).
Proof.
  split; [|split].
  - do 5 eexists.
    split; [vm_compute; reflexivity|].
    split; [vm_compute; reflexivity|].
    split; [vm_compute; reflexivity|].
    split; [vm_compute; reflexivity|].
    repeat split; try (vm_compute; reflexivity).
  - apply wheel_rejected.
  - intros dy m w Htop H0 H1.
    destruct (wheel_downward dy m w Htop H0 H1) as (A & B & C & D & _).
    repeat split; assumption.
Qed.
Lemma wheel_gesture_scenario_witness :
  rejected (Some {| deltaY := JsNumber NaN |})
  /\ do_handleWheel (Some {| deltaY := JsNumber NaN |}) new_manager fresh_world
     = (new_manager, fresh_world)
  /\ rejected (wheel 5000)
  /\ wheelDeltaAccumulator
       (data (fst (do_handleWheel (wheel 40) new_manager fresh_world))) = 0%Q.
Proof.
  pose proof wheel_gesture_scenario as (_ & Hrej & Hdown).
  split; [exact I|]. split; [apply Hrej; exact I|].
  split; [by vm_compute|].
  apply (Hdown 40%Q new_manager fresh_world); [reflexivity|by vm_compute|by vm_compute].
Defined.

End GestureFacts.

(** ** Page Enhancement Controller: install and teardown *)

Section PageFacts.
Import Page.

(** How each operation of the page context changes what is live. *)

Lemma live_bump w r : live (bump w) r <-> live w r.
Proof. by destruct r. Qed.

Lemma live_arm_unheld_reload w r : live (arm_unheld_reload w) r <-> live w r.
Proof. by destruct r. Qed.

Lemma live_arm_timeout h cb d w r :
  live (arm_timeout h cb d w) r <-> r = RelTimeout h \/ live w r.
Proof.
  destruct r as [i|i|l|n]; cbn; try (split; [by right | by intros [[=]|?]]).
  unfold arm_timeout; cbn. rewrite lookup_insert_is_Some. split.
  - intros [->|[_ H]]; [by left | by right].
  - intros [[= ->]|H]; [by left|].
    destruct (decide (h = i)) as [->|?]; [by left | by right].
Qed.

Lemma live_clearTimeout h w r :
  live (clearTimeout h w) r <-> r <> RelTimeout h /\ live w r.
Proof.
  destruct r as [i|i|l|n]; cbn; try (split; [by split | by intros [_ ?]]).
  unfold clearTimeout; cbn. rewrite lookup_delete_is_Some. split.
  - intros [Hne H]. split; [congruence | done].
  - intros [Hne H]. split; [congruence | done].
Qed.

Lemma live_expire h w r :
  live (expire h w) r <-> r <> RelTimeout h /\ live w r.
Proof.
  destruct r as [i|i|l|n]; cbn; try (split; [by split | by intros [_ ?]]).
  rewrite lookup_delete_is_Some. split.
  - intros [Hne H]. split; [congruence | done].
  - intros [Hne H]. split; [congruence | done].
Qed.

Lemma live_arm_interval h w r :
  live (arm_interval h w) r <-> r = RelInterval h \/ live w r.
Proof.
  destruct r as [i|i|l|n]; cbn; try (split; [by right | by intros [[=]|?]]).
  unfold arm_interval; cbn. rewrite elem_of_union, elem_of_singleton. split.
  - intros [->|H]; [by left | by right].
  - intros [[= ->]|H]; [by left | by right].
Qed.

Lemma live_clearInterval h w r :
  live (clearInterval h w) r <-> r <> RelInterval h /\ live w r.
Proof.
  destruct r as [i|i|l|n]; cbn; try (split; [by split | by intros [_ ?]]).
  unfold clearInterval; cbn. rewrite elem_of_difference, elem_of_singleton. split.
  - intros [H Hne]. split; [congruence | done].
  - intros [Hne H]. split; [done | congruence].
Qed.

Lemma live_addEventListener t ty f w r :
  live (addEventListener t ty f w) r
  <-> r = RelListener {| l_target := t; l_type := ty; l_fn := f |} \/ live w r.
Proof.
  destruct r as [i|i|l|n]; cbn; try (split; [by right | by intros [[=]|?]]).
  unfold addEventListener; cbn. case_bool_decide as Hin.
  - split; [by right | intros [[= ->]|H]; done].
  - rewrite elem_of_app, list_elem_of_singleton. split.
    + intros [H| ->]; [by right | by left].
    + intros [[= ->]|H]; [by right | by left].
Qed.

Lemma live_removeEventListener t ty f w r :
  live (removeEventListener t ty f w) r
  <-> r <> RelListener {| l_target := t; l_type := ty; l_fn := f |} /\ live w r.
Proof.
  destruct r as [i|i|l|n]; cbn; try (split; [by split | by intros [_ ?]]).
  unfold removeEventListener; cbn. rewrite list_elem_of_filter. split.
  - intros [Hne H]. split; [congruence | done].
  - intros [Hne H]. split; [congruence | done].
Qed.

Lemma live_appendChild n id w r :
  live (appendChild n id w) r <-> r = RelNode n \/ live w r.
Proof.
  destruct r as [i|i|l|k]; cbn; try (split; [by right | by intros [[=]|?]]).
  unfold appendChild; cbn. rewrite fmap_app, elem_of_app. cbn.
  rewrite list_elem_of_singleton. split.
  - intros [H| ->]; [by right | by left].
  - intros [[= ->]|H]; [by right | by left].
Qed.

Lemma live_remove_node n w r :
  live (remove_node n w) r <-> r <> RelNode n /\ live w r.
Proof.
  destruct r as [i|i|l|k]; cbn; try (split; [by split | by intros [_ ?]]).
  unfold remove_node; cbn. rewrite !list_elem_of_fmap. split.
  - intros (x & -> & Hx). apply list_elem_of_filter in Hx as [Hne Hx].
    split; [congruence | by exists x].
  - intros (Hne & x & -> & Hx). exists x. split; [done|].
    apply list_elem_of_filter. split; [congruence | done].
Qed.

Lemma live_set_shown n b w r : live (set_shown n b w) r <-> live w r.
Proof.
  destruct r as [i|i|l|k]; cbn; try done.
  unfold set_shown; cbn. rewrite !list_elem_of_fmap. split.
  - intros (x & -> & Hx). apply list_elem_of_fmap in Hx as (y & -> & Hy).
    exists y. split; [by case_bool_decide | done].
  - intros (x & -> & Hx).
    exists (if bool_decide (n_ref x = n)
            then {| n_ref := n_ref x; n_id := n_id x; n_shown := b |} else x).
    split; [by case_bool_decide|].
    apply list_elem_of_fmap. by exists x.
Qed.


Lemma releases_nil (w : World) : releases [] w w.
Proof.
  split; [by rewrite app_nil_r|]. split; [|reflexivity].
  intros r. rewrite elem_of_nil. tauto.
Qed.

Lemma releases_app (k1 k2 : list Release) (w w1 w2 : World) :
  releases k1 w w1 -> releases k2 w1 w2 -> releases (k1 ++ k2) w w2.
Proof.
  intros (E1 & L1 & U1) (E2 & L2 & U2). split; [|split].
  - by rewrite E2, E1, app_assoc.
  - intros r. rewrite L2, L1, elem_of_app. tauto.
  - by rewrite U2, U1.
Qed.

Lemma releases_clearTimeout h w : releases [RelTimeout h] w (clearTimeout h w).
Proof.
  split; [reflexivity|]. split; [|reflexivity]. intros r.
  rewrite live_clearTimeout, list_elem_of_singleton. tauto.
Qed.

Lemma releases_clearInterval h w : releases [RelInterval h] w (clearInterval h w).
Proof.
  split; [reflexivity|]. split; [|reflexivity]. intros r.
  rewrite live_clearInterval, list_elem_of_singleton. tauto.
Qed.

Lemma releases_removeEventListener t ty f w :
  releases [RelListener {| l_target := t; l_type := ty; l_fn := f |}] w
    (removeEventListener t ty f w).
Proof.
  split; [reflexivity|]. split; [|reflexivity]. intros r.
  rewrite live_removeEventListener, list_elem_of_singleton. tauto.
Qed.

Lemma releases_remove_node n w : releases [RelNode n] w (remove_node n w).
Proof.
  split; [reflexivity|]. split; [|reflexivity]. intros r.
  rewrite live_remove_node, list_elem_of_singleton. tauto.
Qed.

Lemma releases_clear_if h w :
  releases (RelTimeout <$> opt_list h) w (clear_if h w).
Proof. destruct h; [apply releases_clearTimeout | apply releases_nil]. Qed.

Lemma releases_remove_if t ty f w :
  releases (listener_key t ty f) w (remove_if t ty f w).
Proof. destruct f; [apply releases_removeEventListener | apply releases_nil]. Qed.

Lemma releases_remove_node_if n w :
  releases (RelNode <$> opt_list n) w (remove_node_if n w).
Proof. destruct n; [apply releases_remove_node | apply releases_nil]. Qed.

Lemma cleanup_order_keys (m : Manager) : cleanup_order m ≡ₚ registry_keys m.
Proof.
  unfold cleanup_order, registry_keys, listener_keys, node_keys.
  destruct m as [d hs es ts iv]. cbn [handlers elements].
  destruct es as [ind fb sp bs pb]. cbn [pinButton floatingBtn indicator spinnerStyle btnStyle].
  rewrite !fmap_app.
  destruct pb as [b|]; destruct fb as [[fbn [bh|]]|]; cbn [opt_list fmap option_fmap option_map fb_node fb_handlers list_fmap app];
    rewrite <- ?app_assoc; cbn [app];
    repeat (apply Permutation_app_head || apply Permutation_app; try reflexivity).
  all: try reflexivity.
  cbn. do 5 (etrans; [apply Permutation_swap|]; apply Permutation_skip).
  reflexivity.
Qed.

Lemma elem_of_cleanup_order (m : Manager) (r : Release) :
  r ∈ cleanup_order m <-> r ∈ registry_keys m.
Proof. by rewrite (cleanup_order_keys m). Qed.

(** The cleanup on a populated registry: it succeeds, releases the keys
    present in the order of the code, and leaves live exactly what was
    live and is not a key. *)
Create HintDb releases.
#[local] Hint Resolve releases_nil releases_clearTimeout releases_clearInterval
  releases_removeEventListener releases_remove_node releases_clear_if
  releases_remove_if releases_remove_node_if : releases.

Ltac releases_chain :=
  repeat first
    [ apply releases_nil
    | solve [eauto with releases]
    | eapply releases_app; [solve [eauto with releases]|]
    | eapply (releases_app [_]); [solve [eauto with releases]|] ].

Lemma scrollRefreshCleanup_populated (m : Manager) (w : World) :
  exists w',
    scrollRefreshCleanup (Populated m) w = Ok (Nulled, w')
    /\ releases (cleanup_order m) w w'.
Proof.
  unfold scrollRefreshCleanup. eexists. split; [reflexivity|].
  unfold cleanup_order, interval_keys, timeout_keys, clear_timeouts.
  destruct m as [d hs es ts iv]. cbn [handlers elements timeouts intervals].
  destruct es as [ind fb sp bs pb].
  cbn [pinButton floatingBtn indicator spinnerStyle btnStyle].
  rewrite !fmap_app.
  destruct iv as [[i|]]; destruct pb as [b|]; destruct fb as [[fbn [bh|]]|];
    cbn [idle opt_list fmap list_fmap fb_node fb_handlers];
    rewrite <- ?app_assoc; cbn [app listener_key opt_list fmap list_fmap];
    releases_chain.
Qed.

Lemma teardown_absent (p : Page) : cleanup_defined p = false -> teardown p = Ok p.
Proof. intros H. unfold teardown. by rewrite H. Qed.

Lemma teardown_populated (p : Page) (m : Manager) :
  cleanup_defined p = true -> registry p = Some (Populated m) ->
  exists w',
    teardown p = Ok {| world := w'; registry := Some Nulled; cleanup_defined := false |}
    /\ releases (cleanup_order m) (world p) w'.
Proof.
  intros Hc Hr. unfold teardown. rewrite Hc, Hr.
  destruct (scrollRefreshCleanup_populated m (world p)) as (w' & E & H).
  exists w'. rewrite E. done.
Qed.

(** *** Membership in the registry, kind by kind *)

Lemma opt_list_elem {A} (o : option A) (x : A) : x ∈ opt_list o <-> o = Some x.
Proof.
  destruct o as [a|]; cbn.
  - rewrite list_elem_of_singleton. split; congruence.
  - rewrite elem_of_nil. split; [done | discriminate].
Qed.

Lemma listener_key_kind t ty f r :
  r ∈ listener_key t ty f -> exists l, r = RelListener l.
Proof.
  unfold listener_key. intros H. apply list_elem_of_fmap in H as (x & -> & _).
  eauto.
Qed.

Lemma listener_keys_kind (m : Manager) (r : Release) :
  r ∈ listener_keys m -> exists l, r = RelListener l.
Proof.
  unfold listener_keys. intros H.
  repeat (apply elem_of_app in H as [H|H]; [by eapply listener_key_kind|]).
  destruct (floatingBtn (elements m)) as [[b [bh|]]|];
    destruct (pinButton (elements m));
    repeat (apply elem_of_app in H as [H|H]);
    try (by eapply listener_key_kind); by apply elem_of_nil in H.
Qed.

Lemma keys_interval (m : Manager) (h : positive) :
  RelInterval h ∈ registry_keys m <-> idle (intervals m) = Some h.
Proof.
  unfold registry_keys, interval_keys, timeout_keys, node_keys.
  rewrite !elem_of_app, !list_elem_of_fmap. split.
  - intros [(x & [= <-] & Hx)|[(x & [=] & _)|[H|(x & [=] & _)]]].
    + by apply opt_list_elem.
    + apply listener_keys_kind in H as (l & [=]).
  - intros H. left. exists h. split; [done | by apply opt_list_elem].
Qed.

Lemma keys_timeout (m : Manager) (h : positive) :
  RelTimeout h ∈ registry_keys m
  <-> floatAnimation (timeouts m) = Some h \/ indicatorTimeout (timeouts m) = Some h
      \/ idleCheck (timeouts m) = Some h \/ mouseHide (timeouts m) = Some h
      \/ scrollShow (timeouts m) = Some h.
Proof.
  unfold registry_keys, interval_keys, timeout_keys, node_keys.
  rewrite !elem_of_app, !list_elem_of_fmap. split.
  - intros [(x & [=] & _)|[(x & [= <-] & Hx)|[H|(x & [=] & _)]]].
    + rewrite !elem_of_app, !opt_list_elem in Hx. exact Hx.
    + apply listener_keys_kind in H as (l & [=]).
  - intros H. right. left. exists h. split; [done|].
    rewrite !elem_of_app, !opt_list_elem. exact H.
Qed.

Lemma keys_node (m : Manager) (n : positive) :
  RelNode n ∈ registry_keys m
  <-> pinButton (elements m) = Some n
      \/ fb_node <$> floatingBtn (elements m) = Some n
      \/ indicator (elements m) = Some n
      \/ spinnerStyle (elements m) = Some n
      \/ btnStyle (elements m) = Some n.
Proof.
  unfold registry_keys, interval_keys, timeout_keys, node_keys.
  rewrite !elem_of_app, !list_elem_of_fmap. split.
  - intros [(x & [=] & _)|[(x & [=] & _)|[H|(x & [= <-] & Hx)]]].
    + apply listener_keys_kind in H as (l & [=]).
    + rewrite !elem_of_app, !opt_list_elem in Hx. exact Hx.
  - intros H. do 3 right. exists n. split; [done|].
    rewrite !elem_of_app, !opt_list_elem. exact H.
Qed.

Lemma keys_listener (m : Manager) (l : Listener) :
  RelListener l ∈ registry_keys m <-> RelListener l ∈ listener_keys m.
Proof.
  unfold registry_keys, interval_keys, timeout_keys, node_keys.
  rewrite !elem_of_app, !list_elem_of_fmap. split.
  - intros [(x & [=] & _)|[(x & [=] & _)|[H|(x & [=] & _)]]]. exact H.
  - intros H. right. right. by left.
Qed.


Lemma owns_kinds (m : Manager) (w : World) :
  owns m w
  <-> (forall h, live w (RelInterval h) -> idle (intervals m) = Some h)
      /\ (forall h, live w (RelTimeout h) ->
            floatAnimation (timeouts m) = Some h
            \/ indicatorTimeout (timeouts m) = Some h
            \/ idleCheck (timeouts m) = Some h \/ mouseHide (timeouts m) = Some h
            \/ scrollShow (timeouts m) = Some h)
      /\ (forall n, live w (RelNode n) ->
            pinButton (elements m) = Some n
            \/ fb_node <$> floatingBtn (elements m) = Some n
            \/ indicator (elements m) = Some n
            \/ spinnerStyle (elements m) = Some n
            \/ btnStyle (elements m) = Some n)
      /\ (forall l, live w (RelListener l) -> RelListener l ∈ listener_keys m).
Proof.
  unfold owns. split.
  - intros H. repeat split; intros x Hx; apply H in Hx.
    + by apply keys_interval. + by apply keys_timeout.
    + by apply keys_node. + by apply keys_listener.
  - intros (Hi & Ht & Hn & Hl) [h|h|l|n] Hr.
    + by apply keys_interval, Hi. + by apply keys_timeout, Ht.
    + by apply keys_listener, Hl. + by apply keys_node, Hn.
Qed.

#[local] Arguments live : simpl never.
Create Rewrite HintDb live_ops.

#[local] Hint Rewrite live_bump live_arm_unheld_reload live_arm_timeout
  live_clearTimeout live_expire live_arm_interval live_clearInterval live_addEventListener
  live_removeEventListener live_appendChild live_remove_node live_set_shown
  : live_ops.

(** Handlers that only touch timeouts, the indicator and the data keep
    the page well kept. *)
Ltac well_kept_step :=
  match goal with
  | H : well_kept ?m ?w |- _ =>
      destruct H as (Ho & Hl & Hs);
      apply owns_kinds in Ho as (Hi & Ht & Hn & Hls);
      destruct m as [d hs [ind fb sp bs pb] [fa it ic mh ss] iv];
      cbn in *
  end.

Ltac well_kept_close :=
  cbn [fst snd];
  split; [apply owns_kinds; unfold listener_keys in *; cbn; repeat split;
          intros x Hx; autorewrite with live_ops in Hx; naive_solver
         | split; [intros x Hx;
                   destruct (listener_keys_kind _ _ Hx) as [l ->];
                   unfold listeners_registered, listener_keys in *; cbn in *;
                   autorewrite with live_ops;
                   match goal with
                   | Hr : _ |- _ => apply Hr in Hx
                   end; naive_solver
                  | cbn; naive_solver]].

Lemma well_kept_handleScroll y m w :
  well_kept m w ->
  well_kept (fst (do_handleScroll y m w)) (snd (do_handleScroll y m w)).
Proof.
  intros H. unfold do_handleScroll, hideRefreshIndicator. well_kept_step.
  repeat case_match; well_kept_close.
Qed.

Lemma well_kept_idle m w :
  well_kept m w -> well_kept (fst (do_idle m w)) (snd (do_idle m w)).
Proof.
  intros H. unfold do_idle, hideRefreshIndicator. well_kept_step.
  repeat case_match; well_kept_close.
Qed.

Lemma well_kept_refreshClick m w :
  well_kept m w ->
  well_kept (fst (do_refreshClick m w)) (snd (do_refreshClick m w)).
Proof.
  intros H. unfold do_refreshClick. well_kept_step. well_kept_close.
Qed.

Lemma well_kept_handleScrollShow m w :
  well_kept m w ->
  well_kept (fst (do_handleScrollShow m w)) (snd (do_handleScrollShow m w)).
Proof.
  intros H. unfold do_handleScrollShow, setTimeout. well_kept_step.
  repeat case_match; well_kept_close.
Qed.

Lemma well_kept_handleMouseMove e m w :
  well_kept m w ->
  well_kept (fst (do_handleMouseMove e m w)) (snd (do_handleMouseMove e m w)).
Proof.
  intros H. unfold do_handleMouseMove, setTimeout. well_kept_step.
  repeat case_match; well_kept_close.
Qed.


Lemma well_kept_handleWheel ev m w :
  well_kept m w ->
  well_kept (fst (do_handleWheel ev m w)) (snd (do_handleWheel ev m w)).
Proof.
  intros H.
  unfold do_handleWheel, showRefreshIndicator, createRefreshIndicator,
    hideRefreshIndicator, setTimeout, new_identity.
  well_kept_step.
  destruct ev as [[dy]|]; [|well_kept_close].
  cbn [deltaY]. destruct (finite_number dy) as [q|]; [|well_kept_close].
  destruct (Qltb 1000 (Qabs q)); [well_kept_close|].
  destruct (negb (isAtTop d)); [well_kept_close|].
  destruct (Qltb q 0); [destruct (Qle_bool _ _)|].
  - destruct ind as [i|]; cbn.
    + destruct it; well_kept_close.
    + destruct (getElementById "refresh-spinner-style" _); cbn;
        destruct it; well_kept_close.
  - well_kept_close.
  - destruct ind, it; well_kept_close.
Qed.


Lemma getElementById_bump id w : getElementById id (bump w) = getElementById id w.
Proof. reflexivity. Qed.

Lemma getElementById_addEventListener id t ty f w :
  getElementById id (addEventListener t ty f w) = getElementById id w.
Proof. reflexivity. Qed.

Lemma getElementById_appendChild id n id' w :
  getElementById id (appendChild n id' w)
  = match getElementById id w with
    | Some x => Some x
    | None => if bool_decide (id' = id) then Some n else None
    end.
Proof.
  unfold getElementById, appendChild. cbn [nodes].
  induction (nodes w) as [|x l IH]; cbn.
  - destruct (bool_decide (id' = id)); reflexivity.
  - destruct (bool_decide (n_id x = id)); [reflexivity | exact IH].
Qed.

Lemma clean_nodes w : clean w -> nodes w = [].
Proof.
  intros H. destruct (nodes w) as [|x l] eqn:E; [reflexivity|].
  exfalso. apply (H (RelNode (n_ref x))). unfold live. rewrite E. cbn. left.
Qed.

Lemma getElementById_clean id w : clean w -> getElementById id w = None.
Proof. intros H. unfold getElementById. by rewrite (clean_nodes w H). Qed.

Lemma fresh_bump w : fresh (bump w) = Pos.succ (fresh w).
Proof. reflexivity. Qed.
Lemma fresh_arm_timeout h cb d w : fresh (arm_timeout h cb d w) = fresh w.
Proof. reflexivity. Qed.
Lemma fresh_arm_interval h w : fresh (arm_interval h w) = fresh w.
Proof. reflexivity. Qed.
Lemma fresh_addEventListener t ty f w : fresh (addEventListener t ty f w) = fresh w.
Proof. reflexivity. Qed.
Lemma fresh_appendChild n id w : fresh (appendChild n id w) = fresh w.
Proof. reflexivity. Qed.

#[local] Hint Rewrite getElementById_bump getElementById_addEventListener
  getElementById_appendChild fresh_bump fresh_arm_timeout fresh_arm_interval
  fresh_addEventListener fresh_appendChild : live_ops.

Lemma install_clean (p : Page) :
  cleanup_defined p = false -> clean (world p) ->
  exists m w,
    install p = Ok {| world := w; registry := Some (Populated m);
                      cleanup_defined := true |}
    /\ well_kept m w.
Proof.
  intros Hc Hclean. unfold install. rewrite (teardown_absent p Hc).
  unfold createFloatingPinButton, createFloatingRefreshButton, new_identity,
    setTimeout, setInterval.
  cbn. autorewrite with live_ops. rewrite (getElementById_clean _ _ Hclean).
  cbn. autorewrite with live_ops. rewrite (getElementById_clean _ _ Hclean).
  rewrite (bool_decide_eq_false_2 ("floating-pin-btn" = "floating-refresh-btn")%string) by done.
  cbn. autorewrite with live_ops. rewrite (getElementById_clean _ _ Hclean).
  rewrite (bool_decide_eq_false_2 ("floating-pin-btn" = "floating-btn-style")%string) by done.
  rewrite (bool_decide_eq_false_2 ("floating-refresh-btn" = "floating-btn-style")%string) by done.
  cbn. autorewrite with live_ops. do 2 eexists. split; [reflexivity|].
  set (f := fresh (world p)).
  split; [|split; [|reflexivity]].
  - apply owns_kinds. unfold listener_keys. cbn.
    repeat split; intros x Hx; autorewrite with live_ops in Hx;
      repeat match type of Hx with
             | _ \/ _ =>
                 destruct Hx as [Hx|Hx];
                 [simplify_eq;
                  first [ reflexivity | by eauto 10
                        | solve [repeat first [by left | right]] ]|]
             end;
      exfalso; apply (Hclean _ Hx).
  - intros x Hx. unfold listener_keys in Hx. cbn in Hx.
    autorewrite with live_ops.
    repeat (apply elem_of_cons in Hx as [->|Hx]; [tauto|]).
    by apply elem_of_nil in Hx.
Qed.


Lemma clean_fresh_world : clean fresh_world.
Proof.
  intros [h|h|l|n]; unfold live; cbn.
  - apply not_elem_of_empty.
  - rewrite lookup_empty. by intros [? ?].
  - apply not_elem_of_nil.
  - apply not_elem_of_nil.
Qed.

Lemma page_inv_fresh : page_inv fresh_page.
Proof. split; [reflexivity | exact clean_fresh_world]. Qed.

Lemma teardown_inv (p : Page) :
  page_inv p ->
  exists p', teardown p = Ok p' /\ page_inv p' /\ registry_empty p'
             /\ clean (world p') /\ teardown p' = Ok p'
             /\ unheld_reloads (world p') = unheld_reloads (world p).
Proof.
  unfold page_inv, registry_empty.
  destruct (registry p) as [[m|]|] eqn:Hr.
  - intros (Hc & Ho & _).
    destruct (teardown_populated p m Hc Hr) as (w' & E & _ & Hlive & Hun).
    assert (Hclean : clean w').
    { intros r Hr'. apply Hlive in Hr' as [Hl Hn]. apply Hn.
      apply elem_of_cleanup_order. by apply Ho. }
    eexists. split; [exact E|]. cbn. repeat split; try done. by right.
  - intros (Hc & Hclean). exists p. rewrite Hr.
    rewrite (teardown_absent p Hc). repeat split; try done. by right.
  - intros (Hc & Hclean). exists p. rewrite Hr.
    rewrite (teardown_absent p Hc). repeat split; try done. by left.
Qed.

Lemma install_after_teardown (p p0 : Page) :
  teardown p = Ok p0 -> teardown p0 = Ok p0 -> install p = install p0.
Proof. intros E E0. unfold install. by rewrite E, E0. Qed.

Lemma install_inv (p : Page) :
  page_inv p -> exists p', install p = Ok p' /\ page_inv p'.
Proof.
  intros H. destruct (teardown_inv p H) as (p0 & E & _ & [Hc _] & Hclean & E0 & _).
  rewrite (install_after_teardown p p0 E E0).
  destruct (install_clean p0 Hc Hclean) as (m & w & Ei & Hk).
  eexists. split; [exact Ei|]. split; [reflexivity | exact Hk].
Qed.

Lemma dispatch_inv guard f (p : Page) :
  (forall m w, well_kept m w -> well_kept (fst (f m w)) (snd (f m w))) ->
  page_inv p -> page_inv (dispatch guard f p).
Proof.
  intros Hf. unfold page_inv, dispatch.
  destruct (registry p) as [[m|]|] eqn:Hr; try (rewrite Hr; done).
  intros (Hc & Hk). destruct (guard m (world p)).
  - specialize (Hf m (world p) Hk). destruct (f m (world p)) as [m' w']. done.
  - rewrite Hr. done.
Qed.

(** Every event leaves a page that satisfies the invariant, and none
    makes the injected code throw. *)
Lemma page_step_inv (p : Page) (e : PageEvent) :
  page_inv p -> exists p', page_step p e = Ok p' /\ page_inv p'.
Proof.
  intros H. destruct e; cbn [page_step].
  - by apply install_inv.
  - destruct (teardown_inv p H) as (p' & E & Hi & _). eauto.
  - eexists. split; [reflexivity|].
    apply dispatch_inv; [apply well_kept_handleWheel | exact H].
  - eexists. split; [reflexivity|].
    apply dispatch_inv; [apply well_kept_handleScroll|].
    apply dispatch_inv; [apply well_kept_handleScrollShow | exact H].
  - eexists. split; [reflexivity|].
    apply dispatch_inv; [apply well_kept_handleMouseMove | exact H].
  - destruct (live_timeouts (world p) !! h) as [[[] dl]|] eqn:E;
      try (eexists; split; [reflexivity|]; first [exact page_inv_fresh | exact H]).
    all: eexists; (split; [reflexivity|]); unfold page_inv in *; cbn;
      destruct (registry p) as [[m|]|]; cbn.
    all: try (destruct H as (Hc & Hclean); split; [exact Hc|];
              intros r Hr; apply live_expire in Hr as [_ Hr]; by apply (Hclean r)).
    all: destruct H as (Hc & Ho & Hl & Hs); split; [exact Hc|];
      (split; [intros r Hr; apply live_expire in Hr as [_ Hr]; by apply Ho|]);
      (split; [|exact Hs]);
      intros r Hr; pose proof (Hl r Hr) as Hlive;
      destruct (listener_keys_kind _ _ Hr) as [l ->];
      apply live_expire; split; [discriminate | exact Hlive].
  - eexists. split; [reflexivity|].
    apply dispatch_inv; [apply well_kept_idle | exact H].
  - eexists. split; [reflexivity|].
    apply dispatch_inv; [apply well_kept_refreshClick | exact H].
  - destruct (unheld_reloads (world p)); eexists; (split; [reflexivity|]);
      [exact H | exact page_inv_fresh].
Qed.

Lemma reachable_inv (p : Page) : reachable p -> page_inv p.
Proof.
  induction 1 as [|p e p' _ IH E]; [exact page_inv_fresh|].
  destruct (page_step_inv p e IH) as (p'' & E' & Hi). congruence.
Qed.

Lemma page_run_total (es : list PageEvent) (p : Page) :
  page_inv p -> exists p', page_run p es = Ok p' /\ page_inv p'.
Proof.
  revert p. induction es as [|e es IH]; intros p H; [by exists p|].
  cbn. destruct (page_step_inv p e H) as (p1 & E & H1). rewrite E. by apply IH.
Qed.

(** The function itself is not re-entrant: on the manager it has nulled,
    its first property read throws.  The guard of the entry point is what
    makes a second teardown a no-op. *)
Remark scrollRefreshCleanup_nulled (w : World) :
  scrollRefreshCleanup Nulled w = Throw "TypeError".
Proof. reflexivity. Qed.

(** C3: the teardown entry point is a no-op when the cleanup function
    is not defined (never installed, or already torn down).  On every
    page that injections, teardowns and input events can reach from a
    fresh document it succeeds, leaves the registry empty and nothing
    that the registry held live, and a second teardown right after
    succeeds and changes nothing; a reload that a click on the refresh
    button has scheduled is no key of the registry, and the teardown
    leaves it pending.  On any populated registry, in any page context,
    the cleanup succeeds and makes exactly one release call per key
    present (idle interval, the five timeouts, listeners, DOM nodes);
    what stays live is what was live and is not a key.  On a reachable
    page every listener key is a listener that is registered with that
    very target, type and function, and everything live is held by a
    key. *)
Theorem teardown_idempotent_total :
  (forall p, cleanup_defined p = false -> teardown p = Ok p)
  /\ teardown fresh_page = Ok fresh_page
  /\ (forall p, reachable p ->
        exists p', teardown p = Ok p' /\ registry_empty p' /\ clean (world p')
                   /\ teardown p' = Ok p'
                   /\ unheld_reloads (world p') = unheld_reloads (world p))
  /\ (forall m w,
        exists w', scrollRefreshCleanup (Populated m) w = Ok (Nulled, w')
                   /\ released w' ≡ₚ released w ++ registry_keys m
                   /\ (forall r, live w' r <-> live w r /\ r ∉ registry_keys m))
  /\ (forall p m, reachable p -> registry p = Some (Populated m) ->
        cleanup_defined p = true
        /\ (forall r, r ∈ listener_keys m -> live (world p) r)
        /\ (forall r, live (world p) r -> r ∈ registry_keys m)).
Proof.
  split; [exact teardown_absent|]. split; [reflexivity|].
  split.
  { intros p Hp. destruct (teardown_inv p (reachable_inv p Hp))
      as (p' & E & _ & He & Hc & E' & Hu). eauto 10. }
  split.
  { intros m w.
    destruct (scrollRefreshCleanup_populated m w) as (w' & E & Hrel & Hl & _).
    exists w'. split; [exact E|]. split.
    - rewrite Hrel. apply Permutation_app_head, cleanup_order_keys.
    - intros r. rewrite Hl, elem_of_cleanup_order. reflexivity. }
  intros p m Hp Hr. pose proof (reachable_inv p Hp) as H.
  unfold page_inv in H. rewrite Hr in H. destruct H as (Hc & Ho & Hl & _). done.
Qed.

Lemma teardown_idempotent_total_witness :
  exists p p', install fresh_page = Ok p /\ reachable p
               /\ teardown p = Ok p' /\ registry_empty p' /\ teardown p' = Ok p'.
Proof.
  destruct (install fresh_page) as [p|] eqn:E; [|vm_compute in E; discriminate E].
  assert (Hp : reachable p) by (apply (reach_step fresh_page Inject p reach_fresh E)).
  destruct (proj1 (proj2 (proj2 teardown_idempotent_total)) p Hp)
    as (p' & E' & He & _ & E'' & _).
  exists p, p'. done.
Defined.

(** *** Further properties of the page controller *)

Lemma page_run_reachable (es : list PageEvent) (p : Page) :
  reachable p -> exists p', page_run p es = Ok p' /\ reachable p'.
Proof.
  revert p. induction es as [|e es IH]; intros p Hp; [by exists p|].
  cbn. destruct (page_step_inv p e (reachable_inv p Hp)) as (p1 & E & _).
  rewrite E. apply IH. by apply (reach_step p e p1).
Qed.





(** *** One pending timeout per key *)

Lemma lt_bump w : live_timeouts (bump w) = live_timeouts w.
Proof. reflexivity. Qed.
Lemma lt_arm_unheld_reload w :
  live_timeouts (arm_unheld_reload w) = live_timeouts w.
Proof. reflexivity. Qed.
Lemma lt_arm_timeout h cb d w :
  live_timeouts (arm_timeout h cb d w) = <[h := (cb, d)]> (live_timeouts w).
Proof. reflexivity. Qed.
Lemma lt_clearTimeout h w :
  live_timeouts (clearTimeout h w) = delete h (live_timeouts w).
Proof. reflexivity. Qed.
Lemma lt_arm_interval h w : live_timeouts (arm_interval h w) = live_timeouts w.
Proof. reflexivity. Qed.
Lemma lt_clearInterval h w : live_timeouts (clearInterval h w) = live_timeouts w.
Proof. reflexivity. Qed.
Lemma lt_addEventListener t ty f w :
  live_timeouts (addEventListener t ty f w) = live_timeouts w.
Proof. reflexivity. Qed.
Lemma lt_removeEventListener t ty f w :
  live_timeouts (removeEventListener t ty f w) = live_timeouts w.
Proof. reflexivity. Qed.
Lemma lt_appendChild n id w : live_timeouts (appendChild n id w) = live_timeouts w.
Proof. reflexivity. Qed.
Lemma lt_remove_node n w : live_timeouts (remove_node n w) = live_timeouts w.
Proof. reflexivity. Qed.
Lemma lt_set_shown n b w : live_timeouts (set_shown n b w) = live_timeouts w.
Proof. reflexivity. Qed.

Create Rewrite HintDb lt_ops.

#[local] Hint Rewrite lt_bump lt_arm_unheld_reload lt_arm_timeout lt_clearTimeout
  lt_arm_interval lt_clearInterval lt_addEventListener lt_removeEventListener
  lt_appendChild lt_remove_node lt_set_shown : lt_ops.

Ltac keyed_step :=
  match goal with
  | K : timers_keyed ?m ?w |- _ =>
      unfold timers_keyed in *;
      destruct m as [d hs [ind fb sp bs pb] [fa it ic mh ss] iv];
      cbn in *
  end.

Ltac keyed_close :=
  cbn [fst snd]; intros h' cb' d' Hlook; cbn in Hlook |- *;
  autorewrite with lt_ops in Hlook;
  repeat (rewrite lookup_insert in Hlook || rewrite lookup_delete in Hlook);
  repeat case_decide; simplify_eq;
  try reflexivity;
  match goal with
  | K : forall h cb d, _ -> _ |- _ => pose proof (K _ _ _ Hlook) as Kh
  end;
  destruct cb'; cbn in *; congruence.

Lemma keyed_handleScroll y m w :
  timers_keyed m w ->
  timers_keyed (fst (do_handleScroll y m w)) (snd (do_handleScroll y m w)).
Proof.
  intros K. unfold do_handleScroll, hideRefreshIndicator. keyed_step.
  repeat case_match; keyed_close.
Qed.

Lemma keyed_idle m w :
  timers_keyed m w -> timers_keyed (fst (do_idle m w)) (snd (do_idle m w)).
Proof.
  intros K. unfold do_idle, hideRefreshIndicator. keyed_step.
  repeat case_match; keyed_close.
Qed.

Lemma keyed_refreshClick m w :
  timers_keyed m w ->
  timers_keyed (fst (do_refreshClick m w)) (snd (do_refreshClick m w)).
Proof. intros K. unfold do_refreshClick. keyed_step. keyed_close. Qed.

Lemma keyed_handleScrollShow m w :
  timers_keyed m w ->
  timers_keyed (fst (do_handleScrollShow m w)) (snd (do_handleScrollShow m w)).
Proof.
  intros K. unfold do_handleScrollShow, setTimeout. keyed_step.
  repeat case_match; keyed_close.
Qed.

Lemma keyed_handleMouseMove e m w :
  timers_keyed m w ->
  timers_keyed (fst (do_handleMouseMove e m w)) (snd (do_handleMouseMove e m w)).
Proof.
  intros K. unfold do_handleMouseMove, setTimeout. keyed_step.
  repeat case_match; keyed_close.
Qed.

Lemma keyed_handleWheel ev m w :
  timers_keyed m w ->
  timers_keyed (fst (do_handleWheel ev m w)) (snd (do_handleWheel ev m w)).
Proof.
  intros K.
  unfold do_handleWheel, showRefreshIndicator, createRefreshIndicator,
    hideRefreshIndicator, setTimeout, new_identity.
  keyed_step.
  destruct ev as [[dy]|]; [|keyed_close].
  cbn [deltaY]. destruct (finite_number dy) as [q|]; [|keyed_close].
  destruct (Qltb 1000 (Qabs q)); [keyed_close|].
  destruct (negb (isAtTop d)); [keyed_close|].
  destruct (Qltb q 0); [destruct (Qle_bool _ _)|].
  - destruct ind as [i|]; cbn.
    + destruct it; keyed_close.
    + destruct (getElementById "refresh-spinner-style" _); cbn;
        destruct it; keyed_close.
  - keyed_close.
  - destruct ind, it; keyed_close.
Qed.

Lemma clean_no_timeout (w : World) (h : positive) :
  clean w -> live_timeouts w !! h = None.
Proof.
  intros Hc. destruct (live_timeouts w !! h) as [x|] eqn:E; [|reflexivity].
  destruct (Hc (RelTimeout h)). unfold live. by rewrite E.
Qed.

Lemma install_keyed (p : Page) :
  cleanup_defined p = false -> clean (world p) ->
  exists m w,
    install p = Ok {| world := w; registry := Some (Populated m);
                      cleanup_defined := true |}
    /\ timers_keyed m w.
Proof.
  intros Hc Hclean. unfold install. rewrite (teardown_absent p Hc).
  unfold createFloatingPinButton, createFloatingRefreshButton, new_identity,
    setTimeout, setInterval.
  cbn. autorewrite with live_ops. rewrite (getElementById_clean _ _ Hclean).
  cbn. autorewrite with live_ops. rewrite (getElementById_clean _ _ Hclean).
  rewrite (bool_decide_eq_false_2 ("floating-pin-btn" = "floating-refresh-btn")%string) by done.
  cbn. autorewrite with live_ops. rewrite (getElementById_clean _ _ Hclean).
  rewrite (bool_decide_eq_false_2 ("floating-pin-btn" = "floating-btn-style")%string) by done.
  rewrite (bool_decide_eq_false_2 ("floating-refresh-btn" = "floating-btn-style")%string) by done.
  cbn. autorewrite with live_ops. do 2 eexists. split; [reflexivity|].
  intros h cb d Hlook. autorewrite with lt_ops in Hlook.
  rewrite lookup_insert in Hlook. case_decide.
  - simplify_eq. reflexivity.
  - by rewrite (clean_no_timeout _ _ Hclean) in Hlook.
Qed.

Lemma dispatch_keyed guard f (p : Page) :
  (forall m w, timers_keyed m w -> timers_keyed (fst (f m w)) (snd (f m w))) ->
  timers_inv p -> timers_inv (dispatch guard f p).
Proof.
  intros Hf. unfold timers_inv, dispatch.
  destruct (registry p) as [[m|]|] eqn:Hr; try (rewrite Hr; done).
  intros K. destruct (guard m (world p)).
  - specialize (Hf m (world p) K). destruct (f m (world p)) as [m' w']. done.
  - by rewrite Hr.
Qed.

Lemma timers_step (p p' : Page) (e : PageEvent) :
  page_inv p -> timers_inv p -> page_step p e = Ok p' -> timers_inv p'.
Proof.
  intros H K. destruct e as [| |ev|y|ev|h| | |]; cbn [page_step].
  - destruct (teardown_inv p H) as (p0 & E & _ & [Hc _] & Hclean & E0 & _).
    rewrite (install_after_teardown p p0 E E0).
    destruct (install_keyed p0 Hc Hclean) as (m & w & Ei & Hk).
    rewrite Ei. by intros [= <-].
  - destruct (teardown_inv p H) as (p0 & E & _ & [_ He] & _).
    rewrite E. intros [= <-]. unfold timers_inv. by destruct He as [-> | ->].
  - intros [= <-]. by apply dispatch_keyed; [apply keyed_handleWheel|].
  - intros [= <-]. apply dispatch_keyed; [apply keyed_handleScroll|].
    by apply dispatch_keyed; [apply keyed_handleScrollShow|].
  - intros [= <-]. by apply dispatch_keyed; [apply keyed_handleMouseMove|].
  - destruct (live_timeouts (world p) !! h) as [[[] dl]|] eqn:E;
      intros [= <-]; try done; unfold timers_inv in *; cbn;
      destruct (registry p) as [[m|]|]; try done;
      intros h' cb' d' Hlook; cbn in Hlook;
      rewrite lookup_delete in Hlook; case_decide; try done; by apply K in Hlook.
  - intros [= <-]. by apply dispatch_keyed; [apply keyed_idle|].
  - intros [= <-]. by apply dispatch_keyed; [apply keyed_refreshClick|].
  - destruct (unheld_reloads (world p)); intros [= <-]; done.
Qed.

Lemma reachable_timers (p : Page) : reachable p -> timers_inv p.
Proof.
  induction 1 as [|p e p' Hp IH E]; [exact I|].
  exact (timers_step p p' e (reachable_inv p Hp) IH E).
Qed.

(** X21: the controller never stacks timers. On every reachable page each
    pending timeout is the one stored under the key of its kind, so at
    most one reload armed by the wheel gesture is pending, and it is the
    one a downward wheel event or the teardown cancels; the same holds
    for the hide, the show and the animation timeout; and at most one
    idle interval is live. *)
Theorem one_timer_per_key (p : Page) :
  reachable p ->
  (forall h cb d,
      live_timeouts (world p) !! h = Some (cb, d) ->
      exists m, registry p = Some (Populated m)
                /\ timer_key cb (timeouts m) = Some h)
  /\ (forall h1 h2 cb d1 d2,
        live_timeouts (world p) !! h1 = Some (cb, d1) ->
        live_timeouts (world p) !! h2 = Some (cb, d2) -> h1 = h2)
  /\ (forall t, t ∈ pending_reloads (world p) -> reload_timer p = Some t)
  /\ size (pending_reloads (world p)) <= 1
  /\ size (live_intervals (world p)) <= 1.
Proof.
  intros Hp. pose proof (reachable_inv p Hp) as H.
  pose proof (reachable_timers p Hp) as K.
  assert (H1 : forall h cb d,
             live_timeouts (world p) !! h = Some (cb, d) ->
             exists m, registry p = Some (Populated m)
                       /\ timer_key cb (timeouts m) = Some h).
  { intros h cb d Hlook. unfold page_inv, timers_inv in *.
    destruct (registry p) as [[m|]|].
    - exists m. split; [reflexivity|]. by apply (K h cb d).
    - destruct H as [_ Hc]. by rewrite (clean_no_timeout _ h Hc) in Hlook.
    - destruct H as [_ Hc]. by rewrite (clean_no_timeout _ h Hc) in Hlook. }
  assert (H3 : forall t, t ∈ pending_reloads (world p) -> reload_timer p = Some t).
  { intros t Ht. unfold pending_reloads in Ht.
    apply elem_of_dom in Ht as [[cb d] Ht].
    apply map_lookup_filter_Some in Ht as [Ht Hcb]. cbn in Hcb. subst cb.
    destruct (H1 t CbReload d Ht) as (m & Hr & Hk).
    unfold reload_timer. by rewrite Hr. }
  split; [exact H1|]. split; [|split; [exact H3|split]].
  - intros h1 h2 cb d1 d2 E1 E2.
    destruct (H1 h1 cb d1 E1) as (m1 & Hr1 & Hk1).
    destruct (H1 h2 cb d2 E2) as (m2 & Hr2 & Hk2). congruence.
  - destruct (reload_timer p) as [t|] eqn:Et.
    + transitivity (size ({[ t ]} : gset positive)); [|rewrite size_singleton; lia].
      apply subseteq_size.
      intros t' Ht'. apply H3 in Ht'. apply elem_of_singleton. congruence.
    + replace (pending_reloads (world p)) with (∅ : gset positive);
        [rewrite size_empty; lia|].
      symmetry. apply elem_of_equiv_empty_L. intros t Ht. apply H3 in Ht. congruence.
  - unfold page_inv in H. destruct (registry p) as [[m|]|].
    + destruct H as (_ & Ho & _). apply owns_kinds in Ho as (Hi & _).
      destruct (idle (intervals m)) as [i|] eqn:Ei.
      * transitivity (size ({[ i ]} : gset positive)); [|rewrite size_singleton; lia].
        apply subseteq_size.
        intros i' Hi'. apply elem_of_singleton. apply Hi in Hi'. congruence.
      * replace (live_intervals (world p)) with (∅ : gset positive);
          [rewrite size_empty; lia|].
        symmetry. apply elem_of_equiv_empty_L. intros i Hi'. apply Hi in Hi'.
        congruence.
    + destruct H as [_ Hc].
      replace (live_intervals (world p)) with (∅ : gset positive);
        [rewrite size_empty; lia|].
      symmetry. apply elem_of_equiv_empty_L. intros i Hi.
      exact (Hc (RelInterval i) Hi).
    + destruct H as [_ Hc].
      replace (live_intervals (world p)) with (∅ : gset positive);
        [rewrite size_empty; lia|].
      symmetry. apply elem_of_equiv_empty_L. intros i Hi.
      exact (Hc (RelInterval i) Hi).
Qed.

Lemma one_timer_per_key_witness :
  exists p, page_run fresh_page
              [Inject; Wheel (wheel (-200)); Wheel (wheel (-200));
               Wheel (wheel (-200))] = Ok p
            /\ size (pending_reloads (world p)) <= 1.
Proof.
  destruct (page_run_reachable
              [Inject; Wheel (wheel (-200)); Wheel (wheel (-200));
               Wheel (wheel (-200))] fresh_page reach_fresh) as (p & E & Hp).
  exists p. split; [exact E|].
  exact (proj1 (proj2 (proj2 (proj2 (one_timer_per_key p Hp))))).
Defined.

(** *** Leaving the top of the page *)

Lemma fresh_clearTimeout h w : fresh (clearTimeout h w) = fresh w.
Proof. reflexivity. Qed.
Lemma fresh_set_shown n b w : fresh (set_shown n b w) = fresh w.
Proof. reflexivity. Qed.
Lemma fresh_arm_unheld_reload w : fresh (arm_unheld_reload w) = Pos.succ (fresh w).
Proof. reflexivity. Qed.

#[local] Hint Rewrite fresh_clearTimeout fresh_set_shown fresh_arm_unheld_reload
  : live_ops.

Ltac below_close :=
  cbn [fst snd]; intros h' [x' Hlook]; cbn in Hlook |- *;
  autorewrite with lt_ops in Hlook; autorewrite with live_ops;
  repeat (rewrite lookup_insert in Hlook || rewrite lookup_delete in Hlook);
  repeat case_decide; simplify_eq; autorewrite with live_ops in *; try lia;
  match goal with
  | B : handles_below _ |- _ =>
      let Hb := fresh "Hb" in
      assert (Hb := B h' (ex_intro _ x' Hlook)); lia
  end.

Lemma below_handleScroll y m w :
  handles_below w -> handles_below (snd (do_handleScroll y m w)).
Proof.
  intros B. unfold do_handleScroll, hideRefreshIndicator.
  repeat case_match; below_close.
Qed.

Lemma below_idle m w : handles_below w -> handles_below (snd (do_idle m w)).
Proof.
  intros B. unfold do_idle, hideRefreshIndicator. repeat case_match; below_close.
Qed.

Lemma below_refreshClick m w :
  handles_below w -> handles_below (snd (do_refreshClick m w)).
Proof. intros B. unfold do_refreshClick. below_close. Qed.

Lemma below_handleScrollShow m w :
  handles_below w -> handles_below (snd (do_handleScrollShow m w)).
Proof.
  intros B. unfold do_handleScrollShow, setTimeout. repeat case_match; below_close.
Qed.

Lemma below_handleMouseMove e m w :
  handles_below w -> handles_below (snd (do_handleMouseMove e m w)).
Proof.
  intros B. unfold do_handleMouseMove, setTimeout. repeat case_match; below_close.
Qed.

Lemma below_handleWheel ev m w :
  handles_below w -> handles_below (snd (do_handleWheel ev m w)).
Proof.
  intros B.
  unfold do_handleWheel, showRefreshIndicator, createRefreshIndicator,
    hideRefreshIndicator, setTimeout, new_identity.
  destruct m as [d hs [ind fb sp bs pb] [fa it ic mh ss] iv]. cbn.
  destruct ev as [[dy]|]; [|below_close].
  cbn [deltaY]. destruct (finite_number dy) as [q|]; [|below_close].
  destruct (Qltb 1000 (Qabs q)); [below_close|].
  destruct (negb (isAtTop d)); [below_close|].
  destruct (Qltb q 0); [destruct (Qle_bool _ _)|].
  - destruct ind as [i|]; cbn.
    + destruct it; below_close.
    + destruct (getElementById "refresh-spinner-style" _); cbn;
        destruct it; below_close.
  - below_close.
  - destruct ind, it; below_close.
Qed.

Lemma handlers_handleScroll y m w : handlers (fst (do_handleScroll y m w)) = handlers m.
Proof. unfold do_handleScroll. by repeat case_match. Qed.

Lemma handlers_idle m w : handlers (fst (do_idle m w)) = handlers m.
Proof. unfold do_idle. by repeat case_match. Qed.

Lemma handlers_handleScrollShow m w :
  handlers (fst (do_handleScrollShow m w)) = handlers m.
Proof. unfold do_handleScrollShow, setTimeout. by repeat case_match. Qed.

Lemma handlers_handleMouseMove e m w :
  handlers (fst (do_handleMouseMove e m w)) = handlers m.
Proof. unfold do_handleMouseMove, setTimeout. by repeat case_match. Qed.

Lemma handlers_handleWheel ev m w :
  handlers (fst (do_handleWheel ev m w)) = handlers m.
Proof.
  unfold do_handleWheel, showRefreshIndicator, createRefreshIndicator,
    hideRefreshIndicator, setTimeout, new_identity.
  destruct m as [d hs [ind fb sp bs pb] [fa it ic mh ss] iv]. cbn.
  repeat case_match; simplify_eq; reflexivity.
Qed.

Ltac keys_step :=
  match goal with
  | K : keys_ok ?m ?w |- _ =>
      destruct K as [KD KB]; unfold keys_ok, keys_distinct, keys_below in *;
      destruct m as [d hs [ind fb sp bs pb] [fa it ic mh ss] iv];
      pose proof (KB CbReload) as KBr; pose proof (KB CbFloatAnimation) as KBf;
      pose proof (KB CbMouseHide) as KBm; pose proof (KB CbScrollShow) as KBs;
      pose proof (KD CbReload CbFloatAnimation) as KD1;
      pose proof (KD CbReload CbMouseHide) as KD2;
      pose proof (KD CbReload CbScrollShow) as KD3;
      pose proof (KD CbFloatAnimation CbMouseHide) as KD4;
      pose proof (KD CbFloatAnimation CbScrollShow) as KD5;
      pose proof (KD CbMouseHide CbScrollShow) as KD6;
      clear KD KB; cbn in *
  end.

Ltac keys_close :=
  cbn [fst snd]; cbn; autorewrite with live_ops;
  split;
  [ intros cb1 cb2 h0 E1 E2; destruct cb1, cb2; cbn in *; simplify_eq;
    try reflexivity; exfalso; naive_solver lia
  | intros cb h0 E; destruct cb; cbn in *; simplify_eq;
    repeat match goal with
           | H : forall h, ?a = Some h -> (_ < _)%positive, E : ?a = Some _ |- _ =>
               specialize (H _ E)
           | H : forall h, Some ?x = Some h -> (_ < _)%positive |- _ =>
               specialize (H _ eq_refl)
           end; lia ].

Lemma keys_handleScroll y m w :
  keys_ok m w -> keys_ok (fst (do_handleScroll y m w)) (snd (do_handleScroll y m w)).
Proof.
  intros K. unfold do_handleScroll, hideRefreshIndicator. keys_step.
  repeat case_match; keys_close.
Qed.

Lemma keys_idle m w :
  keys_ok m w -> keys_ok (fst (do_idle m w)) (snd (do_idle m w)).
Proof.
  intros K. unfold do_idle, hideRefreshIndicator. keys_step.
  repeat case_match; keys_close.
Qed.

Lemma keys_refreshClick m w :
  keys_ok m w -> keys_ok (fst (do_refreshClick m w)) (snd (do_refreshClick m w)).
Proof. intros K. unfold do_refreshClick. keys_step. keys_close. Qed.

Lemma keys_handleScrollShow m w :
  keys_ok m w ->
  keys_ok (fst (do_handleScrollShow m w)) (snd (do_handleScrollShow m w)).
Proof.
  intros K. unfold do_handleScrollShow, setTimeout. keys_step.
  repeat case_match; keys_close.
Qed.

Lemma keys_handleMouseMove e m w :
  keys_ok m w ->
  keys_ok (fst (do_handleMouseMove e m w)) (snd (do_handleMouseMove e m w)).
Proof.
  intros K. unfold do_handleMouseMove, setTimeout. keys_step.
  repeat case_match; keys_close.
Qed.

Lemma keys_handleWheel ev m w :
  keys_ok m w ->
  keys_ok (fst (do_handleWheel ev m w)) (snd (do_handleWheel ev m w)).
Proof.
  intros K.
  unfold do_handleWheel, showRefreshIndicator, createRefreshIndicator,
    hideRefreshIndicator, setTimeout, new_identity.
  keys_step.
  destruct ev as [[dy]|]; [|keys_close].
  cbn [deltaY]. destruct (finite_number dy) as [q|]; [|keys_close].
  destruct (Qltb 1000 (Qabs q)); [keys_close|].
  destruct (negb (isAtTop d)); [keys_close|].
  destruct (Qltb q 0); [destruct (Qle_bool _ _)|].
  - destruct ind as [i|]; cbn.
    + destruct it; keys_close.
    + destruct (getElementById "refresh-spinner-style" _); cbn;
        destruct it; keys_close.
  - keys_close.
  - destruct ind, it; keys_close.
Qed.

Lemma install_ready (p : Page) :
  cleanup_defined p = false -> clean (world p) ->
  exists m w,
    install p = Ok {| world := w; registry := Some (Populated m);
                      cleanup_defined := true |}
    /\ handles_below w
    /\ is_Some (handleScroll (handlers m)) /\ is_Some (handleWheel (handlers m))
    /\ keys_ok m w.
Proof.
  intros Hc Hclean. unfold install. rewrite (teardown_absent p Hc).
  unfold createFloatingPinButton, createFloatingRefreshButton, new_identity,
    setTimeout, setInterval.
  cbn. autorewrite with live_ops. rewrite (getElementById_clean _ _ Hclean).
  cbn. autorewrite with live_ops. rewrite (getElementById_clean _ _ Hclean).
  rewrite (bool_decide_eq_false_2 ("floating-pin-btn" = "floating-refresh-btn")%string) by done.
  cbn. autorewrite with live_ops. rewrite (getElementById_clean _ _ Hclean).
  rewrite (bool_decide_eq_false_2 ("floating-pin-btn" = "floating-btn-style")%string) by done.
  rewrite (bool_decide_eq_false_2 ("floating-refresh-btn" = "floating-btn-style")%string) by done.
  cbn. autorewrite with live_ops. do 2 eexists. split; [reflexivity|].
  split; [|split; [by eexists|split; [by eexists|split]]].
  - intros h [x Hlook]. autorewrite with lt_ops in Hlook.
    autorewrite with live_ops.
    rewrite lookup_insert in Hlook. case_decide.
    + subst h. lia.
    + by rewrite (clean_no_timeout _ _ Hclean) in Hlook.
  - intros cb1 cb2 h E1 E2. destruct cb1, cb2; cbn in *; congruence.
  - intros cb h E. destruct cb; cbn in *; simplify_eq.
    autorewrite with live_ops. lia.
Qed.

Lemma handles_below_clean (w : World) : clean w -> handles_below w.
Proof. intros Hc h [x Hx]. by rewrite (clean_no_timeout _ _ Hc) in Hx. Qed.

Lemma dispatch_ready guard f (p : Page) :
  (forall m w, handles_below w -> handles_below (snd (f m w))) ->
  (forall m w, keys_ok m w -> keys_ok (fst (f m w)) (snd (f m w))) ->
  (forall m w, handlers (fst (f m w)) = handlers m) ->
  gesture_ready p -> gesture_ready (dispatch guard f p).
Proof.
  intros Hb Hk Hh. unfold gesture_ready, dispatch.
  destruct (registry p) as [[m|]|] eqn:Hr; try (rewrite Hr; done).
  intros (B & Hs & Hw & K). destruct (guard m (world p)).
  - specialize (Hb m (world p) B). specialize (Hk m (world p) K).
    specialize (Hh m (world p)).
    destruct (f m (world p)) as [m' w']. cbn in *. by rewrite Hh.
  - by rewrite Hr.
Qed.

Lemma ready_step (p p' : Page) (e : PageEvent) :
  page_inv p -> gesture_ready p -> page_step p e = Ok p' -> gesture_ready p'.
Proof.
  intros H G. destruct e as [| |ev|y|ev|h| | |]; cbn [page_step].
  - destruct (teardown_inv p H) as (p0 & E & _ & [Hc _] & Hclean & E0 & _).
    rewrite (install_after_teardown p p0 E E0).
    destruct (install_ready p0 Hc Hclean) as (m & w & Ei & Hk).
    rewrite Ei. by intros [= <-].
  - destruct (teardown_inv p H) as (p0 & E & _ & [_ He] & Hclean & _).
    rewrite E. intros [= <-]. split; [by apply handles_below_clean|].
    by destruct He as [-> | ->].
  - intros [= <-].
    apply dispatch_ready; [apply below_handleWheel | apply keys_handleWheel
                          | apply handlers_handleWheel | exact G].
  - intros [= <-].
    apply dispatch_ready; [apply below_handleScroll | apply keys_handleScroll
                          | apply handlers_handleScroll |].
    apply dispatch_ready; [apply below_handleScrollShow | apply keys_handleScrollShow
                          | apply handlers_handleScrollShow | exact G].
  - intros [= <-].
    apply dispatch_ready; [apply below_handleMouseMove | apply keys_handleMouseMove
                          | apply handlers_handleMouseMove | exact G].
  - assert (Hf : gesture_ready fresh_page).
    { split; [|exact I]. apply handles_below_clean, clean_fresh_world. }
    destruct (live_timeouts (world p) !! h) as [[[] dl]|] eqn:E;
      intros [= <-]; try done; destruct G as [B G]; (split; [|exact G]);
      intros h' [x Hlook]; cbn in Hlook |- *;
      rewrite lookup_delete in Hlook; case_decide; try done; apply B; by eexists.
  - intros [= <-].
    apply dispatch_ready; [apply below_idle | apply keys_idle
                          | apply handlers_idle | exact G].
  - intros [= <-].
    apply dispatch_ready; [apply below_refreshClick | apply keys_refreshClick
                          | reflexivity | exact G].
  - destruct (unheld_reloads (world p)); intros [= <-]; [exact G|].
    split; [|exact I]. apply handles_below_clean, clean_fresh_world.
Qed.

Lemma reachable_ready (p : Page) : reachable p -> gesture_ready p.
Proof.
  induction 1 as [|p e p' Hp IH E].
  - split; [|exact I]. apply handles_below_clean, clean_fresh_world.
  - exact (ready_step p p' e (reachable_inv p Hp) IH E).
Qed.

Lemma scrollShow_keeps_reload (m : Manager) (w : World) (t : positive) (d : N) :
  handles_below w -> keys_ok m w ->
  indicatorTimeout (timeouts m) = Some t ->
  live_timeouts w !! t = Some (CbReload, d) ->
  let r := do_handleScrollShow m w in
  handlers (fst r) = handlers m /\ data (fst r) = data m
  /\ elements (fst r) = elements m
  /\ indicatorTimeout (timeouts (fst r)) = Some t
  /\ live_timeouts (snd r) !! t = Some (CbReload, d).
Proof.
  intros B [KD _] Ht Hl.
  assert (Hb : (t < fresh w)%positive) by (apply B; by eexists).
  assert (Hs : scrollShow (timeouts m) <> Some t).
  { intros Hs. by pose proof (KD CbReload CbScrollShow t Ht Hs). }
  unfold do_handleScrollShow, setTimeout.
  destruct m as [dt hs es [fa it ic mh ss] iv]. cbn in *.
  destruct ss as [s|]; cbn; autorewrite with lt_ops live_ops;
    rewrite lookup_insert; case_decide; try lia; repeat split; try done.
  rewrite lookup_delete. case_decide; [congruence | done].
Qed.

(** X22: leaving the top of the page does not cancel a reload that the
    wheel gesture has armed: on every reachable page with a pending
    reload, a scroll event below the top region resets the accumulator
    and hides the indicator, but the reload timeout stays pending under
    its key; while the page stays away from the top no wheel event
    changes anything, the downward ones included, and when the timeout
    fires the page reloads. *)
Theorem scroll_away_keeps_reload (p : Page) (y : Q) (t : positive) :
  reachable p -> reload_timer p = Some t -> t ∈ pending_reloads (world p) ->
  (10 < y)%Q ->
  exists p',
    page_step p (Scroll y) = Ok p'
    /\ accumulator p' = Some 0%Q
    /\ indicator_visible p' = false
    /\ reload_timer p' = Some t
    /\ t ∈ pending_reloads (world p')
    /\ (forall ev, page_step p' (Wheel ev) = Ok p')
    /\ page_step p' (TimeoutFires t) = Ok fresh_page.
Proof.
  intros Hp Ht Hpend Hy.
  pose proof (reachable_inv p Hp) as H. pose proof (reachable_ready p Hp) as G.
  unfold reload_timer in Ht.
  destruct (registry p) as [[m|]|] eqn:Hr; try discriminate Ht.
  unfold pending_reloads in Hpend.
  apply elem_of_dom in Hpend as [[cb d] Hl].
  apply map_lookup_filter_Some in Hl as [Hl Hcb]. cbn in Hcb. subst cb.
  destruct G as (B & G). rewrite Hr in G. destruct G as ([fs Hfs] & _ & K).
  set (p1 := dispatch (fun m w => registered TWindow "scroll"
                                    (handleScrollShow (handlers m)) w)
               do_handleScrollShow p).
  assert (H1 : page_inv p1)
    by (apply dispatch_inv; [apply well_kept_handleScrollShow | exact H]).
  assert (F1 : exists m1,
             registry p1 = Some (Populated m1)
             /\ handlers m1 = handlers m /\ data m1 = data m
             /\ elements m1 = elements m
             /\ indicatorTimeout (timeouts m1) = Some t
             /\ live_timeouts (world p1) !! t = Some (CbReload, d)).
  { unfold p1, dispatch. rewrite Hr.
    destruct (registered _ _ _ _).
    - pose proof (scrollShow_keeps_reload m (world p) t d B K Ht Hl) as F.
      destruct (do_handleScrollShow m (world p)) as [m1 w1]. cbn in *.
      exists m1. by split.
    - exists m. by rewrite Hr. }
  destruct F1 as (m1 & Hr1 & Hh1 & Hd1 & He1 & Ht1 & Hl1).
  assert (Hreg : registered TWindow "scroll" (handleScroll (handlers m1)) (world p1)
                 = true).
  { unfold page_inv in H1. rewrite Hr1 in H1. destruct H1 as (_ & _ & Hlr & _).
    rewrite Hh1, Hfs. cbn. apply bool_decide_eq_true.
    apply (Hlr (RelListener {| l_target := TWindow; l_type := "scroll"; l_fn := fs |})).
    unfold listener_keys. rewrite Hh1, Hfs. cbn. by left. }
  assert (Hq : Qle_bool y 10 = false).
  { apply negb_true_iff. by apply Qltb_lt. }
  cbn [page_step]. fold p1. clearbody p1.
  eexists. split; [reflexivity|].
  unfold dispatch, accumulator, indicator_visible, reload_timer.
  rewrite Hr1, Hreg. unfold do_handleScroll, hideRefreshIndicator.
  destruct m1 as [dt hs [ind fb sp bs pb] ts iv]. cbn in *. rewrite Hq. cbn.
  assert (Hl' : live_timeouts
                  (match ind with
                   | Some i => set_shown i false (world p1)
                   | None => world p1
                   end) !! t = Some (CbReload, d))
    by (destruct ind; exact Hl1).
  split; [reflexivity|].
  split; [destruct ind; [apply shown_set_shown_false | reflexivity]|].
  split; [exact Ht1|].
  split.
  { unfold pending_reloads. apply elem_of_dom. exists (CbReload, d).
    by apply map_lookup_filter_Some. }
  split; [|by rewrite Hl'].
  intros ev. destruct (registered TWindow "wheel" _ _); [|reflexivity].
  unfold do_handleWheel. destruct ev as [[dy]|]; [|reflexivity].
  cbn. destruct (finite_number dy) as [q|]; [|reflexivity].
  by destruct (Qltb 1000 (Qabs q)).
Qed.

Lemma scroll_away_keeps_reload_witness :
  exists p p' t,
    page_run fresh_page [Inject; Wheel (wheel (-200))] = Ok p
    /\ reload_timer p = Some t
    /\ page_step p (Scroll 50) = Ok p'
    /\ page_step p' (TimeoutFires t) = Ok fresh_page.
Proof.
  destruct (page_run_reachable [Inject; Wheel (wheel (-200))] fresh_page
              reach_fresh) as (p & E & Hp).
  assert (Ep : exists q, Ok q = Ok p
                         /\ reload_timer q = Some 20%positive
                         /\ live_timeouts (world q) !! 20%positive
                            = Some (CbReload, 500%N)).
  { rewrite <- E. vm_compute. eexists. split; [reflexivity|]. split; reflexivity. }
  destruct Ep as (q & [= ->] & Ht & Hl).
  assert (Hpend : 20%positive ∈ pending_reloads (world p)).
  { unfold pending_reloads. apply elem_of_dom. exists (CbReload, 500%N).
    apply map_lookup_filter_Some. split; [exact Hl | reflexivity]. }
  destruct (scroll_away_keeps_reload p 50 20%positive Hp Ht Hpend eq_refl)
    as (p' & E' & _ & _ & _ & _ & _ & Hf).
  exists p, p', 20%positive.
  split; [exact E|]. split; [exact Ht|]. split; [exact E' | exact Hf].
Defined.

(** *** The reload nobody holds *)

(** X23: a click on the floating refresh button arms a reload whose handle
    is stored nowhere: every click adds one, the teardown that follows
    leaves the page clean of everything the registry held but cannot
    cancel that reload, and when it fires the page reloads all the same. *)
Theorem click_reload_survives_teardown
    (p : Page) (m : Manager) (b : positive) (bh : BtnHandlers) :
  reachable p -> registry p = Some (Populated m) ->
  floatingBtn (elements m) = Some {| fb_node := b; fb_handlers := Some bh |} ->
  exists p1 p2,
    page_step p ClickRefresh = Ok p1
    /\ unheld_reloads (world p1) = S (unheld_reloads (world p))
    /\ live_timeouts (world p1) = live_timeouts (world p)
    /\ registry p1 = registry p
    /\ page_step p1 RunTeardown = Ok p2
    /\ clean (world p2)
    /\ unheld_reloads (world p2) = S (unheld_reloads (world p))
    /\ page_step p2 UnheldReloadFires = Ok fresh_page.
Proof.
  intros Hp Hr Hfb. pose proof (reachable_inv p Hp) as H.
  unfold page_inv in H. rewrite Hr in H. destruct H as (Hc & _ & Hl & _).
  assert (Hreg : registered (TNode b) "click" (Some (click bh)) (world p) = true).
  { cbn. apply bool_decide_eq_true.
    apply (Hl (RelListener {| l_target := TNode b; l_type := "click";
                              l_fn := click bh |})).
    unfold listener_keys. rewrite Hfb. cbn.
    repeat (apply elem_of_app; right). do 2 right. by left. }
  assert (E1 : page_step p ClickRefresh
               = Ok {| world := arm_unheld_reload (world p);
                       registry := Some (Populated m);
                       cleanup_defined := cleanup_defined p |}).
  { cbn [page_step]. unfold dispatch. rewrite Hr, Hfb, Hreg. reflexivity. }
  set (p1 := {| world := arm_unheld_reload (world p);
                registry := Some (Populated m);
                cleanup_defined := cleanup_defined p |}) in *.
  assert (Hp1 : reachable p1) by exact (reach_step p ClickRefresh p1 Hp E1).
  destruct (teardown_inv p1 (reachable_inv p1 Hp1))
    as (p2 & E2 & _ & _ & Hclean & _ & Hu).
  exists p1, p2. split; [exact E1|]. split; [reflexivity|].
  split; [reflexivity|]. split; [by rewrite Hr|]. split; [exact E2|].
  split; [exact Hclean|]. split; [exact Hu|].
  cbn [page_step]. rewrite Hu. reflexivity.
Qed.

Lemma click_reload_survives_teardown_witness :
  exists p p1 p2,
    install fresh_page = Ok p
    /\ page_step p ClickRefresh = Ok p1
    /\ page_step p1 RunTeardown = Ok p2
    /\ page_step p2 UnheldReloadFires = Ok fresh_page.
Proof.
  destruct (install fresh_page) as [p|] eqn:E; [|vm_compute in E; discriminate E].
  assert (Hp : reachable p) by (apply (reach_step fresh_page Inject p reach_fresh E)).
  assert (Ep : exists q m bh,
             Ok q = Ok p /\ registry q = Some (Populated m)
             /\ floatingBtn (elements m)
                = Some {| fb_node := 7%positive; fb_handlers := Some bh |}).
  { rewrite <- E. vm_compute. do 3 eexists. split; [reflexivity|].
    split; reflexivity. }
  destruct Ep as (q & m & bh & [= ->] & Hr & Hfb).
  destruct (click_reload_survives_teardown p m 7%positive bh Hp Hr Hfb)
    as (p1 & p2 & E1 & _ & _ & _ & E2 & _ & _ & E3).
  exists p, p1, p2. split; [reflexivity|]. split; [exact E1|].
  split; [exact E2 | exact E3].
Defined.

(** *** Cancelling the reload *)

Lemma pending_reload_keyed (p : Page) (t : positive) :
  reachable p -> t ∈ pending_reloads (world p) -> reload_timer p = Some t.
Proof.
  intros Hp Ht. pose proof (reachable_inv p Hp) as H.
  pose proof (reachable_timers p Hp) as K.
  unfold pending_reloads in Ht. apply elem_of_dom in Ht as [[cb d] Ht].
  apply map_lookup_filter_Some in Ht as [Ht Hcb]. cbn in Hcb. subst cb.
  unfold page_inv, timers_inv, reload_timer in *.
  destruct (registry p) as [[m|]|].
  - exact (K t CbReload d Ht).
  - destruct H as [_ Hc]. by rewrite (clean_no_timeout _ t Hc) in Ht.
  - destruct H as [_ Hc]. by rewrite (clean_no_timeout _ t Hc) in Ht.
Qed.

(** X24: at the top of the page a downward (or zero) wheel event of
    magnitude at most 1000 cancels every reload the wheel gesture has
    armed: on every reachable page with the controller installed the
    event is handled, the accumulator is reset, the indicator is hidden,
    no reload timeout is pending afterwards, and whichever timeout fires
    next leaves the page and its controller in place. *)
Theorem downward_wheel_cancels_every_reload (p : Page) (m : Manager) (dy : Q) :
  reachable p -> registry p = Some (Populated m) -> isAtTop (data m) = true ->
  (0 <= dy)%Q -> (dy <= 1000)%Q ->
  exists p',
    page_step p (Wheel (wheel dy)) = Ok p'
    /\ accumulator p' = Some 0%Q
    /\ indicator_visible p' = false
    /\ reload_timer p' = None
    /\ pending_reloads (world p') = ∅
    /\ forall t, exists p'', page_step p' (TimeoutFires t) = Ok p''
                             /\ registry p'' = registry p'.
Proof.
  intros Hp Hr Htop H0 H1.
  pose proof (reachable_inv p Hp) as H. pose proof (reachable_ready p Hp) as G.
  destruct G as (_ & G). rewrite Hr in G. destruct G as (_ & [fw Hfw] & _).
  assert (Hreg : registered TWindow "wheel" (handleWheel (handlers m)) (world p)
                 = true).
  { unfold page_inv in H. rewrite Hr in H. destruct H as (_ & _ & Hlr & _).
    rewrite Hfw. cbn. apply bool_decide_eq_true.
    apply (Hlr (RelListener {| l_target := TWindow; l_type := "wheel"; l_fn := fw |})).
    unfold listener_keys. rewrite Hfw. cbn. apply elem_of_app. right. by left. }
  pose proof (wheel_downward dy m (world p) Htop H0 H1) as (Ha & Hi & _ & Hs & _).
  assert (He : elements (fst (do_handleWheel (wheel dy) m (world p))) = elements m).
  { unfold do_handleWheel, wheel. cbn.
    assert (E1 : Qltb 1000 (Qabs dy) = false)
      by (apply Qltb_ge; rewrite Qabs_pos; assumption).
    assert (E2 : Qltb dy 0 = false) by by apply Qltb_ge.
    rewrite E1, Htop, E2. cbn.
    by destruct (indicatorTimeout (timeouts m)). }
  assert (E : page_step p (Wheel (wheel dy))
              = Ok {| world := snd (do_handleWheel (wheel dy) m (world p));
                      registry := Some (Populated
                                          (fst (do_handleWheel (wheel dy) m (world p))));
                      cleanup_defined := cleanup_defined p |}).
  { cbn [page_step]. unfold dispatch. rewrite Hr, Hreg.
    by destruct (do_handleWheel (wheel dy) m (world p)). }
  set (p' := {| world := snd (do_handleWheel (wheel dy) m (world p));
                registry := Some (Populated
                                    (fst (do_handleWheel (wheel dy) m (world p))));
                cleanup_defined := cleanup_defined p |}) in *.
  assert (Hp' : reachable p') by exact (reach_step p _ p' Hp E).
  assert (Hpend : pending_reloads (world p') = ∅).
  { apply elem_of_equiv_empty_L. intros t Ht.
    apply (pending_reload_keyed p' t Hp') in Ht.
    change (indicatorTimeout
              (timeouts (fst (do_handleWheel (wheel dy) m (world p)))) = Some t)
      in Ht.
    rewrite Hi in Ht. discriminate Ht. }
  exists p'. split; [exact E|].
  split.
  { change (Some (wheelDeltaAccumulator
                    (data (fst (do_handleWheel (wheel dy) m (world p)))))
            = Some 0%Q). by rewrite Ha. }
  split.
  { change (match indicator
                    (elements (fst (do_handleWheel (wheel dy) m (world p)))) with
            | Some n => shown n (snd (do_handleWheel (wheel dy) m (world p)))
            | None => false
            end = false).
    rewrite He.
    destruct (indicator (elements m)) as [n|] eqn:En; [by apply Hs | done]. }
  split; [exact Hi|]. split; [exact Hpend|].
  intros t. cbn [page_step].
  destruct (live_timeouts (world p') !! t) as [[cb d]|] eqn:El.
  - destruct cb; try (eexists; split; reflexivity).
    assert (Ht : t ∈ pending_reloads (world p')).
    { unfold pending_reloads. apply elem_of_dom. exists (CbReload, d).
      by apply map_lookup_filter_Some. }
    rewrite Hpend in Ht. by apply not_elem_of_empty in Ht.
  - eexists. split; reflexivity.
Qed.

Lemma downward_wheel_cancels_every_reload_witness :
  exists p p',
    page_run fresh_page [Inject; Wheel (wheel (-200))] = Ok p
    /\ page_step p (Wheel (wheel 30)) = Ok p'
    /\ pending_reloads (world p') = ∅.
Proof.
  destruct (page_run_reachable [Inject; Wheel (wheel (-200))] fresh_page
              reach_fresh) as (p & E & Hp).
  assert (Ep : exists q m,
             Ok q = Ok p /\ registry q = Some (Populated m)
             /\ isAtTop (data m) = true).
  { rewrite <- E. vm_compute. do 2 eexists. split; [reflexivity|].
    split; reflexivity. }
  destruct Ep as (q & m & [= ->] & Hr & Htop).
  destruct (downward_wheel_cancels_every_reload p m 30 Hp Hr Htop)
    as (p' & E' & _ & _ & _ & Hpend & _); [done | done |].
  exists p, p'. split; [exact E|]. split; [exact E' | exact Hpend].
Defined.

End PageFacts.
